(** * hermes-data-service: the job scraper's retry, pagination and
      normalisation logic, embedded in Rocq.

    The development follows the TypeScript sources:
    - [scraper/utils.ts]: validation, sanitisation, error classification,
      the backoff delay, the random choices and the job ids in URLs;
    - [scraper/custom-scraper.ts] (class [CustomLinkedInScraper]): the
      extraction pass, the infinite-scroll loader and the main scrape loop;
    - [scraper/enhanced-scraper.ts] (class [EnhancedLinkedInScraper]): the retry
      orchestrator and the batch coordinator;
    - [scraper/index.ts]: [runJobScraper] with its fallback, and
      [runBatchJobScraper];
    - [scraper/simple-scraper.ts] (class [SimpleLinkedInScraper]): the scrape of
      the fallback;
    - [scraper/authenticated-scraper.ts]: the [start] query parameter helpers,
      the first URL and the page accumulation of the pagination loop;
    - [handlers/jobs]: the filter that keeps one record of each job id.

    Conventions of the embedding.
    - A JavaScript string is a [string]. Where the code trims or searches a
      text, its characters are the code units of the text, taken below 256;
      in the URL helpers they are the bytes of its UTF-8 encoding, which is
      what the URL parser and the urlencoded format work on.
    - A JavaScript number that the code uses as an integer is a [Z]; the
      backoff delay, which adds a random fraction, is a [Q]. The numbers of
      the code are doubles: where the code computes with a number that can
      leave the range of the safe integers, the result is rounded to the
      nearest double ([round_int], [binary64]), and where it writes or reads
      one as text, the text is that of the double.
    - A value that may be [undefined] or [null] is an [option].
    - A call that may throw returns a [Result]; code that talks to the browser
      is a state transformer over a world [W] whose primitive operations are
      the fields of an interface, and every call leaves an event in a trace. *)

From Stdlib Require Import String Ascii ZArith QArith Qminmax Qpower Qround Qabs List Bool.
From Stdlib Require Import Lia Lqa.
From Stdlib Require Floats.
From Stdlib Require Import DecimalString DecimalN.
From Equations Require Import Equations.
Import ListNotations.

Local Open Scope string_scope.
Local Open Scope Z_scope.

(** ** JavaScript primitives used by the scraper *)

Module JS.

(** [WhiteSpace] and [LineTerminator] code units below 256 (ECMAScript
    12.2, 12.3): TAB, LF, VT, FF, CR, SP and NBSP. *)
Definition is_ws (c : ascii) : bool :=
  let n := N_of_ascii c in
  (((9 <=? n) && (n <=? 13)) || (n =? 32) || (n =? 160))%N.

(** [String.prototype.trimStart]. *)
Fixpoint trimStart (s : string) : string :=
  match s with
  | EmptyString => EmptyString
  | String c r => if is_ws c then trimStart r else s
  end.

(** [String.prototype.trimEnd]. *)
Fixpoint trimEnd (s : string) : string :=
  match s with
  | EmptyString => EmptyString
  | String c r =>
      match trimEnd r with
      | EmptyString => if is_ws c then EmptyString else String c EmptyString
      | r' => String c r'
      end
  end.

(** [String.prototype.trim]. *)
Definition trim (s : string) : string := trimEnd (trimStart s).

(** [s.includes(sub)]. *)
Definition includes (s sub : string) : bool :=
  match index 0 sub s with
  | Some _ => true
  | None => false
  end.

(** [s.startsWith(p)]. *)
Definition startsWith (s p : string) : bool := prefix p s.

(** [s.replace(pat, "")] with a string pattern: the first occurrence of [pat]
    is removed. *)
Definition remove_first (s pat : string) : string :=
  match index 0 pat s with
  | Some i =>
      substring 0 i s ++
      substring (i + String.length pat) (String.length s - (i + String.length pat)) s
  | None => s
  end.

(** Truthiness of a possibly missing string: [undefined], [null] and the empty
    string are falsy. *)
Definition truthy (o : option string) : bool :=
  match o with
  | Some s => negb (s =? "")%string
  | None => false
  end.

(** [o || d] for a possibly missing string [o] and a string [d]. *)
Definition or_else (o : option string) (d : string) : string :=
  match o with
  | Some s => if (s =? "")%string then d else s
  | None => d
  end.

(** [o?.trim()]. *)
Definition opt_trim (o : option string) : option string := option_map trim o.

(** [o?.includes(sub)], coerced to a boolean: a missing [o] gives
    [undefined], which is falsy. *)
Definition opt_includes (o : option string) (sub : string) : bool :=
  match o with
  | Some s => includes s sub
  | None => false
  end.

(** [o.trim() !== ""], evaluated only where [o] is known to be a string. *)
Definition trim_nonempty (o : option string) : bool :=
  match o with
  | Some s => negb (trim s =? "")%string
  | None => false
  end.

(** [o === lit] for a possibly missing string [o]. *)
Definition opt_is (o : option string) (lit : string) : bool :=
  match o with
  | Some s => (s =? lit)%string
  | None => false
  end.

(** [xs.slice(0, n)] for an integer [n]: a negative [n] counts from the end. *)
Definition slice0 {A : Type} (xs : list A) (n : Z) : list A :=
  if n <? 0 then firstn (Z.to_nat (Z.of_nat (length xs) + n)) xs
  else firstn (Z.to_nat n) xs.

(** *** Doubles

    The numbers of the code are binary64 numbers. [binary64 x] is the double
    nearest to the real [x], a tie going to the one with the even mantissa
    (IEEE 754 roundTiesToEven, the rounding of every arithmetic operation of
    ECMAScript); it is used below the overflow threshold only. *)

(** [x] rounded to an integer, a tie going to the even one. *)
Definition round_half_even (x : Q) : Z :=
  let f := Qfloor x in
  match (x - inject_Z f ?= 1 # 2)%Q with
  | Lt => f
  | Gt => f + 1
  | Eq => if Z.even f then f else f + 1
  end.

(** The exponent [e] of a positive real [x]: [2^e <= x < 2^(e+1)]. *)
Definition exponent (x : Q) : Z :=
  let e := Z.log2 (Qnum x) - Z.log2 (Zpos (Qden x)) in
  if Qle_bool (Qpower 2 e) x then e else e - 1.

(** A mantissa of 53 bits at the exponent of [x]; below [2^-1022] the
    spacing stays that of the subnormal numbers. *)
Definition binary64 (x : Q) : Q :=
  if Qeq_bool x 0 then 0%Q
  else
    let a := Qabs x in
    let e := Z.max (exponent a) (-1022) in
    let ulp := Qpower 2 (e - 52) in
    let m := round_half_even (a / ulp)%Q in
    let r := Qred (inject_Z m * ulp)%Q in
    if Qle_bool 0 x then r else (- r)%Q.

(** The value of a finite double of the machine, by which [binary64] can be
    compared with the arithmetic of the processor. *)
Definition Q_of_float (f : PrimFloat.float) : Q :=
  match FloatOps.Prim2SF f with
  | SpecFloat.S754_finite negative m e =>
      let v := (inject_Z (Zpos m) * Qpower 2 e)%Q in
      if negative then (- v)%Q else v
  | _ => 0%Q
  end.

(** The double nearest to an integer: the integer itself up to [2^53] in
    absolute value, where every integer is a double. *)
Definition round_int (z : Z) : Z :=
  if Z.abs z <=? 2 ^ 53 then z else Qfloor (binary64 (inject_Z z)).

(** From this integer on a decimal numeral is read as [Infinity]: the
    middle of the largest double and [2^1024]. *)
Definition overflow_threshold : Z := 2 ^ 1024 - 2 ^ 970.

(** [a + b], [a - b] and [a * b] on numbers that are integers. *)
Definition num_add (a b : Z) : Z := round_int (a + b).
Definition num_sub (a b : Z) : Z := round_int (a - b).
Definition num_mul (a b : Z) : Z := round_int (a * b).

(** *** Numbers as text *)

Definition is_digit (c : ascii) : bool :=
  let n := N_of_ascii c in ((48 <=? n) && (n <=? 57))%N.

(** The decimal digits of a natural number, without leading zeros. *)
Definition decimal (n : N) : string :=
  NilZero.string_of_uint (N.to_uint n).

(** Trailing ["0"] characters removed. *)
Fixpoint strip_zeros (s : string) : string :=
  match s with
  | EmptyString => EmptyString
  | String c r =>
      match strip_zeros r with
      | EmptyString => if (c =? "0")%char then EmptyString else String c EmptyString
      | r' => String c r'
      end
  end.

(** The search of [Number::toString] for a double [v] that is an integer
    above [2^53]: among the multiples of [u], a power of ten, the two next
    to [v] are tried; one whose nearest double is [v] is taken, of two the
    nearer to [v] and, at the same distance, the one with the even digits;
    without one the search goes on with [u / 10]. *)
Fixpoint shortest_from (fuel : nat) (v u : Z) : Z :=
  let lo := v / u * u in
  let hi := lo + u in
  let lo_ok := round_int lo =? v in
  let hi_ok := round_int hi =? v in
  if lo_ok && hi_ok then
    if v - lo <? hi - v then lo
    else if hi - v <? v - lo then hi
    else if Z.even (lo / u) then lo else hi
  else if lo_ok then lo
  else if hi_ok then hi
  else
    match fuel with
    | O => v
    | S fuel' => shortest_from fuel' v (u / 10)
    end.

(** The integer whose digits [Number::toString] prints for the double [v]:
    the one with the fewest significant digits among those that identify
    [v] (ECMAScript 6.1.6.1.20, step 5 with its note 2). *)
Definition shortest_int (v : Z) : Z :=
  let digits := String.length (decimal (Z.to_N v)) in
  shortest_from digits v (10 ^ Z.of_nat (digits - 1)).

(** [Number::toString] for a non-negative integer [n], read as the double
    nearest to it: up to [2^53] the digits of [n] itself, above the digits
    of the search; plain digits below [10^21], exponent notation from there
    on. *)
Definition nat_toString (n : N) : string :=
  let c := if (n <=? 2 ^ 53)%N then n
           else Z.to_N (shortest_int (round_int (Z.of_N n))) in
  if (c <? 10 ^ 21)%N then decimal c
  else
    let ds := decimal c in
    let e := decimal (N.of_nat (String.length ds - 1)) in
    match strip_zeros ds with
    | String d EmptyString => String d "e+" ++ e
    | String d r => String d ("." ++ r) ++ "e+" ++ e
    | EmptyString => ds
    end.

(** [String(z)] for a number [z] that is an integer. *)
Definition toString (z : Z) : string :=
  if z <? 0 then "-" ++ nat_toString (Z.to_N (- z)) else nat_toString (Z.to_N z).

(** The value of the longest prefix of decimal digits, with accumulator. *)
Fixpoint parse_digits (acc : N) (s : string) : N :=
  match s with
  | EmptyString => acc
  | String c r =>
      if is_digit c then parse_digits (10 * acc + (N_of_ascii c - 48))%N r
      else acc
  end.

Definition starts_with_digit (s : string) : bool :=
  match s with
  | String c _ => is_digit c
  | EmptyString => false
  end.

(** The white space [parseInt] skips ([StrWhiteSpaceChar], ECMAScript
    7.1.4.1), on the UTF-8 bytes of the text: TAB, LF, VT, FF, CR and SP, and
    the encodings of U+00A0, U+1680, U+2000 to U+200A, U+2028, U+2029,
    U+202F, U+205F, U+3000 and U+FEFF. *)
Fixpoint skip_white_space (s : string) : string :=
  match s with
  | EmptyString => EmptyString
  | String c r =>
      let n := N_of_ascii c in
      if (((9 <=? n) && (n <=? 13)) || (n =? 32))%N then skip_white_space r
      else
        match r with
        | String c1 r1 =>
            let n1 := N_of_ascii c1 in
            if ((n =? 194) && (n1 =? 160))%N then skip_white_space r1
            else
              match r1 with
              | String c2 r2 =>
                  let n2 := N_of_ascii c2 in
                  if (((n =? 225) && (n1 =? 154) && (n2 =? 128)) ||
                      ((n =? 226) && (n1 =? 128) &&
                       (((128 <=? n2) && (n2 <=? 138)) ||
                        (n2 =? 168) || (n2 =? 169) || (n2 =? 175))) ||
                      ((n =? 226) && (n1 =? 129) && (n2 =? 159)) ||
                      ((n =? 227) && (n1 =? 128) && (n2 =? 128)) ||
                      ((n =? 239) && (n1 =? 187) && (n2 =? 191)))%N
                  then skip_white_space r2
                  else s
              | EmptyString => s
              end
        | EmptyString => s
        end
  end.

(** A number that [parseInt] returns. *)
Inductive Number : Type :=
| NaN
| Infinity (negative : bool)
| Int (z : Z).

(** [parseInt(s, 10)] (ECMAScript 19.2.5) on the UTF-8 bytes of [s]: leading
    white space is skipped, one sign is accepted, then the longest run of
    digits is read; no digit gives [NaN], and the integer read gives the
    double nearest to it, as the engines compute it (past 20 significant
    digits the standard lets an implementation be less precise). *)
Definition parseInt (s : string) : Number :=
  let s1 := skip_white_space s in
  let '(neg, s2) :=
    match s1 with
    | String "-" r => (true, r)
    | String "+" r => (false, r)
    | _ => (false, s1)
    end in
  if starts_with_digit s2 then
    let mathInt := Z.of_N (parse_digits 0 s2) in
    if mathInt <? overflow_threshold then
      let v := round_int mathInt in
      Int (if neg then - v else v)
    else Infinity neg
  else NaN.

(** *** application/x-www-form-urlencoded (WHATWG URL 5) *)

(** Bytes left as they are by the serializer: ASCII alphanumerics and
    [*], [-], [.], [_]. *)
Definition is_unreserved (c : ascii) : bool :=
  let n := N_of_ascii c in
  (((48 <=? n) && (n <=? 57)) || ((65 <=? n) && (n <=? 90)) ||
   ((97 <=? n) && (n <=? 122)) ||
   (n =? 42) || (n =? 45) || (n =? 46) || (n =? 95))%N.

Definition hex_digit (n : N) : ascii :=
  if (n <? 10)%N then ascii_of_N (48 + n) else ascii_of_N (55 + n).

Definition hex_value (c : ascii) : option N :=
  let n := N_of_ascii c in
  if ((48 <=? n) && (n <=? 57))%N then Some (n - 48)%N
  else if ((65 <=? n) && (n <=? 70))%N then Some (n - 55)%N
  else if ((97 <=? n) && (n <=? 102))%N then Some (n - 87)%N
  else None.

Definition encode_byte (c : ascii) : string :=
  if is_unreserved c then String c EmptyString
  else if (c =? " ")%char then "+"
  else
    let n := N_of_ascii c in
    String "%" (String (hex_digit (n / 16)) (String (hex_digit (n mod 16)) EmptyString)).

(** Percent-encoding with the urlencoded set, space as plus. *)
Fixpoint encode (s : string) : string :=
  match s with
  | EmptyString => EmptyString
  | String c r => encode_byte c ++ encode r
  end.

Fixpoint plus_to_space (s : string) : string :=
  match s with
  | EmptyString => EmptyString
  | String c r => String (if (c =? "+")%char then " "%char else c) (plus_to_space r)
  end.

(** Percent-decoding: a [%] that is not followed by two hexadecimal digits is
    kept. *)
Fixpoint percent_decode (s : string) : string :=
  match s with
  | EmptyString => EmptyString
  | String c r =>
      if (c =? "%")%char then
        match r with
        | String a (String b r') =>
            match hex_value a, hex_value b with
            | Some x, Some y => String (ascii_of_N (16 * x + y)) (percent_decode r')
            | _, _ => String c (percent_decode r)
            end
        | _ => String c (percent_decode r)
        end
      else String c (percent_decode r)
  end.

Definition decode (s : string) : string := percent_decode (plus_to_space s).

(** [s] up to the first [sep], and what follows it if [sep] occurs. *)
Fixpoint cut (sep : ascii) (s : string) : string * option string :=
  match s with
  | EmptyString => (EmptyString, None)
  | String c r =>
      if (c =? sep)%char then (EmptyString, Some r)
      else let '(a, b) := cut sep r in (String c a, b)
  end.

(** [s] split at every [sep]. *)
Fixpoint split_on (sep : ascii) (s : string) : list string :=
  match s with
  | EmptyString => [EmptyString]
  | String c r =>
      if (c =? sep)%char then EmptyString :: split_on sep r
      else
        match split_on sep r with
        | h :: t => String c h :: t
        | [] => [String c EmptyString]
        end
  end.

Fixpoint join (sep : string) (xs : list string) : string :=
  match xs with
  | [] => EmptyString
  | [x] => x
  | x :: r => x ++ sep ++ join sep r
  end.

Definition parse_pair (piece : string) : string * string :=
  let '(n, v) := cut "=" piece in
  (decode n,
   match v with
   | Some v => decode v
   | None => EmptyString
   end).

(** The urlencoded parser: empty pieces are skipped. *)
Definition parse_urlencoded (q : string) : list (string * string) :=
  map parse_pair
      (filter (fun piece => negb (piece =? "")%string) (split_on "&" q)).

Definition serialize_pair (p : string * string) : string :=
  encode (fst p) ++ "=" ++ encode (snd p).

(** The urlencoded serializer. *)
Definition serialize_urlencoded (l : list (string * string)) : string :=
  join "&" (map serialize_pair l).

(** [URLSearchParams.prototype.append]. *)
Definition sp_append (name value : string) (l : list (string * string)) :=
  (l ++ [(name, value)])%list.

(** [URLSearchParams.prototype.get]: the value of the first pair called
    [name]. *)
Fixpoint sp_get (name : string) (l : list (string * string)) : option string :=
  match l with
  | [] => None
  | (k, v) :: r => if (k =? name)%string then Some v else sp_get name r
  end.

(** [URLSearchParams.prototype.set]: the first pair called [name] takes the
    value, the others called [name] are removed; without such a pair one is
    appended. *)
Fixpoint sp_set (name value : string) (l : list (string * string))
  : list (string * string) :=
  match l with
  | [] => [(name, value)]
  | (k, v) :: r =>
      if (k =? name)%string
      then (k, value) :: filter (fun p => negb (fst p =? name)%string) r
      else (k, v) :: sp_set name value r
  end.

(** *** The URL record (WHATWG URL 4.1)

    Scheme, authority and path are kept together as [u_base]; the query and
    the fragment are the parts the scraper reads and writes. The string given
    to the parser is taken after the parser has removed its leading and
    trailing C0 control or space and its ASCII tab or newline. *)
Record URL : Type := mkURL {
  u_base : string;
  u_query : option string;
  u_fragment : option string
}.

Definition split_url (s : string) : string * option string * option string :=
  let '(s1, frag) := cut "#" s in
  let '(base, query) := cut "?" s1 in
  (base, query, frag).

(** [new URL(s)]: [valid_base] tells whether scheme, authority and path form
    an absolute URL; [None] stands for the [TypeError]. *)
Definition parse_url (valid_base : string -> bool) (s : string) : option URL :=
  let '(base, query, frag) := split_url s in
  if valid_base base then Some (mkURL base query frag) else None.

(** [new URL(s, "https://www.linkedin.com")]: [resolve_base] resolves the
    part before the query against the base URL. The base URL has neither
    query nor fragment, so those of the result are those of [s]. *)
Definition parse_url_relative (resolve_base : string -> option string)
    (s : string) : option URL :=
  let '(base, query, frag) := split_url s in
  match resolve_base base with
  | Some base' => Some (mkURL base' query frag)
  | None => None
  end.

(** [u.searchParams]. *)
Definition searchParams (u : URL) : list (string * string) :=
  match u_query u with
  | Some q => parse_urlencoded q
  | None => []
  end.

(** The update steps run after the list of [u.searchParams] changed: an
    empty serialization gives a null query. *)
Definition with_searchParams (u : URL) (l : list (string * string)) : URL :=
  let q := serialize_urlencoded l in
  mkURL (u_base u) (if (q =? "")%string then None else Some q) (u_fragment u).

(** [u.toString()]. *)
Definition href (u : URL) : string :=
  u_base u ++
  match u_query u with
  | Some q => "?" ++ q
  | None => ""
  end ++
  match u_fragment u with
  | Some f => "#" ++ f
  | None => ""
  end.

End JS.

(** ** Results of calls that may throw *)

(** A thrown value, seen through the two properties the code reads. *)
Record JsError : Type := mkError {
  err_name : option string;
  err_message : option string
}.

(** [new Error(msg)]. *)
Definition Error (msg : string) : JsError :=
  mkError (Some "Error") (Some msg).

Inductive Result (A : Type) : Type :=
| Ok (a : A)
| Throw (e : JsError).
Arguments Ok {A} a.
Arguments Throw {A} e.

(** ** scraper/utils.ts *)

Module Utils.
Import JS.

(** The [JobData] interface. Every property is optional here because
    [isValidJobData] and [sanitizeJobData] take [any]. *)
Record JobData : Type := mkJob {
  id : option string;
  title : option string;
  company : option string;
  companyLink : option string;
  companyImgLink : option string;
  location : option string;
  date : option string;
  link : option string;
  applyLink : option string;
  description : option string;
  salary : option string;
  jobType : option string;
  experienceLevel : option string
}.

Definition isValidJobData (job : JobData) : bool :=
  truthy (title job) &&
  truthy (company job) &&
  truthy (id job) &&
  trim_nonempty (title job) &&
  trim_nonempty (company job).

Definition sanitizeJobData (job : JobData) : JobData :=
  {| id := id job;
     title := Some (or_else (opt_trim (title job)) "N/A");
     company := Some (or_else (opt_trim (company job)) "N/A");
     location := Some (or_else (opt_trim (location job)) "N/A");
     date := Some (or_else (opt_trim (date job)) "N/A");
     link := Some (or_else (link job) "N/A");
     companyLink := Some (or_else (companyLink job) "N/A");
     companyImgLink := Some (or_else (companyImgLink job) "N/A");
     applyLink := Some (or_else (applyLink job) "N/A");
     description := Some (or_else (opt_trim (description job)) "N/A");
     salary := Some (or_else (opt_trim (salary job)) "N/A");
     jobType := Some (or_else (opt_trim (jobType job)) "N/A");
     experienceLevel := Some (or_else (opt_trim (experienceLevel job)) "N/A") |}.

(** The digits [s] starts with: what a greedy [\d+] takes. *)
Fixpoint leading_digits (s : string) : string :=
  match s with
  | String c r => if is_digit c then String c (leading_digits r) else EmptyString
  | EmptyString => EmptyString
  end.

(** [s] without its prefix [p], if it starts with [p]. *)
Fixpoint strip_prefix (p s : string) : option string :=
  match p, s with
  | EmptyString, _ => Some s
  | String a p', String b s' => if (a =? b)%char then strip_prefix p' s' else None
  | String _ _, EmptyString => None
  end.

(** A match of [/\/jobs\/view\/(\d+)/] that starts at the start of [s]: its
    group. *)
Definition job_view_here (s : string) : option string :=
  match strip_prefix "/jobs/view/" s with
  | Some r =>
      let digits := leading_digits r in
      if (digits =? "")%string then None else Some digits
  | None => None
  end.

(** [s.match(/\/jobs\/view\/(\d+)/)]: the group of the leftmost match. *)
Fixpoint job_view_match (s : string) : option string :=
  match job_view_here s with
  | Some digits => Some digits
  | None =>
      match s with
      | String _ r => job_view_match r
      | EmptyString => None
      end
  end.

Definition extractJobIdFromUrl (url : string) : string :=
  match job_view_match url with
  | Some digits => digits
  | None => ""
  end.

Definition buildLinkedInJobUrl (jobId : string) : string :=
  "https://www.linkedin.com/jobs/view/" ++ jobId.

Definition isRateLimited (error : JsError) : bool :=
  opt_includes (err_message error) "429" ||
  opt_includes (err_message error) "rate limit" ||
  opt_includes (err_message error) "too many requests".

Definition shouldRetry (error : JsError) (attempt maxRetries : Z) : bool :=
  if attempt >=? maxRetries then false
  else
    isRateLimited error ||
    opt_includes (err_message error) "timeout" ||
    opt_includes (err_message error) "network" ||
    opt_includes (err_message error) "502" ||
    opt_includes (err_message error) "503" ||
    opt_includes (err_message error) "Target page" ||
    opt_includes (err_message error) "browser" ||
    opt_includes (err_message error) "context has been closed" ||
    opt_includes (err_message error) "TargetClosedError" ||
    opt_includes (err_message error) "Protocol error" ||
    opt_includes (err_message error) "Connection closed" ||
    opt_is (err_name error) "TargetClosedError" ||
    opt_is (err_name error) "ProtocolError".

(** [calculateRetryDelay]. [fl] is the rounding of a real result to a
    double, [rnd] the value returned by [Math.random()]. *)
Definition calculateRetryDelay (fl : Q -> Q) (attempt : Z) (rnd : Q) : Q :=
  let baseDelay := 1000%Q in
  let maxDelay := 30000%Q in
  let delay := Qmin (fl (baseDelay * Qpower 2 attempt)%Q) maxDelay in
  let jitter := fl (rnd * 1000)%Q in
  fl (delay + jitter)%Q.

(** The time in milliseconds [randomDelay(min, max)] waits; [fl] and [rnd]
    as above. (The wait itself is the timer [RandomDelay] of the effects
    below.) *)
Definition randomDelay_ms (fl : Q -> Q) (min max : Z) (rnd : Q) : Z :=
  let delay := Qfloor (fl (rnd * inject_Z (max - min + 1))%Q) + min in
  delay.

Definition userAgents : list string :=
  [ "Mozilla/5.0 (Windows NT 10.0; Win64; x64) AppleWebKit/537.36 (KHTML, like Gecko) Chrome/120.0.0.0 Safari/537.36";
    "Mozilla/5.0 (Macintosh; Intel Mac OS X 10_15_7) AppleWebKit/537.36 (KHTML, like Gecko) Chrome/120.0.0.0 Safari/537.36";
    "Mozilla/5.0 (Windows NT 10.0; Win64; x64) AppleWebKit/537.36 (KHTML, like Gecko) Chrome/119.0.0.0 Safari/537.36";
    "Mozilla/5.0 (Macintosh; Intel Mac OS X 10_15_7) AppleWebKit/605.1.15 (KHTML, like Gecko) Version/17.1 Safari/605.1.15";
    "Mozilla/5.0 (Windows NT 10.0; Win64; x64; rv:109.0) Gecko/20100101 Firefox/121.0";
    "Mozilla/5.0 (Macintosh; Intel Mac OS X 10.15; rv:109.0) Gecko/20100101 Firefox/121.0" ].

(** [getRandomUserAgent]; [None] is the [undefined] of an index outside the
    array. *)
Definition getRandomUserAgent (fl : Q -> Q) (rnd : Q) : option string :=
  let index := Qfloor (fl (rnd * inject_Z (Z.of_nat (length userAgents)))%Q) in
  if index <? 0 then None else nth_error userAgents (Z.to_nat index).

Definition generateRandomDelay (fl : Q -> Q) (rnd : Q) : Z :=
  Qfloor (fl (rnd * 2000)%Q) + 1000.

End Utils.

(** ** Effects

    A computation runs over a state made of the world [W] (the browser and
    everything behind it) and the trace of the calls made so far. *)

Inductive Event : Type :=
(* Playwright calls of [CustomLinkedInScraper] *)
| LaunchPersistentContext
| ContextClose
| NewPage
| AddInitScript
| Goto (url : string)
| PageTitle
| QueryDismissButton
| ClickDismissButton
| WaitForTimeout (ms : Z)
| Screenshot (path : string)
| WaitForSelector
| ScrollToBottom
| CountCards
| QueryCards
| PageClose
(* timers *)
| RandomDelay (min max : Z)
| Sleep (ms : Z)
| Backoff (attempt : Z)
(* calls of [EnhancedLinkedInScraper] to its scraper *)
| ScraperScrapeJobs
| ScraperInitialize
| ScraperClose
(* calls of [runJobScraper] to the simple scraper *)
| CreateSimpleScraper
| SimpleScrapeJobs
| SimpleClose.

Record St (W : Type) : Type := mkSt {
  world : W;
  trace : list Event
}.
Arguments mkSt {W} world trace.
Arguments world {W} s.
Arguments trace {W} s.

Definition M (W A : Type) : Type := St W -> Result A * St W.

Definition ret {W A} (a : A) : M W A := fun st => (Ok a, st).

Definition throw {W A} (e : JsError) : M W A := fun st => (Throw e, st).

Definition bind {W A B} (m : M W A) (k : A -> M W B) : M W B :=
  fun st =>
    match m st with
    | (Ok a, st') => k a st'
    | (Throw e, st') => (Throw e, st')
    end.

Declare Scope js_scope.
Delimit Scope js_scope with js.
Notation "x <- m ;; k" := (bind m (fun x => k))
  (at level 61, m at next level, right associativity) : js_scope.
Notation "m ;; k" := (bind m (fun _ => k))
  (at level 61, right associativity) : js_scope.
Local Open Scope js_scope.

(** [try { m } catch (e) { h e }]. *)
Definition catch {W A} (m : M W A) (h : JsError -> M W A) : M W A :=
  fun st =>
    match m st with
    | (Ok a, st') => (Ok a, st')
    | (Throw e, st') => h e st'
    end.

(** [try { m } catch {}] for a statement. *)
Definition quietly {W} (m : M W unit) : M W unit :=
  catch m (fun _ => ret tt).

(** [try { m } finally { f }] where [f] cannot throw. *)
Definition ensuring {W A} (m : M W A) (f : St W -> St W) : M W A :=
  fun st => let '(r, st') := m st in (r, f st').

(** A timer, or any call that only leaves a mark in the trace. *)
Definition emit {W} (ev : Event) : M W unit :=
  fun st => (Ok tt, mkSt (world st) (trace st ++ [ev])).

(** A call of a primitive operation of the world. *)
Definition call {W A} (ev : Event) (op : W -> Result A * W) : M W A :=
  fun st =>
    let '(r, w) := op (world st) in
    (r, mkSt w (trace st ++ [ev])).

(** A change of the world that is not a call. *)
Definition update {W} (f : W -> W) : M W unit :=
  fun st => (Ok tt, mkSt (f (world st)) (trace st)).

(** [randomDelay(min, max)] of utils.ts: a timer of random length. *)
Definition randomDelay {W} (min max : Z) : M W unit := emit (RandomDelay min max).

(** How often an event satisfying [p] occurs in a trace. *)
Definition count_events (p : Event -> bool) (t : list Event) : nat :=
  length (filter p t).

(** The parameter object of the scrape functions. *)
Record SearchRequest : Type := mkRequest {
  position : option string;
  req_location : string;
  offset : option Z;
  companyJobsUrl : option string;
  limit : option Z
}.

(** The number of iterations a counting loop has left: the measure of the
    loops below. *)
Definition steps_left (bound i : Z) : nat := Z.to_nat (bound - i).
Arguments steps_left : simpl never.

(** [n || d] for a possibly missing number: [undefined] and [0] are falsy. *)
Definition num_or (o : option Z) (d : Z) : Z :=
  match o with
  | Some n => if n =? 0 then d else n
  | None => d
  end.

(** ** scraper/custom-scraper.ts: [CustomLinkedInScraper] *)

Module CustomScraper.
Import JS Utils.

Record ScraperConfig : Type := mkScraperConfig {
  headless : option bool;
  slowMo : option Z;
  timeout : option Z;
  maxRetries : option Z;
  delayBetweenRequests : option Z
}.

(** The constructor: defaults overridden by the properties that are given. *)
Definition override {A} (given : option A) (default : A) : option A :=
  match given with
  | Some a => Some a
  | None => Some default
  end.

Definition new_config (config : ScraperConfig) : ScraperConfig :=
  {| headless := override (headless config) true;
     slowMo := override (slowMo config) 400;
     timeout := override (timeout config) 60000;
     maxRetries := override (maxRetries config) 3;
     delayBetweenRequests := override (delayBetweenRequests config) 2000 |}.

(** What the extraction reads from one [.base-search-card.job-search-card]
    element; [None] is a [null] attribute or a missing child element. *)
Record Card : Type := mkCard {
  data_entity_urn : option string;
  title_text : option string;
  company_text : option string;
  company_href : option string;
  image_src : option string;
  location_text : option string;
  date_text : option string;
  link_href : option string
}.

(** The calls the class makes on the browser. *)
Class Playwright (W : Type) : Type := {
  hasContext : W -> bool;
  launchPersistentContext : W -> Result unit * W;
  contextClose : W -> Result unit * W;
  dropContext : W -> W;
  newPage : W -> Result unit * W;
  addInitScript : W -> Result unit * W;
  goto : string -> W -> Result unit * W;
  pageTitle : W -> Result string * W;
  queryDismissButton : W -> Result bool * W;
  clickDismissButton : W -> Result unit * W;
  waitForTimeout : Z -> W -> Result unit * W;
  screenshot : string -> W -> Result unit * W;
  waitForSelector : W -> Result unit * W;
  scrollToBottom : W -> Result unit * W;
  countCards : W -> Result Z * W;
  queryCards : W -> Result (list Card) * W;
  pageClose : W -> Result unit * W
}.

(** The crash test of [scrapeJobs], written twice there. *)
Definition isCrashError (err : JsError) : bool :=
  opt_includes (err_message err) "Target page" ||
  opt_includes (err_message err) "browser" ||
  opt_includes (err_message err) "context has been closed" ||
  opt_includes (err_message err) "TargetClosedError" ||
  opt_includes (err_message err) "Protocol error" ||
  opt_includes (err_message err) "Connection closed" ||
  opt_is (err_name err) "TargetClosedError" ||
  opt_is (err_name err) "ProtocolError".

Definition to_lower (c : ascii) : ascii :=
  let n := N_of_ascii c in
  if ((65 <=? n) && (n <=? 90))%N then ascii_of_N (n + 32) else c.

Fixpoint lower (s : string) : string :=
  match s with
  | EmptyString => EmptyString
  | String c r => String (to_lower c) (lower r)
  end.

Definition is_line_terminator (c : ascii) : bool :=
  let n := N_of_ascii c in ((n =? 10) || (n =? 13))%N.

(** A match of [sign.?in] at the start of [s], [s] in lower case. *)
Definition sign_in_here (s : string) : bool :=
  match s with
  | String "s" (String "i" (String "g" (String "n" r))) =>
      prefix "in" r ||
      match r with
      | String c r' => negb (is_line_terminator c) && prefix "in" r'
      | EmptyString => false
      end
  | _ => false
  end.

Fixpoint sign_in_somewhere (s : string) : bool :=
  sign_in_here s ||
  match s with
  | EmptyString => false
  | String _ r => sign_in_somewhere r
  end.

(** [/sign.?in|login/i.test(title)]. *)
Definition login_wall (title : string) : bool :=
  let t := lower title in
  sign_in_somewhere t || includes t "login".

Definition buildSearchUrl (params : SearchRequest) : string :=
  let base := "https://www.linkedin.com/jobs/search" in
  let sp := [] in
  let sp := if truthy (position params)
            then sp_append "keywords" (or_else (position params) "") sp else sp in
  let sp := sp_append "location" (req_location params) sp in
  let sp := match offset params with
            | Some o => if negb (o =? 0) && (o >? 1)
                        then sp_append "start" (toString (num_mul (num_sub o 1) 25)) sp
                        else sp
            | None => sp
            end in
  let sp := sp_append "f_TPR" "r604800" sp in
  let sp := sp_append "f_JT" "F" sp in
  let sp := sp_append "f_WT" "2,1,3" sp in
  or_else (companyJobsUrl params) (base ++ "?" ++ serialize_urlencoded sp).

(** One element of the [forEach] of [extractJobsFromPage]: [jobs] and
    [seenIds] are the array and the set the callback updates. *)
Definition extract_card (acc : list JobData * list string) (el : Card)
  : list JobData * list string :=
  let '(jobs, seenIds) := acc in
  let entityUrn := or_else (data_entity_urn el) "" in
  let id := remove_first entityUrn "urn:li:jobPosting:" in
  if (id =? "")%string || existsb (String.eqb id) seenIds then (jobs, seenIds)
  else
    let seenIds := id :: seenIds in
    let rawLink := or_else (link_href el) "" in
    let link :=
      if startsWith rawLink "http" then rawLink
      else "https://www.linkedin.com" ++ rawLink in
    let job :=
      {| Utils.id := Some id;
         Utils.title := Some (or_else (opt_trim (title_text el)) "");
         company := Some (or_else (opt_trim (company_text el)) "");
         companyLink := Some (or_else (company_href el) "");
         companyImgLink := Some (or_else (image_src el) "");
         location := Some (or_else (opt_trim (location_text el)) "");
         date := Some (or_else (opt_trim (date_text el)) "");
         Utils.link := Some link;
         applyLink := Some "";
         description := Some "";
         salary := Some "";
         jobType := Some "";
         experienceLevel := Some "" |} in
    if truthy (Utils.title job) then ((jobs ++ [job])%list, seenIds)
    else (jobs, seenIds).

(** The function evaluated in the page by [extractJobsFromPage]. *)
Definition extract_jobs (els : list Card) : list JobData :=
  fst (fold_left extract_card els ([], [])).

Section Scraper.
Context {W : Type} `{Playwright W}.
Variable config : ScraperConfig.

Definition close : M W unit :=
  fun st =>
    if hasContext (world st) then
      (quietly (call ContextClose contextClose) ;; update dropContext) st
    else (Ok tt, st).

Definition initialize : M W unit :=
  close ;;
  call LaunchPersistentContext launchPersistentContext.

Definition ensureBrowserReady : M W unit :=
  fun st =>
    if negb (hasContext (world st)) then initialize st else (Ok tt, st).

Definition setupStealth : M W unit := call AddInitScript addInitScript.

Definition extractJobsFromPage : M W (list JobData) :=
  els <- call QueryCards queryCards ;;
  ret (extract_jobs els).

(** The [for] loop of [loadMoreJobs], from index [i] on. *)
Equations? scroll_loop (currentJobCount : Z) (i : Z) (newJobCount : Z)
    (st : St W) : Result bool * St W by wf (steps_left 5 i) lt :=
  scroll_loop currentJobCount i newJobCount st with Z_lt_dec i 5 => {
    | right _ => (Ok (newJobCount >? currentJobCount), st)
    | left _ =>
        match (call ScrollToBottom scrollToBottom ;;
               call (WaitForTimeout 3000) (waitForTimeout 3000) ;;
               call CountCards countCards) st with
        | (Throw e, st1) => (Throw e, st1)
        | (Ok newJobCount, st1) =>
            if newJobCount >? currentJobCount then (Ok true, st1)
            else if i =? 5 - 1 then (Ok false, st1)
            else
              match call (WaitForTimeout 2000) (waitForTimeout 2000) st1 with
              | (Throw e, st2) => (Throw e, st2)
              | (Ok _, st2) => scroll_loop currentJobCount (i + 1) newJobCount st2
              end
        end }.
Proof. unfold steps_left. lia. Qed.

Definition loadMoreJobs : M W bool :=
  catch
    (currentJobCount <- call CountCards countCards ;;
     scroll_loop currentJobCount 0 currentJobCount)
    (fun _ => ret false).

(** What one turn of the [while] loop of [scrapeJobs] ends with. *)
Inductive Turn : Type :=
| Break (jobs : list JobData)
| Continue (jobs : list JobData).

(** The [catch (innerErr)] of the loop; [jobs] is the array as the [try]
    block left it. *)
Definition on_inner_error (jobs : list JobData) (innerErr : JsError) : M W Turn :=
  if isCrashError innerErr then throw innerErr else ret (Break jobs).

(** The body of the [while] loop of [scrapeJobs]: a [try] block whose
    [catch] sees the array with what the block pushed before it threw. *)
Definition scrape_turn (targetLimit : Z) (jobs : list JobData) : M W Turn :=
  fun st =>
    match extractJobsFromPage st with
    | (Throw innerErr, st1) => on_inner_error jobs innerErr st1
    | (Ok newJobs, st1) =>
        let jobs := (jobs ++ newJobs)%list in
        catch
          (if Z.of_nat (length jobs) >=? targetLimit then ret (Break jobs)
           else
             hasMoreJobs <- loadMoreJobs ;;
             if negb hasMoreJobs then ret (Break jobs)
             else
               randomDelay (num_or (delayBetweenRequests config) 2000)
                           (num_or (delayBetweenRequests config) 2000 * 2) ;;
               ret (Continue jobs))
          (on_inner_error jobs) st1
    end.

(** The [while] loop of [scrapeJobs]. *)
Equations? scrape_loop (targetLimit : Z) (jobs : list JobData)
    (scrollAttempts : Z) (st : St W)
    : Result (list JobData) * St W by wf (steps_left 20 scrollAttempts) lt :=
  scrape_loop targetLimit jobs scrollAttempts st with Z_lt_dec scrollAttempts 20 => {
    | right _ => (Ok jobs, st)
    | left _ =>
        if Z.of_nat (length jobs) <? targetLimit then
          match scrape_turn targetLimit jobs st with
          | (Throw e, st1) => (Throw e, st1)
          | (Ok (Break jobs), st1) => (Ok jobs, st1)
          | (Ok (Continue jobs), st1) =>
              scrape_loop targetLimit jobs (scrollAttempts + 1) st1
          end
        else (Ok jobs, st) }.
Proof. unfold steps_left. lia. Qed.

(** The sign-in modal: [try { ... } catch (error) { }]. *)
Definition dismiss_modal : M W unit :=
  quietly
    (dismissButton <- call QueryDismissButton queryDismissButton ;;
     if (dismissButton : bool) then
       call ClickDismissButton clickDismissButton ;;
       call (WaitForTimeout 1000) (waitForTimeout 1000)
     else ret tt).

(** The [try] block of [scrapeJobs] after [newPage]. *)
Definition scrape_page (params : SearchRequest) : M W (list JobData) :=
  setupStealth ;;
  let searchUrl := buildSearchUrl params in
  call (Goto searchUrl) (goto searchUrl) ;;
  _ <- call PageTitle pageTitle ;;
  dismiss_modal ;;
  title <- call PageTitle pageTitle ;;
  if login_wall title then
    call (Screenshot "linkedin-loginwall.png") (screenshot "linkedin-loginwall.png") ;;
    ret []
  else
    quietly (call WaitForSelector waitForSelector) ;;
    call ScrollToBottom scrollToBottom ;;
    call (WaitForTimeout 3000) (waitForTimeout 3000) ;;
    jobCount <- call CountCards countCards ;;
    (if jobCount =? 0
     then call (Screenshot "linkedin-no-jobs.png") (screenshot "linkedin-no-jobs.png")
     else ret tt) ;;
    let targetLimit := num_or (limit params) 100 in
    jobs <- scrape_loop targetLimit [] 0 ;;
    ret (slice0 jobs targetLimit).

(** The outer [catch (err)] of [scrapeJobs]. *)
Definition on_error (err : JsError) : M W (list JobData) :=
  (if isCrashError err then update dropContext ;; initialize else ret tt) ;;
  throw err.

(** [page.close().catch(() => {})]. *)
Definition close_page (st : St W) : St W :=
  snd (quietly (call PageClose pageClose) st).

Definition scrapeJobs (params : SearchRequest) : M W (list JobData) :=
  ensureBrowserReady ;;
  fun st =>
    match call NewPage newPage st with
    | (Throw err, st1) => on_error err st1
    | (Ok _, st1) => ensuring (catch (scrape_page params) on_error) close_page st1
    end.

End Scraper.
End CustomScraper.

(** ** scraper/enhanced-scraper.ts: [EnhancedLinkedInScraper] *)

Module EnhancedScraper.
Import JS Utils.
Import CustomScraper(ScraperConfig, mkScraperConfig, override).

Record EnhancedScraperConfig : Type := mkEnhancedConfig {
  base : ScraperConfig;
  enableRateLimiting : option bool;
  maxConcurrentRequests : option Z;
  requestDelay : option Z;
  enableJobDescriptionScraping : option bool;
  enableRetryMechanism : option bool
}.

(** [this.config] as the constructor builds it. *)
Definition new_config (config : EnhancedScraperConfig) : EnhancedScraperConfig :=
  {| base :=
       {| CustomScraper.headless := CustomScraper.headless (base config);
          CustomScraper.slowMo := CustomScraper.slowMo (base config);
          CustomScraper.timeout := CustomScraper.timeout (base config);
          CustomScraper.maxRetries := override (CustomScraper.maxRetries (base config)) 3;
          CustomScraper.delayBetweenRequests :=
            CustomScraper.delayBetweenRequests (base config) |};
     enableRateLimiting := override (enableRateLimiting config) true;
     maxConcurrentRequests := override (maxConcurrentRequests config) 3;
     requestDelay := override (requestDelay config) 2000;
     enableJobDescriptionScraping := override (enableJobDescriptionScraping config) false;
     enableRetryMechanism := override (enableRetryMechanism config) true |}.

(** The object held in [this.scraper], a [CustomLinkedInScraper]: its
    [close] catches what closing the context throws, so it returns. *)
Class ScraperHandle (W : Type) : Type := {
  scraper_new : ScraperConfig -> W -> W;
  scraper_initialize : W -> Result unit * W;
  scraper_scrapeJobs : SearchRequest -> W -> Result (list JobData) * W;
  scraper_close : W -> W
}.

Section Enhanced.
Context {W : Type} `{ScraperHandle W}.

(** [this.config]. *)
Variable config : EnhancedScraperConfig.

Definition initialize : M W unit := call ScraperInitialize scraper_initialize.

Definition close : M W unit :=
  call ScraperClose (fun w => (Ok tt, scraper_close w)).

(** The [try] block of [scrapeJobsWithRetry]. *)
Definition attempt_once (params : SearchRequest) (attempt : Z) : M W (list JobData) :=
  (if attempt >? 0 then
     close ;;
     emit (Sleep 2000) ;;
     update (scraper_new (base config)) ;;
     initialize
   else ret tt) ;;
  jobs <- call ScraperScrapeJobs (scraper_scrapeJobs params) ;;
  let validJobs := map sanitizeJobData (filter isValidJobData jobs) in
  ret validJobs.

(** The [while] loop of [scrapeJobsWithRetry]: [Ok None] when the loop
    condition fails, [Ok (Some jobs)] at the [return] inside the loop. *)
Equations? retry_loop (params : SearchRequest) (maxRetries : Z) (attempt : Z)
    (st : St W)
    : Result (option (list JobData)) * St W by wf (steps_left (maxRetries + 1) attempt) lt :=
  retry_loop params maxRetries attempt st with Z_le_dec attempt maxRetries => {
    | right _ => (Ok None, st)
    | left _ =>
        match attempt_once params attempt st with
        | (Ok validJobs, st1) => (Ok (Some validJobs), st1)
        | (Throw error, st1) =>
            let st2 := if isRateLimited error
                       then snd (randomDelay 5000 10000 st1) else st1 in
            if negb (shouldRetry error attempt maxRetries) then (Throw error, st2)
            else
              let attempt := attempt + 1 in
              let st3 := if attempt <=? maxRetries
                         then snd (emit (Backoff attempt) st2) else st2 in
              retry_loop params maxRetries attempt st3
        end }.
Proof. unfold steps_left. lia. Qed.

Definition scrapeJobsWithRetry (params : SearchRequest) : M W (list JobData) :=
  let maxRetries := num_or (CustomScraper.maxRetries (base config)) 3 in
  r <- retry_loop params maxRetries 0 ;;
  match r with
  | Some validJobs => ret validJobs
  | None =>
      throw (Error ("Failed to scrape jobs after " ++ toString (maxRetries + 1)
                    ++ " attempts"))
  end.

(** The delay between two searches of [batchScrapeJobs]; it is the last
    statement of the [try] block. *)
Definition search_delay : M W unit :=
  quietly
    (match requestDelay config with
     | Some d => if d =? 0 then ret tt else randomDelay d (d + 2000)
     | None => ret tt
     end).

(** The [for ... of] loop of [batchScrapeJobs]; [allJobs] is the array the
    loop pushes to. *)
Fixpoint batch_loop (jobParams : list SearchRequest) (allJobs : list JobData)
  : M W (list JobData) :=
  match jobParams with
  | [] => ret allJobs
  | params :: rest =>
      fun st =>
        match scrapeJobsWithRetry params st with
        | (Ok jobs, st1) =>
            let allJobs := (allJobs ++ jobs)%list in
            (search_delay ;; batch_loop rest allJobs) st1
        | (Throw error, st1) => batch_loop rest allJobs st1
        end
  end.

Definition batchScrapeJobs (jobParams : list SearchRequest) : M W (list JobData) :=
  batch_loop jobParams [].

End Enhanced.

(** [createEnhancedScraper(config)]. *)
Definition createEnhancedScraper {W : Type} `{ScraperHandle W}
    (config : EnhancedScraperConfig) : M W EnhancedScraperConfig :=
  update (scraper_new (base config)) ;;
  initialize ;;
  ret (new_config config).

End EnhancedScraper.

(** ** scraper/index.ts *)

Module Index.
Import JS Utils EnhancedScraper.

Record SimpleJobData : Type := mkSimpleJob {
  s_id : string;
  s_title : string;
  s_company : string;
  s_location : string;
  s_date : string;
  s_link : string
}.

(** The records [runJobScraper] returns. *)
Record LegacyJob : Type := mkLegacyJob {
  l_location : option string;
  l_id : option string;
  l_title : option string;
  l_company : string;
  l_companyLink : string;
  l_companyImgLink : string;
  l_place : option string;
  l_date : option string;
  l_link : option string;
  l_applyLink : string
}.

(** The simple scraper of simple-scraper.ts, seen from [runJobScraper]. *)
Class SimpleScraper (W : Type) : Type := {
  simple_create : W -> Result unit * W;
  simple_scrapeJobs : option string -> string -> Z -> W -> Result (list SimpleJobData) * W;
  simple_close : W -> Result unit * W
}.

Definition legacy_of_job (job : JobData) : LegacyJob :=
  {| l_location := location job;
     l_id := id job;
     l_title := title job;
     l_company := or_else (company job) "N/A";
     l_companyLink := or_else (companyLink job) "N/A";
     l_companyImgLink := or_else (companyImgLink job) "N/A";
     l_place := location job;
     l_date := date job;
     l_link := link job;
     l_applyLink := or_else (applyLink job) "N/A" |}.

Definition legacy_of_simple (job : SimpleJobData) : LegacyJob :=
  {| l_location := Some (s_location job);
     l_id := Some (s_id job);
     l_title := Some (s_title job);
     l_company := or_else (Some (s_company job)) "N/A";
     l_companyLink := "N/A";
     l_companyImgLink := "N/A";
     l_place := Some (s_location job);
     l_date := Some (s_date job);
     l_link := Some (s_link job);
     l_applyLink := "N/A" |}.

(** The configuration [runJobScraper] creates its scraper with. *)
Definition legacy_config : EnhancedScraperConfig :=
  {| base := CustomScraper.mkScraperConfig (Some true) (Some 500) (Some 30000) (Some 2) None;
     enableRateLimiting := Some true;
     maxConcurrentRequests := Some 2;
     requestDelay := Some 1000;
     enableJobDescriptionScraping := Some false;
     enableRetryMechanism := Some true |}.

Section RunJobScraper.
Context {W : Type} `{ScraperHandle W} `{SimpleScraper W}.

(** The fallback: the inner [try] block of the [catch (error)]. *)
Definition fallback (position : option string) (location : string)
  : M W (list LegacyJob) :=
  call CreateSimpleScraper simple_create ;;
  simpleJobs <- call SimpleScrapeJobs (simple_scrapeJobs position location 100) ;;
  let fallbackJobs := map legacy_of_simple simpleJobs in
  call SimpleClose simple_close ;;
  ret fallbackJobs.

Definition runJobScraper (position : option string) (location : string)
    (offset : option Z) (companyJobsUrl : option string) : M W (list LegacyJob) :=
  scraper <- createEnhancedScraper legacy_config ;;
  ensuring
    (catch
       (jobs <- scrapeJobsWithRetry scraper
                  (mkRequest position location offset companyJobsUrl (Some 100)) ;;
        let legacyJobs := map legacy_of_job jobs in
        ret legacyJobs)
       (fun error =>
          catch (fallback position location)
                (fun fallbackError => throw error)))
    (fun st => snd (EnhancedScraper.close st)).

End RunJobScraper.

(** The configuration [runBatchJobScraper] creates its scraper with. *)
Definition batch_config : EnhancedScraperConfig :=
  {| base := CustomScraper.mkScraperConfig (Some true) (Some 1000) (Some 600000) (Some 3) None;
     enableRateLimiting := Some true;
     maxConcurrentRequests := Some 1;
     requestDelay := Some 3000;
     enableJobDescriptionScraping := Some false;
     enableRetryMechanism := Some true |}.

Section RunBatchJobScraper.
Context {W : Type} `{ScraperHandle W}.

Definition runBatchJobScraper (searchParams : list SearchRequest)
  : M W (list JobData) :=
  scraper <- createEnhancedScraper batch_config ;;
  ensuring
    (catch
       (allJobs <- batchScrapeJobs scraper searchParams ;;
        ret allJobs)
       (fun error => throw error))
    (fun st => snd (EnhancedScraper.close st)).

End RunBatchJobScraper.
End Index.

(** ** scraper/simple-scraper.ts: [SimpleLinkedInScraper] *)

Module SimpleScraper.
Import JS Index.

(** The title link of a card: its text and its [href]. *)
Record TitleLink : Type := mkTitleLink {
  link_text : option string;
  link_target : option string
}.

(** What the extraction reads from one card; [None] is a [null] attribute
    or a missing child element. [random_id] is what
    [Math.random().toString(36).substr(2, 9)] gives when it is evaluated for
    the card. *)
Record Card : Type := mkCard {
  data_job_id : option string;
  random_id : string;
  titleEl : option TitleLink;
  company_text : option string;
  location_text : option string;
  date_text : option string
}.

(** The calls the class makes on the browser. *)
Class Browser (W : Type) : Type := {
  hasBrowser : W -> bool;
  newPage : W -> Result unit * W;
  goto : string -> W -> Result unit * W;
  waitForTimeout : Z -> W -> Result unit * W;
  queryCards : W -> Result (list Card) * W;
  pageClose : W -> Result unit * W
}.

Definition buildSearchUrl (position : option string) (location : string) : string :=
  let baseUrl := "https://www.linkedin.com/jobs/search" in
  let searchParams := [] in
  let searchParams :=
    if truthy position
    then sp_append "keywords" (or_else position "") searchParams
    else searchParams in
  let searchParams := sp_append "location" location searchParams in
  let searchParams := sp_append "f_TPR" "r604800" searchParams in
  let searchParams := sp_append "f_JT" "F" searchParams in
  baseUrl ++ "?" ++ serialize_urlencoded searchParams.

(** One element of the [forEach] of the extraction; [jobs] is the array the
    callback pushes to. *)
Definition extract_card (jobs : list SimpleJobData) (element : Card)
  : list SimpleJobData :=
  match titleEl element with
  | Some titleEl =>
      let job :=
        {| s_id := or_else (data_job_id element) (random_id element);
           s_title := or_else (opt_trim (link_text titleEl)) "";
           s_company := or_else (opt_trim (company_text element)) "";
           s_location := or_else (opt_trim (location_text element)) "";
           s_date := or_else (opt_trim (date_text element)) "";
           s_link := or_else (link_target titleEl) "" |} in
      if negb (s_title job =? "")%string && negb (s_company job =? "")%string
      then (jobs ++ [job])%list
      else jobs
  | None => jobs
  end.

(** The function evaluated in the page. *)
Definition extract_jobs (jobElements : list Card) : list SimpleJobData :=
  fold_left extract_card jobElements [].

Section Scraper.
Context {W : Type} `{Browser W}.

(** The [try] block of [scrapeJobs]. *)
Definition scrape_page (position : option string) (location : string)
    (limit : option Z) : M W (list SimpleJobData) :=
  let searchUrl := buildSearchUrl position location in
  call (Goto searchUrl) (goto searchUrl) ;;
  call (WaitForTimeout 3000) (waitForTimeout 3000) ;;
  jobElements <- call QueryCards queryCards ;;
  let jobs := extract_jobs jobElements in
  ret (slice0 jobs (num_or limit 100)).

Definition scrapeJobs (position : option string) (location : string)
    (limit : option Z) : M W (list SimpleJobData) :=
  fun st =>
    if negb (hasBrowser (world st))
    then (Throw (Error "Browser not initialized"), st)
    else
      (call NewPage newPage ;;
       ensuring
         (catch (scrape_page position location limit) (fun error => throw error))
         (fun st => snd (quietly (call PageClose pageClose) st))) st.

End Scraper.
End SimpleScraper.

(** ** scraper/authenticated-scraper.ts: the [start] parameter *)

Module AuthenticatedScraper.
Import JS.

Section StartParam.

(** The platform's URL parser on the part of a URL before its query: whether
    it is an absolute URL, and its resolution against
    ["https://www.linkedin.com"]. *)
Variable valid_base : string -> bool.
Variable resolve_base : string -> option string.

(** The [TypeError] of [new URL]. *)
Definition invalid_url : JsError := mkError (Some "TypeError") (Some "Invalid URL").

Definition getStartParam (url : string) : option Z :=
  match parse_url valid_base url with
  | Some u =>
      match sp_get "start" (searchParams u) with
      | None => None
      | Some s =>
          match parseInt s with
          | Int n => Some n
          | NaN | Infinity _ => None
          end
      end
  | None => None
  end.

Definition withStartParam (url : string) (startVal : Z) : Result string :=
  match parse_url valid_base url with
  | Some u =>
      Ok (href (with_searchParams u
                  (sp_set "start" (toString (Z.max 0 startVal)) (searchParams u))))
  | None =>
      match parse_url_relative resolve_base url with
      | Some u =>
          Ok (href (with_searchParams u
                      (sp_set "start" (toString (Z.max 0 startVal)) (searchParams u))))
      | None => Throw invalid_url
      end
  end.

(** [this.getStartParam(currentUrl) ?? 0]. *)
Definition current_start (currentUrl : string) : Z :=
  match getStartParam currentUrl with
  | Some n => n
  | None => 0
  end.

(** The URL of the next page, as the pagination loop of [scrapeJobs]
    computes it from the current one. *)
Definition next_page_url (currentUrl : string) (pageSize : Z) : Result string :=
  let currentStart := current_start currentUrl in
  let nextStart := num_add currentStart pageSize in
  withStartParam currentUrl nextStart.

End StartParam.

(** The parameter object of [scrapeJobs]. *)
Record ScrapeParams : Type := mkScrapeParams {
  position : option string;
  location : option string;
  offset : option Z;
  url : option string;
  companyJobsUrl : option string;
  pages : option Z;
  limit : option Z;
  pageSizeOverride : option Z;
  startPage : option Z
}.

(** [o ?? d]. *)
Definition nullish {A : Type} (o : option A) (d : A) : A :=
  match o with
  | Some a => a
  | None => d
  end.

Definition buildSearchUrl (position location : option string) (offset : option Z)
    (companyJobsUrl : option string) : string :=
  if truthy companyJobsUrl then or_else companyJobsUrl ""
  else
    let base := "https://www.linkedin.com/jobs/search-results" in
    let sp := [] in
    let sp := if truthy position
              then sp_append "keywords" (or_else position "") sp else sp in
    let sp := if truthy location
              then sp_append "location" (or_else location "") sp else sp in
    let sp := match offset with
              | Some o => if negb (o =? 0) && (o >? 1)
                          then sp_append "start" (toString (num_mul (num_sub o 1) 25)) sp
                          else sp
              | None => sp
              end in
    let sp := sp_append "f_TPR" "r604800" sp in
    let sp := sp_append "f_JT" "F" sp in
    let sp := sp_append "f_WT" "2,1,3" sp in
    base ++ "/?" ++ serialize_urlencoded sp.

(** One page added to [jobs] in the pagination loop of [scrapeJobs]. *)
Definition add_page (targetLimit : Z) (jobs newJobs : list Utils.JobData)
  : list Utils.JobData :=
  let remainingSlots := targetLimit - Z.of_nat (length jobs) in
  if remainingSlots >? 0 then
    let jobsToAdd := slice0 newJobs remainingSlots in
    (jobs ++ jobsToAdd)%list
  else jobs.

Section FirstPage.
Variable valid_base : string -> bool.
Variable resolve_base : string -> option string.

(** [params.url || params.companyJobsUrl || this.buildSearchUrl(...)]. *)
Definition base_url (params : ScrapeParams) : string :=
  if truthy (url params) then or_else (url params) ""
  else if truthy (companyJobsUrl params) then or_else (companyJobsUrl params) ""
  else buildSearchUrl (position params) (location params) (offset params) None.

(** The URL [scrapeJobs] navigates to first; [configPageSize] is
    [this.config.pageSize]. *)
Definition first_page_url (configPageSize : Z) (params : ScrapeParams)
  : Result string :=
  let baseUrl := base_url params in
  let pageSize := nullish (pageSizeOverride params) configPageSize in
  let startPage := nullish (startPage params) 1 in
  let initialStart := num_mul (num_sub startPage 1) pageSize in
  withStartParam valid_base resolve_base baseUrl initialStart.

End FirstPage.
End AuthenticatedScraper.

(** ** handlers/jobs: the records handed to the database

    [getScrapedJobsHandler] and [getScrapedJobsDebugHandler] filter what the
    scraper returned, after [normalizeJobData], down to the first record of
    each [job_id]. *)

Module Handlers.

Section UniqueJobs.

(** A normalized record and its [job_id]; [None] is [undefined]. *)
Variable Job : Type.
Variable job_id : Job -> option string.

(** [a === b] on possibly missing strings. *)
Definition strict_eq (a b : option string) : bool :=
  match a, b with
  | Some x, Some y => (x =? y)%string
  | None, None => true
  | _, _ => false
  end.

(** [self.findIndex(p)], the search being at [index]: [-1] when no element
    satisfies [p]. *)
Fixpoint findIndex_from (p : Job -> bool) (index : Z) (self : list Job) : Z :=
  match self with
  | [] => -1
  | j :: rest => if p j then index else findIndex_from p (index + 1) rest
  end.

Definition findIndex (p : Job -> bool) (self : list Job) : Z :=
  findIndex_from p 0 self.

(** [xs.filter((x, index) => keep x index)], the filter being at [index]. *)
Fixpoint filter_from (keep : Job -> Z -> bool) (index : Z) (xs : list Job)
  : list Job :=
  match xs with
  | [] => []
  | x :: rest =>
      if keep x index then x :: filter_from keep (index + 1) rest
      else filter_from keep (index + 1) rest
  end.

Definition uniqueJobs (normalizedFetchedJobResults : list Job) : list Job :=
  filter_from
    (fun job index =>
       index =? findIndex (fun j => strict_eq (job_id j) (job_id job))
                          normalizedFetchedJobResults)
    0 normalizedFetchedJobResults.

End UniqueJobs.

Arguments findIndex_from {Job} p index self.
Arguments findIndex {Job} p self.
Arguments filter_from {Job} keep index xs.
Arguments uniqueJobs {Job} job_id normalizedFetchedJobResults.

End Handlers.

(** ** Statements and scenarios

    The predicates the properties below are stated with, and the concrete
    inputs they are evaluated on. *)

Module Statements.
Import JS Utils.

(** The capped exponential as an integer. *)
Definition capped (attempt : Z) : Z := Z.min (1000 * 2 ^ attempt) 30000.

(** The string fields [sanitizeJobData] lists. *)
Definition listed_fields (job : JobData) : list (option string) :=
  [title job; company job; location job; date job; link job; companyLink job;
   companyImgLink job; applyLink job; description job; salary job;
   jobType job; experienceLevel job].

(** The fields [sanitizeJobData] trims, and those it takes as they are. *)
Definition trimmed_fields (job : JobData) : list (option string) :=
  [title job; company job; location job; date job; description job;
   salary job; jobType job; experienceLevel job].

Definition plain_fields (job : JobData) : list (option string) :=
  [link job; companyLink job; companyImgLink job; applyLink job].

(** [out] has the sentinel wherever [job] has nothing: in a trimmed field
    that is missing, empty or white space only, and in a plain field that is
    missing or empty. *)
Definition defaults_applied (job out : JobData) : Prop :=
  Forall2 (fun i o => trim_nonempty i = false -> o = Some "N/A")
          (trimmed_fields job) (trimmed_fields out) /\
  Forall2 (fun i o => truthy i = false -> o = Some "N/A")
          (plain_fields job) (plain_fields out).

(** What holds of a record the orchestrator returns. *)
Definition accepted (job : JobData) : Prop :=
  isValidJobData job = true /\
  trim_nonempty (title job) = true /\
  trim_nonempty (company job) = true /\
  truthy (id job) = true /\
  forallb truthy (listed_fields job) = true.

(** Whether [c] occurs in [s], and whether every character of [s]
    satisfies [p]. *)
Fixpoint has_char (c : ascii) (s : string) : bool :=
  match s with
  | EmptyString => false
  | String c' r => (c' =? c)%char || has_char c r
  end.

Fixpoint all_chars (p : ascii -> bool) (s : string) : bool :=
  match s with
  | EmptyString => true
  | String c r => p c && all_chars p r
  end.

(** The characters percent-encoding writes, and those the urlencoded
    serializer writes. *)
Definition encoded_char (c : ascii) : bool :=
  is_unreserved c || (c =? "+")%char || (c =? "%")%char.

Definition query_char (c : ascii) : bool :=
  is_unreserved c || (c =? "+")%char || (c =? "%")%char ||
  (c =? "=")%char || (c =? "&")%char.

(** The number a string of decimal digits stands for, with accumulator. *)
Fixpoint uint_value (d : Decimal.uint) (acc : N) : N :=
  match d with
  | Decimal.Nil => acc
  | Decimal.D0 d => uint_value d (10 * acc)
  | Decimal.D1 d => uint_value d (10 * acc + 1)
  | Decimal.D2 d => uint_value d (10 * acc + 2)
  | Decimal.D3 d => uint_value d (10 * acc + 3)
  | Decimal.D4 d => uint_value d (10 * acc + 4)
  | Decimal.D5 d => uint_value d (10 * acc + 5)
  | Decimal.D6 d => uint_value d (10 * acc + 6)
  | Decimal.D7 d => uint_value d (10 * acc + 7)
  | Decimal.D8 d => uint_value d (10 * acc + 8)
  | Decimal.D9 d => uint_value d (10 * acc + 9)
  end%N.

(** The invariant of the [forEach] of [extractJobsFromPage]: the ids pushed
    are distinct and all in [seenIds]. *)
Definition distinct_seen (acc : list JobData * list string) : Prop :=
  NoDup (map Utils.id (fst acc)) /\
  forall job, In job (fst acc) -> exists i, Utils.id job = Some i /\ In i (snd acc).

(** The signatures [shouldRetry] accepts while the budget lasts. *)
Definition retryable_signature (error : JsError) : bool :=
  isRateLimited error ||
  opt_includes (err_message error) "timeout" ||
  opt_includes (err_message error) "network" ||
  opt_includes (err_message error) "502" ||
  opt_includes (err_message error) "503" ||
  opt_includes (err_message error) "Target page" ||
  opt_includes (err_message error) "browser" ||
  opt_includes (err_message error) "context has been closed" ||
  opt_includes (err_message error) "TargetClosedError" ||
  opt_includes (err_message error) "Protocol error" ||
  opt_includes (err_message error) "Connection closed" ||
  opt_is (err_name error) "TargetClosedError" ||
  opt_is (err_name error) "ProtocolError".

(** The error the orchestrator ends with once its loop is left. *)
Definition exhausted (maxRetries : Z) : JsError :=
  Error ("Failed to scrape jobs after " ++ toString (maxRetries + 1) ++ " attempts").

(** Events by kind. *)
Definition is_scrape (ev : Event) : bool :=
  match ev with
  | ScraperScrapeJobs => true
  | _ => false
  end.

Definition is_fallback (ev : Event) : bool :=
  match ev with
  | CreateSimpleScraper => true
  | _ => false
  end.

Definition is_simple_scrape (ev : Event) : bool :=
  match ev with
  | SimpleScrapeJobs => true
  | _ => false
  end.

Definition is_scroll (ev : Event) : bool :=
  match ev with
  | ScrollToBottom => true
  | _ => false
  end.

Definition is_extract (ev : Event) : bool :=
  match ev with
  | QueryCards => true
  | _ => false
  end.

(** [m] leaves at most [k] more events of the kind [p] in the trace,
    whether it returns or throws. *)
Definition adds {W A : Type} (p : Event -> bool) (k : nat) (m : M W A) : Prop :=
  forall st,
    (count_events p (trace (snd (m st))) <= count_events p (trace st) + k)%nat.

(** The id the extraction reads from a card. *)
Definition card_id (el : CustomScraper.Card) : string :=
  remove_first (or_else (CustomScraper.data_entity_urn el) "") "urn:li:jobPosting:".

(** A text that is there and has no white space at either end. *)
Definition trimmed (o : option string) : Prop :=
  match o with
  | Some s => trim s = s
  | None => False
  end.

(** What holds of a record the extraction pushes: its id is not empty, its
    title is not empty and trimmed, its company is trimmed, and its link
    starts with ["http"]. *)
Definition extracted (job : JobData) : Prop :=
  truthy (Utils.id job) = true /\
  truthy (Utils.title job) = true /\
  trimmed (Utils.title job) /\
  trimmed (company job) /\
  match Utils.link job with
  | Some l => startsWith l "http" = true
  | None => False
  end.

(** The name-value pairs a reader of [url] finds in its query. *)
Definition query_of (url : string) : list (string * string) :=
  match split_url url with
  | (_, Some q, _) => parse_urlencoded q
  | (_, None, _) => []
  end.

(** The pair [name = value] when [value] is given and not empty. *)
Definition pair_if_given (name : string) (value : option string)
  : list (string * string) :=
  if truthy value then [(name, or_else value "")] else [].

(** The [start] pair of a search URL: there from page 2 on. *)
Definition start_pair (offset : option Z) : list (string * string) :=
  match offset with
  | Some o => if o >? 1 then [("start", toString ((o - 1) * 25))] else []
  | None => []
  end.

(** The filters every search URL carries. *)
Definition fixed_filters : list (string * string) :=
  [("f_TPR", "r604800"); ("f_JT", "F"); ("f_WT", "2,1,3")].

(** The records of [jobs] whose [job_id] is not that of a record before
    them, [seen] being the ids of the records before [jobs]. *)
Fixpoint first_of_each_id {Job : Type} (job_id : Job -> option string)
    (seen : list (option string)) (jobs : list Job) : list Job :=
  match jobs with
  | [] => []
  | job :: rest =>
      if existsb (Handlers.strict_eq (job_id job)) seen
      then first_of_each_id job_id (seen ++ [job_id job]) rest
      else job :: first_of_each_id job_id (seen ++ [job_id job]) rest
  end.

Section Batch.
Import EnhancedScraper.
Context {W : Type} `{ScraperHandle W}.
Variable config : EnhancedScraperConfig.

(** What each request of a batch ends with, in the order of the requests,
    each one run in the state the ones before it left. *)
Fixpoint request_outcomes (jobParams : list SearchRequest) (st : St W)
  : list (Result (list JobData)) :=
  match jobParams with
  | [] => []
  | params :: rest =>
      match scrapeJobsWithRetry config params st with
      | (Ok jobs, st1) =>
          Ok jobs :: request_outcomes rest (snd (search_delay config st1))
      | (Throw e, st1) => Throw e :: request_outcomes rest st1
      end
  end.

(** The records of a request: none when it failed. *)
Definition records_of (r : Result (list JobData)) : list JobData :=
  match r with
  | Ok jobs => jobs
  | Throw _ => []
  end.

End Batch.

End Statements.

Module Scenarios.
Import JS Utils EnhancedScraper Index.

(** A world for the orchestrator: what a scrape of a location ends with, and
    what the simple scraper finds. Initialising and closing succeed. *)
Record Oracle : Type := mkOracle {
  primary : string -> Result (list JobData);
  simple : Result (list SimpleJobData)
}.

#[export] Instance oracle_handle : ScraperHandle Oracle := {
  scraper_new _ w := w;
  scraper_initialize w := (Ok tt, w);
  scraper_scrapeJobs params w := (primary w (req_location params), w);
  scraper_close w := w
}.

#[export] Instance oracle_simple : SimpleScraper Oracle := {
  simple_create w := (Ok tt, w);
  simple_scrapeJobs _ _ _ w := (simple w, w);
  simple_close w := (Ok tt, w)
}.

Definition start {W : Type} (w : W) : St W := mkSt w [].

(** A second world for the orchestrator: the list of what the calls of
    [scrapeJobs] end with, one after the other; past its end they time out.
    Initialising and closing succeed. *)
#[export] Instance script_handle : ScraperHandle (list (Result (list JobData))) := {
  scraper_new _ w := w;
  scraper_initialize w := (Ok tt, w);
  scraper_scrapeJobs _ w :=
    match w with
    | r :: later => (r, later)
    | [] => (Throw (Error "page.goto: Timeout 30000ms exceeded."), [])
    end;
  scraper_close w := w
}.

(** The error of a call on a page whose browser went away: retryable. *)
Definition closed_error : JsError :=
  mkError (Some "TargetClosedError")
          (Some "page.goto: Target page, context or browser has been closed").

(** The error of a navigation to a host that does not resolve: not
    retryable. *)
Definition dns_error : JsError := Error "page.goto: net::ERR_NAME_NOT_RESOLVED".

Definition job (id title : string) : JobData :=
  mkJob (Some id) (Some title) (Some "Acme") (Some "") (Some "") (Some "Austin, TX")
        (Some "1 day ago") (Some ("https://www.linkedin.com/jobs/view/" ++ id))
        (Some "") (Some "") (Some "") (Some "") (Some "").

Definition request (location : string) (limit : option Z) : SearchRequest :=
  mkRequest None location None None limit.

(** [this.config] of an enhanced scraper created with [maxRetries: 2]. *)
Definition two_retries : EnhancedScraperConfig := new_config legacy_config.

(** Every scrape finds the browser closed, and so does the simple scraper. *)
Definition always_closed : Oracle :=
  mkOracle (fun _ => Throw closed_error) (Throw closed_error).

(** No scrape resolves the host; the simple scraper finds one job. *)
Definition always_unresolved : Oracle :=
  mkOracle (fun _ => Throw dns_error)
           (Ok [mkSimpleJob "9" "Developer" "Acme" "Austin, TX" "today" "/jobs/view/9"]).

(** The batch of the specification: the second location always fails. *)
Definition austin_jobs : list JobData := [job "1" "Engineer"; job "2" "Designer"].
Definition denver_jobs : list JobData := [job "3" "Analyst"].

Definition three_cities : Oracle :=
  mkOracle (fun location =>
              if (location =? "Austin, TX")%string then Ok austin_jobs
              else if (location =? "Denver, CO")%string then Ok denver_jobs
              else Throw closed_error)
           (Throw closed_error).

(** A record whose id is one space. *)
Definition blank_id_job : JobData :=
  mkJob (Some " ") (Some "Engineer") (Some "Acme") None None None None None
        None None None None None.

(** A world for the custom scraper: a results page with infinite scroll.
    Of the cards of [feed] the first [shown] are in the document; each scroll
    to the bottom adds as many cards as the head of [reveal] says. Every call
    succeeds. *)
Record FeedPage : Type := mkFeed {
  feed : list CustomScraper.Card;
  shown : nat;
  reveal : list nat;
  context : bool;
  page_title : string
}.

Definition scrolled (w : FeedPage) : FeedPage :=
  match reveal w with
  | [] => w
  | n :: later =>
      mkFeed (feed w) (Nat.min (shown w + n) (length (feed w))) later
             (context w) (page_title w)
  end.

Definition with_context (b : bool) (w : FeedPage) : FeedPage :=
  mkFeed (feed w) (shown w) (reveal w) b (page_title w).

#[export] Instance feed_playwright : CustomScraper.Playwright FeedPage := {
  CustomScraper.hasContext w := context w;
  CustomScraper.launchPersistentContext w := (Ok tt, with_context true w);
  CustomScraper.contextClose w := (Ok tt, w);
  CustomScraper.dropContext w := with_context false w;
  CustomScraper.newPage w := (Ok tt, w);
  CustomScraper.addInitScript w := (Ok tt, w);
  CustomScraper.goto _ w := (Ok tt, w);
  CustomScraper.pageTitle w := (Ok (page_title w), w);
  CustomScraper.queryDismissButton w := (Ok false, w);
  CustomScraper.clickDismissButton w := (Ok tt, w);
  CustomScraper.waitForTimeout _ w := (Ok tt, w);
  CustomScraper.screenshot _ w := (Ok tt, w);
  CustomScraper.waitForSelector w := (Ok tt, w);
  CustomScraper.scrollToBottom w := (Ok tt, scrolled w);
  CustomScraper.countCards w := (Ok (Z.of_nat (shown w)), w);
  CustomScraper.queryCards w := (Ok (firstn (shown w) (feed w)), w);
  CustomScraper.pageClose w := (Ok tt, w)
}.

Definition card (id title : string) : CustomScraper.Card :=
  CustomScraper.mkCard (Some ("urn:li:jobPosting:" ++ id)) (Some title)
    (Some "Acme") (Some "https://www.linkedin.com/company/acme")
    None (Some "Austin, TX") (Some "1 day ago") (Some ("/jobs/view/" ++ id)).

Definition seven_cards : list CustomScraper.Card :=
  [card "1" "Engineer"; card "2" "Designer"; card "3" "Analyst";
   card "4" "Manager"; card "5" "Writer"; card "6" "Tester"; card "7" "Planner"].

(** Five cards, and no scroll adds any. *)
Definition static_page : FeedPage :=
  mkFeed (firstn 5 seven_cards) 5 [] true "Jobs".

(** Five cards; the first scroll adds none, the second adds two. *)
Definition late_page : FeedPage :=
  mkFeed seven_cards 5 [0; 2]%nat true "Jobs".

(** Three cards, and two more with each of the next two scrolls. *)
Definition growing_page : FeedPage :=
  mkFeed seven_cards 3 [2; 2]%nat true "Jobs".

(** One card. *)
Definition single_page : FeedPage :=
  mkFeed (firstn 1 seven_cards) 1 [] true "Jobs".

(** A page for the simple scraper: its cards, and whether the browser was
    launched. Every call succeeds. *)
Record SimplePage : Type := mkSimplePage {
  simple_cards : list SimpleScraper.Card;
  launched : bool
}.

#[export] Instance simple_page_browser : SimpleScraper.Browser SimplePage := {
  SimpleScraper.hasBrowser w := launched w;
  SimpleScraper.newPage w := (Ok tt, w);
  SimpleScraper.goto _ w := (Ok tt, w);
  SimpleScraper.waitForTimeout _ w := (Ok tt, w);
  SimpleScraper.queryCards w := (Ok (simple_cards w), w);
  SimpleScraper.pageClose w := (Ok tt, w)
}.

Definition simple_card (id : option string) (title company : string)
  : SimpleScraper.Card :=
  SimpleScraper.mkCard id "k3x9q2m1z"
    (Some (SimpleScraper.mkTitleLink (Some title) (Some "/jobs/view/1")))
    (Some company) (Some "Austin, TX") None.

(** Three cards, the second without company, the third without id. *)
Definition simple_results : SimplePage :=
  mkSimplePage
    [simple_card (Some "11") " Engineer " "Acme";
     simple_card (Some "12") "Designer" "  ";
     simple_card None "Analyst" "Initech"]
    true.

(** The absolute URLs of the scenarios: those over https. *)
Definition https_base (base : string) : bool := prefix "https://" base.

(** No relative reference resolves. *)
Definition no_relative (base : string) : option string := None.

Definition search_url : string :=
  "https://www.linkedin.com/jobs/search/?keywords=dev&start=25#results".

Definition default_scraper : CustomScraper.ScraperConfig :=
  CustomScraper.new_config (CustomScraper.mkScraperConfig None None None None None).

End Scenarios.

(** * Properties *)

Import Statements Scenarios.

(** ** The backoff delay

    The delay is computed in doubles. Rounding to a double is monotone and
    leaves the integers up to [2^53] as they are; nothing else is used. *)

Section Backoff.
Import Utils.
Local Open Scope Q_scope.

Variable fl : Q -> Q.
Hypothesis fl_monotone : forall x y : Q, x <= y -> fl x <= fl y.
Hypothesis fl_exact : forall z : Z, (Z.abs z <= 2 ^ 53)%Z -> fl (inject_Z z) == inject_Z z.

Lemma fl_upper (x : Q) (z : Z) :
  (Z.abs z <= 2 ^ 53)%Z -> x <= inject_Z z -> fl x <= inject_Z z.
Proof.
  intros Hz Hx. rewrite <- (fl_exact z Hz). now apply fl_monotone.
Qed.

Lemma fl_lower (x : Q) (z : Z) :
  (Z.abs z <= 2 ^ 53)%Z -> inject_Z z <= x -> inject_Z z <= fl x.
Proof.
  intros Hz Hx. rewrite <- (fl_exact z Hz). now apply fl_monotone.
Qed.

Lemma capped_range (attempt : Z) : (0 <= attempt -> 1000 <= capped attempt <= 30000)%Z.
Proof.
  intros Hk. unfold capped.
  assert (1 <= 2 ^ attempt)%Z by (apply (Z.pow_le_mono_r 2 0 attempt); lia).
  lia.
Qed.

Lemma capped_spec (attempt : Z) :
  (0 <= attempt)%Z ->
  Qmin (1000 * 2 ^ attempt) 30000 == inject_Z (capped attempt).
Proof.
  intros Hk. unfold capped.
  assert (E : 1000 * 2 ^ attempt == inject_Z (1000 * 2 ^ attempt)).
  { rewrite inject_Z_mult, (Zpower_Qpower 2 attempt Hk). reflexivity. }
  rewrite E.
  destruct (Z.le_ge_cases (1000 * 2 ^ attempt) 30000) as [Hle | Hge].
  - rewrite Z.min_l by exact Hle. apply Q.min_l.
    change 30000 with (inject_Z 30000). now rewrite <- Zle_Qle.
  - rewrite Z.min_r by exact Hge. apply Q.min_r.
    change 30000 with (inject_Z 30000). now rewrite <- Zle_Qle.
Qed.

Lemma delay_exact (attempt : Z) :
  (0 <= attempt)%Z ->
  Qmin (fl (1000 * 2 ^ attempt)) 30000 == inject_Z (capped attempt).
Proof.
  intros Hk. unfold capped.
  assert (E : 1000 * 2 ^ attempt == inject_Z (1000 * 2 ^ attempt)).
  { rewrite inject_Z_mult, (Zpower_Qpower 2 attempt Hk). reflexivity. }
  destruct (Z.le_ge_cases (1000 * 2 ^ attempt) 30000) as [Hle | Hge].
  - rewrite Z.min_l by exact Hle.
    assert (Hpos : (0 <= 2 ^ attempt)%Z) by (apply Z.pow_nonneg; lia).
    assert (Hb : (Z.abs (1000 * 2 ^ attempt) <= 2 ^ 53)%Z) by lia.
    assert (F : fl (1000 * 2 ^ attempt) == inject_Z (1000 * 2 ^ attempt)).
    { apply Qle_antisym.
      - apply fl_upper; [exact Hb | rewrite E; apply Qle_refl].
      - apply fl_lower; [exact Hb | rewrite E; apply Qle_refl]. }
    rewrite F. apply Q.min_l.
    change 30000 with (inject_Z 30000). now rewrite <- Zle_Qle.
  - rewrite Z.min_r by exact Hge. apply Q.min_r.
    apply (fl_lower _ 30000); [lia |].
    rewrite E. rewrite <- Zle_Qle. lia.
Qed.

(** C4, as the code has it. For every attempt index [k >= 0] and every
    value [rnd] in [0, 1) of the random source, [calculateRetryDelay k] lies
    between [min(1000 * 2^k, 30000)] and that plus 1000 milliseconds, both
    ends included; it never exceeds 31000 ms. *)
Theorem calculateRetryDelay_bounds (attempt : Z) (rnd : Q) :
  (0 <= attempt)%Z -> 0 <= rnd -> rnd < 1 ->
  let lo := Qmin (1000 * 2 ^ attempt) 30000 in
  lo <= calculateRetryDelay fl attempt rnd /\
  calculateRetryDelay fl attempt rnd <= lo + 1000 /\
  calculateRetryDelay fl attempt rnd <= 31000.
Proof.
  intros Hk H0 H1 lo. unfold calculateRetryDelay.
  pose proof (capped_range attempt Hk) as Hr.
  pose proof (delay_exact attempt Hk) as Hd.
  pose proof (capped_spec attempt Hk) as Hs. fold lo in Hs.
  set (jitter := fl (rnd * 1000)).
  assert (J0 : 0 <= jitter).
  { apply (fl_lower _ 0); [lia |]. change (inject_Z 0) with 0. nra. }
  assert (J1 : jitter <= 1000).
  { apply (fl_upper _ 1000); [lia |]. change (inject_Z 1000) with 1000. nra. }
  assert (L : inject_Z (capped attempt) <= fl (Qmin (fl (1000 * 2 ^ attempt)) 30000 + jitter)).
  { apply fl_lower; [lia |]. rewrite Hd. lra. }
  assert (U : fl (Qmin (fl (1000 * 2 ^ attempt)) 30000 + jitter)
              <= inject_Z (capped attempt + 1000)).
  { apply fl_upper; [lia |]. rewrite Hd, inject_Z_plus.
    change (inject_Z 1000) with 1000. lra. }
  rewrite Hs. rewrite inject_Z_plus in U. change (inject_Z 1000) with 1000 in U.
  repeat split; try assumption.
  apply Qle_trans with (1 := U).
  assert (inject_Z (capped attempt) <= inject_Z 30000) by (rewrite <- Zle_Qle; lia).
  change (inject_Z 30000) with 30000 in *. lra.
Qed.
End Backoff.

Lemma calculateRetryDelay_bounds_witness :
  (8000 <= Utils.calculateRetryDelay (fun x => x) 3 (1 # 2) /\
   Utils.calculateRetryDelay (fun x => x) 3 (1 # 2) <= 9000 /\
   Utils.calculateRetryDelay (fun x => x) 3 (1 # 2) <= 31000)%Q.
Proof.
  pose proof (calculateRetryDelay_bounds (fun x => x)
                (fun x y Hxy => Hxy) (fun z _ => Qeq_refl (inject_Z z))
                3 (1 # 2)) as B.
  cbv zeta in B.
  assert (E : (Qmin (1000 * 2 ^ 3) 30000 == 8000)%Q) by reflexivity.
  rewrite E in B.
  destruct B as (B1 & B2 & B3); try lia; try (vm_compute; congruence).
  repeat split; assumption.
Defined.

(** C4 as stated fails at its open end: in double arithmetic the sum of the
    capped delay and the jitter is rounded, and with [Math.random()] near 1
    it is rounded up to the upper end. At attempt 3 and at attempt 5 (where
    the cap applies) a random value of [1 - 2^-52] gives exactly 9000 and
    31000; at attempt 0 a random value of [1 - 2^-53] gives exactly 2000. *)
Lemma calculateRetryDelay_upper_end_reached :
  (((0 <= 1 - (1 # 4503599627370496) /\ 1 - (1 # 4503599627370496) < 1) /\
   Utils.calculateRetryDelay JS.binary64 3 (1 - (1 # 4503599627370496))
   == Qmin (1000 * 2 ^ 3) 30000 + 1000 /\
   Utils.calculateRetryDelay JS.binary64 5 (1 - (1 # 4503599627370496))
   == Qmin (1000 * 2 ^ 5) 30000 + 1000 /\
   ~ Utils.calculateRetryDelay JS.binary64 3 (1 - (1 # 4503599627370496))
     < Qmin (1000 * 2 ^ 3) 30000 + 1000) /\
  ((0 <= 1 - (1 # 9007199254740992) /\ 1 - (1 # 9007199254740992) < 1) /\
   Utils.calculateRetryDelay JS.binary64 0 (1 - (1 # 9007199254740992))
   == Qmin (1000 * 2 ^ 0) 30000 + 1000))%Q.
Proof.
  repeat split; try (vm_compute; congruence).
Qed.

(** The rounding [binary64] and the doubles of the machine agree on the
    numbers of the counterexamples. *)
Section DoubleChecks.
Import JS Utils.
Import PrimFloat.
Local Open Scope Q_scope.

Example binary64_agrees_with_doubles :
  let rnd := (1 - 1 / 4503599627370496)%float in
  Q_of_float rnd == 1 - (1 # 4503599627370496) /\
  Q_of_float (rnd * 1000)%float == binary64 ((1 - (1 # 4503599627370496)) * 1000) /\
  Q_of_float (8000 + rnd * 1000)%float
  == calculateRetryDelay binary64 3 (1 - (1 # 4503599627370496)) /\
  Q_of_float (30000 + rnd * 1000)%float
  == calculateRetryDelay binary64 5 (1 - (1 # 4503599627370496)) /\
  Q_of_float (9007199254740992 + 25)%float == inject_Z (num_add (2 ^ 53) 25) /\
  Q_of_float ((9007199254740994 - 1) * 25)%float
  == inject_Z (num_mul (num_sub (2 ^ 53 + 2) 1) 25).
Proof. vm_compute. repeat split. Qed.

End DoubleChecks.

(** Without rounding the upper bound is strict. *)
Lemma calculateRetryDelay_below (attempt : Z) (rnd : Q) :
  (rnd < 1 ->
   Utils.calculateRetryDelay (fun x => x) attempt rnd
   < Qmin (1000 * 2 ^ attempt) 30000 + 1000)%Q.
Proof.
  intros H1. unfold Utils.calculateRetryDelay. lra.
Qed.


(** ** Trimming *)

Section Trim.
Import JS.

Lemma trimStart_head (s : string) :
  trimStart s = EmptyString \/
  exists c r, trimStart s = String c r /\ is_ws c = false.
Proof.
  induction s as [| c r IH]; simpl.
  - now left.
  - destruct (is_ws c) eqn:E; [exact IH | right; now exists c, r].
Qed.

Lemma trimEnd_head (c : ascii) (r : string) :
  is_ws c = false -> exists r', trimEnd (String c r) = String c r'.
Proof.
  intros E. simpl. rewrite E. destruct (trimEnd r); eauto.
Qed.

Lemma trimEnd_idempotent (s : string) : trimEnd (trimEnd s) = trimEnd s.
Proof.
  induction s as [| c r IH]; simpl; [reflexivity |].
  destruct (trimEnd r) as [| c' r'] eqn:E.
  - destruct (is_ws c) eqn:Ec; simpl; [reflexivity | now rewrite Ec].
  - simpl in IH |- *. destruct (trimEnd r') eqn:E'.
    + destruct (is_ws c') eqn:Ec'; [discriminate | now rewrite IH].
    + now rewrite IH.
Qed.

Lemma trimStart_fixed (c : ascii) (r : string) :
  is_ws c = false -> trimStart (String c r) = String c r.
Proof. intros E. simpl. now rewrite E. Qed.

Lemma trim_idempotent (s : string) : trim (trim s) = trim s.
Proof.
  unfold trim.
  destruct (trimStart_head s) as [E | (c & r & E & Hc)]; rewrite E.
  - reflexivity.
  - destruct (trimEnd_head c r Hc) as (r' & E').
    rewrite E', (trimStart_fixed c r' Hc), <- E'.
    apply trimEnd_idempotent.
Qed.

(** [x?.trim() || "N/A"] is a non-empty string that trimming leaves as
    it is. *)
Lemma trimmed_default_fixed (o : option string) :
  or_else (opt_trim (Some (or_else (opt_trim o) "N/A"))) "N/A"
  = or_else (opt_trim o) "N/A".
Proof.
  destruct o as [s |]; simpl; [| reflexivity].
  destruct (trim s =? "")%string eqn:E; [reflexivity |].
  rewrite trim_idempotent, E. reflexivity.
Qed.

Lemma default_fixed (o : option string) :
  or_else (Some (or_else o "N/A")) "N/A" = or_else o "N/A".
Proof.
  destruct o as [s |]; simpl; [| reflexivity].
  destruct (s =? "")%string eqn:E; simpl; [reflexivity | now rewrite E].
Qed.

Lemma or_else_nonempty (o : option string) (d : string) :
  d <> EmptyString -> or_else o d <> EmptyString.
Proof.
  intros Hd. destruct o as [s |]; simpl; [| exact Hd].
  destruct (s =? "")%string eqn:E; [exact Hd |].
  now apply String.eqb_neq.
Qed.

End Trim.

(** ** Normalisation *)

Section Normalisation.
Import JS Utils.

(** C9. [sanitizeJobData] is idempotent. *)
Theorem sanitizeJobData_idempotent (job : JobData) :
  sanitizeJobData (sanitizeJobData job) = sanitizeJobData job.
Proof.
  unfold sanitizeJobData.
  cbn [id title company companyLink companyImgLink location date link
       applyLink description salary jobType experienceLevel].
  rewrite !trimmed_default_fixed, !default_fixed. reflexivity.
Qed.

Lemma truthy_or_else (o : option string) :
  truthy (Some (or_else o "N/A")) = true.
Proof.
  simpl. apply negb_true_iff, String.eqb_neq, or_else_nonempty. discriminate.
Qed.

Lemma sanitized_trimmed (o : option string) :
  trim_nonempty (Some (or_else (opt_trim o) "N/A")) = true.
Proof.
  destruct o as [s |]; simpl; [| reflexivity].
  destruct (trim s =? "")%string eqn:E; [reflexivity |].
  rewrite trim_idempotent, E. reflexivity.
Qed.

Lemma sanitized_listed_fields (job : JobData) :
  forallb truthy (listed_fields (sanitizeJobData job)) = true.
Proof.
  unfold listed_fields, sanitizeJobData.
  cbn [id title company companyLink companyImgLink location date link
       applyLink description salary jobType experienceLevel forallb].
  rewrite !truthy_or_else. reflexivity.
Qed.

Lemma sanitized_accepted (job : JobData) :
  isValidJobData job = true -> accepted (sanitizeJobData job).
Proof.
  unfold isValidJobData. rewrite !andb_true_iff.
  intros ((((Ht & Hc) & Hi) & Htt) & Hct).
  assert (T : trim_nonempty (title (sanitizeJobData job)) = true)
    by apply sanitized_trimmed.
  assert (C : trim_nonempty (company (sanitizeJobData job)) = true)
    by apply sanitized_trimmed.
  unfold accepted, isValidJobData. rewrite T, C.
  cbn [sanitizeJobData id title company]. rewrite !truthy_or_else, Hi.
  repeat split; try reflexivity. apply sanitized_listed_fields.
Qed.

Lemma or_else_default (o : option string) :
  truthy o = false -> or_else o "N/A" = "N/A".
Proof.
  destruct o as [s |]; simpl; [| reflexivity].
  destruct (s =? "")%string; [reflexivity | discriminate].
Qed.

Lemma or_else_trim_default (o : option string) :
  trim_nonempty o = false -> or_else (opt_trim o) "N/A" = "N/A".
Proof.
  destruct o as [s |]; simpl; [| reflexivity].
  destruct (trim s =? "")%string; [reflexivity | discriminate].
Qed.

Lemma sanitized_defaults (job : JobData) :
  defaults_applied job (sanitizeJobData job).
Proof.
  unfold defaults_applied, trimmed_fields, plain_fields, sanitizeJobData.
  cbn [id title company companyLink companyImgLink location date link
       applyLink description salary jobType experienceLevel].
  split; repeat constructor; intros Hnone; f_equal;
    first [now apply or_else_trim_default | now apply or_else_default].
Qed.

(** C8, as the code has it. Every record of
    [jobs.filter(isValidJobData).map(sanitizeJobData)] passes
    [isValidJobData]: its title and its company are non-empty after
    trimming and its id is non-empty (the id is not trimmed); every string
    field that [sanitizeJobData] lists is non-empty; and such a field holds
    ["N/A"] where the record had it missing or empty, or, for the fields
    that are trimmed, white space only. *)
Theorem validated_jobs_accepted (raw : list JobData) :
  Forall accepted (map sanitizeJobData (filter isValidJobData raw)) /\
  Forall (fun job => defaults_applied job (sanitizeJobData job))
         (filter isValidJobData raw).
Proof.
  split.
  - apply Forall_map, Forall_forall. intros job Hin.
    apply filter_In in Hin. now apply sanitized_accepted.
  - apply Forall_forall. intros job _. apply sanitized_defaults.
Qed.

(** C8 as stated fails: a record whose id is one space passes validation,
    and its id is empty after trimming. *)
Lemma validated_jobs_blank_id :
  exists job,
    In job (map sanitizeJobData (filter isValidJobData [blank_id_job])) /\
    isValidJobData job = true /\
    trim_nonempty (id job) = false.
Proof.
  exists (sanitizeJobData blank_id_job). repeat split.
  left. reflexivity.
Qed.

(** An untrimmed field that holds white space only is kept. *)
Example sanitizeJobData_blank_link :
  link (sanitizeJobData
          (mkJob (Some "1") (Some "a") (Some "b") None None None None
                 (Some " ") None None None None None)) = Some " ".
Proof. reflexivity. Qed.

End Normalisation.

(** ** Running computations *)

Section Running.
Context {W : Type}.

Lemma bind_ok {A B} (m : M W A) (k : A -> M W B) st a st1 :
  m st = (Ok a, st1) -> bind m k st = k a st1.
Proof. intros E. unfold bind. now rewrite E. Qed.

Lemma bind_throw {A B} (m : M W A) (k : A -> M W B) st e st1 :
  m st = (Throw e, st1) -> bind m k st = (Throw e, st1).
Proof. intros E. unfold bind. now rewrite E. Qed.

Lemma bind_ok_inv {A B} (m : M W A) (k : A -> M W B) st b st' :
  bind m k st = (Ok b, st') ->
  exists a st1, m st = (Ok a, st1) /\ k a st1 = (Ok b, st').
Proof.
  unfold bind. destruct (m st) as [[a | e] st1]; [eauto | discriminate].
Qed.

Lemma catch_ok {A} (m : M W A) h st a st1 :
  m st = (Ok a, st1) -> catch m h st = (Ok a, st1).
Proof. intros E. unfold catch. now rewrite E. Qed.

Lemma catch_throw {A} (m : M W A) h st e st1 :
  m st = (Throw e, st1) -> catch m h st = h e st1.
Proof. intros E. unfold catch. now rewrite E. Qed.

Lemma count_events_app p (t1 t2 : list Event) :
  count_events p (t1 ++ t2) = (count_events p t1 + count_events p t2)%nat.
Proof. unfold count_events. now rewrite filter_app, length_app. Qed.

End Running.

Section RetryProofs.
Import JS Utils EnhancedScraper.
Context {W : Type} `{ScraperHandle W}.
Variable config : EnhancedScraperConfig.

Lemma retry_loop_unfold params maxRetries attempt (st : St W) :
  retry_loop config params maxRetries attempt st =
  if attempt <=? maxRetries then
    match attempt_once config params attempt st with
    | (Ok validJobs, st1) => (Ok (Some validJobs), st1)
    | (Throw error, st1) =>
        let st2 := if isRateLimited error
                   then snd (randomDelay 5000 10000 st1) else st1 in
        if negb (shouldRetry error attempt maxRetries) then (Throw error, st2)
        else
          let st3 := if attempt + 1 <=? maxRetries
                     then snd (emit (Backoff (attempt + 1)) st2) else st2 in
          retry_loop config params maxRetries (attempt + 1) st3
    end
  else (Ok None, st).
Proof.
  simp retry_loop.
  destruct (Z_le_dec attempt maxRetries) as [Hle | Hgt]; simpl.
  - apply Z.leb_le in Hle. rewrite Hle. reflexivity.
  - assert (E : (attempt <=? maxRetries) = false) by (apply Z.leb_gt; lia).
    rewrite E. reflexivity.
Qed.

Lemma shouldRetry_spec error attempt maxRetries :
  shouldRetry error attempt maxRetries =
  (attempt <? maxRetries) && retryable_signature error.
Proof.
  unfold shouldRetry, retryable_signature.
  destruct (Z.ltb_spec attempt maxRetries) as [Hlt | Hge].
  - assert (E : (attempt >=? maxRetries) = false) by lia. now rewrite E.
  - assert (E : (attempt >=? maxRetries) = true) by lia. now rewrite E.
Qed.

Lemma not_retryable_not_rate_limited error :
  retryable_signature error = false -> isRateLimited error = false.
Proof.
  unfold retryable_signature. rewrite !orb_false_iff. tauto.
Qed.

(** The first attempt is the call of [scrapeJobs] and nothing else. *)
Lemma attempt_once_first params (st : St W) :
  attempt_once config params 0 st =
  match scraper_scrapeJobs params (world st) with
  | (Ok jobs, w1) =>
      (Ok (map sanitizeJobData (filter isValidJobData jobs)),
       mkSt w1 (trace st ++ [ScraperScrapeJobs]))
  | (Throw e, w1) => (Throw e, mkSt w1 (trace st ++ [ScraperScrapeJobs]))
  end.
Proof.
  unfold attempt_once, bind, ret, call; simpl.
  destruct (scraper_scrapeJobs params (world st)) as [[jobs | e] w1]; reflexivity.
Qed.

(** C5. When the scrape of attempt 0 throws an error that matches no
    retryable signature, [scrapeJobsWithRetry] throws that error; the one
    call of [scrapeJobs] is all that happened: no further attempt, no
    timer. *)
Theorem non_retryable_error_raised_at_once
    (params : SearchRequest) (st : St W) (error : JsError) (w1 : W) :
  0 <= num_or (CustomScraper.maxRetries (base config)) 3 ->
  scraper_scrapeJobs params (world st) = (Throw error, w1) ->
  retryable_signature error = false ->
  scrapeJobsWithRetry config params st
  = (Throw error, mkSt w1 (trace st ++ [ScraperScrapeJobs])).
Proof.
  intros Hmax Hscrape Hsig.
  unfold scrapeJobsWithRetry.
  apply bind_throw.
  rewrite retry_loop_unfold, attempt_once_first, Hscrape.
  rewrite shouldRetry_spec, Hsig, (not_retryable_not_rate_limited _ Hsig).
  rewrite andb_false_r. simpl.
  destruct (Z.leb_spec 0 (num_or (CustomScraper.maxRetries (base config)) 3)); [reflexivity | lia].
Qed.

(** While the budget is not negative the loop is never left through its
    condition: it ends at the [return] or at the [throw] of its body. *)
Lemma retry_loop_never_falls_through params maxRetries (n : nat) :
  forall attempt (st : St W),
    steps_left (maxRetries + 1) attempt = n ->
    attempt <= maxRetries ->
    fst (retry_loop config params maxRetries attempt st) <> Ok None.
Proof.
  induction n as [n IH] using lt_wf_ind. intros attempt st Hn Hle.
  rewrite retry_loop_unfold.
  assert (E : (attempt <=? maxRetries) = true) by lia. rewrite E.
  destruct (attempt_once config params attempt st) as [[jobs | error] st1];
    [discriminate |].
  rewrite shouldRetry_spec. cbv zeta.
  destruct (Z.ltb_spec attempt maxRetries) as [Hlt | Hge]; simpl.
  - destruct (retryable_signature error); simpl; [| discriminate].
    eapply IH; [| reflexivity | lia].
    subst n. unfold steps_left. lia.
  - discriminate.
Qed.

(** So the error of exhaustion is thrown only under a negative budget;
    otherwise what [scrapeJobsWithRetry] throws was thrown inside the loop. *)
Lemma scrapeJobsWithRetry_result params (st : St W) :
  0 <= num_or (CustomScraper.maxRetries (base config)) 3 ->
  exists r st',
    retry_loop config params (num_or (CustomScraper.maxRetries (base config)) 3) 0 st
    = (r, st') /\
    r <> Ok None /\
    scrapeJobsWithRetry config params st
    = (match r with
       | Ok (Some jobs) => Ok jobs
       | Ok None => Throw (exhausted (num_or (CustomScraper.maxRetries (base config)) 3))
       | Throw e => Throw e
       end, st').
Proof.
  intros Hmax.
  pose proof (retry_loop_never_falls_through params _ _ 0 st eq_refl Hmax) as Hne.
  unfold scrapeJobsWithRetry, bind.
  destruct (retry_loop config params _ 0 st) as [[[jobs |] | e] st'];
    simpl in Hne; eexists _, _; repeat split; try eassumption; try reflexivity.
Qed.

End RetryProofs.

Section BatchProofs.
Import JS Utils EnhancedScraper.
Context {W : Type} `{ScraperHandle W}.
Variable config : EnhancedScraperConfig.

Lemma search_delay_returns (st : St W) : fst (search_delay config st) = Ok tt.
Proof.
  unfold search_delay, quietly, catch.
  destruct (requestDelay config) as [d |]; [destruct (d =? 0) |]; reflexivity.
Qed.

Lemma batch_loop_spec (jobParams : list SearchRequest) :
  forall (allJobs : list JobData) (st : St W),
    fst (batch_loop config jobParams allJobs st)
    = Ok (allJobs ++ concat (map records_of (request_outcomes config jobParams st)))%list.
Proof.
  induction jobParams as [| params rest IH]; intros allJobs st; simpl.
  - now rewrite app_nil_r.
  - destruct (scrapeJobsWithRetry config params st) as [[jobs | e] st1]; simpl.
    + unfold bind. pose proof (search_delay_returns st1) as D.
      destruct (search_delay config st1) as [r st2]. simpl in D. subst r.
      simpl. rewrite IH, app_assoc. reflexivity.
    + apply IH.
Qed.

(** C7. [batchScrapeJobs] returns the concatenation of the record lists of
    the requests that succeeded, in the order of the requests; a request that
    fails contributes nothing and the batch does not throw. *)
Theorem batchScrapeJobs_concatenates (jobParams : list SearchRequest) (st : St W) :
  fst (batchScrapeJobs config jobParams st)
  = Ok (concat (map records_of (request_outcomes config jobParams st))).
Proof.
  unfold batchScrapeJobs. now rewrite batch_loop_spec.
Qed.

Lemma request_outcomes_length (jobParams : list SearchRequest) :
  forall st : St W,
    length (request_outcomes config jobParams st) = length jobParams.
Proof.
  induction jobParams as [| params rest IH]; intros st; simpl; [reflexivity |].
  destruct (scrapeJobsWithRetry config params st) as [[jobs | e] st1]; simpl;
    now rewrite IH.
Qed.

End BatchProofs.

Section FallbackProofs.
Import JS Utils EnhancedScraper Index.
Context {W : Type} `{ScraperHandle W} `{SimpleScraper W}.

Lemma count_events_snoc p (t : list Event) ev :
  count_events p (t ++ [ev]) = (count_events p t + if p ev then 1 else 0)%nat.
Proof. rewrite count_events_app. unfold count_events. simpl. now destruct (p ev). Qed.

(** The fallback creates the simple scraper once, whatever happens then. *)
Lemma fallback_creates_once position location (st : St W) :
  count_events is_fallback (trace (snd (fallback position location st)))
  = S (count_events is_fallback (trace st)).
Proof.
  unfold fallback, bind, call, ret.
  destruct (simple_create (world st)) as [[[] | e1] w1]; simpl.
  - destruct (simple_scrapeJobs position location 100 w1) as [[jobs | e2] w2]; simpl.
    + destruct (simple_close w2) as [[[] | e3] w3]; simpl;
        rewrite !count_events_snoc; simpl; lia.
    + rewrite !count_events_snoc; simpl; lia.
  - rewrite !count_events_snoc; simpl; lia.
Qed.

Lemma fallback_scrapes_at_most_once position location (st : St W) :
  (count_events is_simple_scrape (trace (snd (fallback position location st)))
   <= S (count_events is_simple_scrape (trace st)))%nat.
Proof.
  unfold fallback, bind, call, ret.
  destruct (simple_create (world st)) as [[[] | e1] w1]; simpl.
  - destruct (simple_scrapeJobs position location 100 w1) as [[jobs | e2] w2]; simpl.
    + destruct (simple_close w2) as [[[] | e3] w3]; simpl;
        rewrite !count_events_snoc; simpl; lia.
    + rewrite !count_events_snoc; simpl; lia.
  - rewrite !count_events_snoc; simpl; lia.
Qed.

(** C6. When the primary path of [runJobScraper] has thrown [E], the simple
    scraper is created once; if that succeeds it is asked once for the jobs
    of the same position and location, with a limit of 100, and closed if
    the scrape succeeds; and if any of these three calls throws,
    [runJobScraper] throws [E], not the error of the fallback. The final
    state gives every call made: whatever happens, the last one closes the
    enhanced scraper. *)
Theorem fallback_once_then_original_error
    position location offset companyJobsUrl
    (st0 st1 st2 : St W) (scraper : EnhancedScraperConfig) (E : JsError) :
  createEnhancedScraper legacy_config st0 = (Ok scraper, st1) ->
  scrapeJobsWithRetry scraper
    (mkRequest position location offset companyJobsUrl (Some 100)) st1
  = (Throw E, st2) ->
  runJobScraper position location offset companyJobsUrl st0
  = match simple_create (world st2) with
    | (Throw _, w3) =>
        (Throw E,
         mkSt (scraper_close w3)
              (trace st2 ++ [CreateSimpleScraper; ScraperClose]))
    | (Ok _, w3) =>
        match simple_scrapeJobs position location 100 w3 with
        | (Throw _, w4) =>
            (Throw E,
             mkSt (scraper_close w4)
                  (trace st2 ++ [CreateSimpleScraper; SimpleScrapeJobs; ScraperClose]))
        | (Ok simpleJobs, w4) =>
            match simple_close w4 with
            | (Throw _, w5) =>
                (Throw E,
                 mkSt (scraper_close w5)
                      (trace st2 ++ [CreateSimpleScraper; SimpleScrapeJobs;
                                     SimpleClose; ScraperClose]))
            | (Ok _, w5) =>
                (Ok (map legacy_of_simple simpleJobs),
                 mkSt (scraper_close w5)
                      (trace st2 ++ [CreateSimpleScraper; SimpleScrapeJobs;
                                     SimpleClose; ScraperClose]))
            end
        end
    end.
Proof.
  intros Hcreate Hprimary.
  unfold runJobScraper. rewrite (bind_ok _ _ _ _ _ Hcreate).
  unfold ensuring.
  rewrite (catch_throw _ _ _ _ _ (bind_throw _ _ _ _ _ Hprimary)).
  unfold fallback, catch, bind, call, throw, ret, EnhancedScraper.close.
  destruct (simple_create (world st2)) as [[[] | e3] w3]; simpl;
    [| now rewrite <- !app_assoc].
  destruct (simple_scrapeJobs position location 100 w3) as [[simpleJobs | e4] w4];
    simpl; [| now rewrite <- !app_assoc].
  destruct (simple_close w4) as [[[] | e5] w5]; simpl;
    now rewrite <- !app_assoc.
Qed.

End FallbackProofs.

(** ** The orchestrator on concrete worlds *)

Section OrchestratorScenarios.
Import JS Utils EnhancedScraper Index.

Lemma non_retryable_error_raised_at_once_witness :
  scrapeJobsWithRetry two_retries (request "Austin, TX" (Some 10))
    (start always_unresolved)
  = (Throw dns_error, mkSt always_unresolved [ScraperScrapeJobs]).
Proof.
  apply (non_retryable_error_raised_at_once two_retries
           (request "Austin, TX" (Some 10)) (start always_unresolved)
           dns_error always_unresolved).
  - vm_compute. discriminate.
  - reflexivity.
  - reflexivity.
Defined.

(** C1 on the code. With a budget of two retries and a scrape that finds the
    browser closed on each of the three attempts, [scrapeJobsWithRetry]
    throws the error of the third attempt: [shouldRetry] answers [false]
    once [attempt >= maxRetries], so the [throw error] of the [catch] block
    runs and the error naming the attempt count, after the loop, is not
    reached. *)
Lemma exhaustion_rethrows_last_error :
  let run := scrapeJobsWithRetry two_retries (request "Austin, TX" (Some 10))
               (start always_closed) in
  fst run = Throw closed_error /\
  count_events is_scrape (trace (snd run)) = 3%nat /\
  retryable_signature closed_error = true /\
  closed_error <> exhausted 2.
Proof.
  repeat split; try reflexivity. discriminate.
Qed.

(** A negative budget is the one case in which the error of exhaustion is
    thrown: the loop body never runs. *)
Example negative_budget_exhausted :
  fst (scrapeJobsWithRetry
         (mkEnhancedConfig
            (CustomScraper.mkScraperConfig None None None (Some (-1)) None)
            None None None None None)
         (request "Austin, TX" None) (start always_closed))
  = Throw (Error "Failed to scrape jobs after 0 attempts").
Proof. reflexivity. Qed.

Lemma fallback_once_then_original_error_witness :
  let st0 := start always_closed in
  let st1 := snd (createEnhancedScraper legacy_config st0) in
  let st2 := snd (scrapeJobsWithRetry two_retries
                    (mkRequest None "Austin, TX" None None (Some 100)) st1) in
  runJobScraper None "Austin, TX" None None st0
  = (Throw closed_error,
     mkSt (scraper_close (world st2))
          (trace st2 ++ [CreateSimpleScraper; SimpleScrapeJobs; ScraperClose])).
Proof.
  intros st0 st1 st2.
  exact (fallback_once_then_original_error None "Austin, TX" None None
           st0 st1 st2 two_retries closed_error eq_refl eq_refl).
Defined.

(** The fallback of the scenario does fail, and the error of the primary path
    is the one thrown. *)
Example fallback_fails_original_error :
  fst (runJobScraper None "Austin, TX" None None (start always_closed))
  = Throw closed_error /\
  fst (fallback None "Austin, TX" (start always_closed)) = Throw closed_error.
Proof. split; reflexivity. Qed.

(** The batch of the specification: Austin, a failing location, Denver. *)
Example batch_three_cities :
  fst (batchScrapeJobs two_retries
         [request "Austin, TX" (Some 10); request "BAD" None;
          request "Denver, CO" (Some 10)]
         (start three_cities))
  = Ok (map sanitizeJobData (austin_jobs ++ denver_jobs)).
Proof. reflexivity. Qed.

End OrchestratorScenarios.

(** ** The infinite-scroll loader *)

Section LoaderProofs.
Import JS Utils CustomScraper.
Context {W : Type} `{Playwright W}.

Lemma scroll_loop_unfold currentJobCount i newJobCount (st : St W) :
  scroll_loop currentJobCount i newJobCount st =
  if i <? 5 then
    match (call ScrollToBottom scrollToBottom ;;
           call (WaitForTimeout 3000) (waitForTimeout 3000) ;;
           call CountCards countCards) st with
    | (Throw e, st1) => (Throw e, st1)
    | (Ok newJobCount, st1) =>
        if newJobCount >? currentJobCount then (Ok true, st1)
        else if i =? 5 - 1 then (Ok false, st1)
        else
          match call (WaitForTimeout 2000) (waitForTimeout 2000) st1 with
          | (Throw e, st2) => (Throw e, st2)
          | (Ok _, st2) => scroll_loop currentJobCount (i + 1) newJobCount st2
          end
    end
  else (Ok (newJobCount >? currentJobCount), st).
Proof.
  simp scroll_loop.
  destruct (Z_lt_dec i 5) as [Hlt | Hge]; simpl.
  - assert (E : (i <? 5) = true) by lia. rewrite E. reflexivity.
  - assert (E : (i <? 5) = false) by lia. rewrite E. reflexivity.
Qed.

(** [loadMoreJobs] returns: what it throws it catches. *)
Lemma loadMoreJobs_returns (st : St W) :
  exists b st', loadMoreJobs st = (Ok b, st').
Proof.
  unfold loadMoreJobs, catch.
  destruct (bind _ _ st) as [[b | e] st1]; [eauto | unfold ret; eauto].
Qed.

Section Stagnant.

(** A page that stays as it is: in the worlds of [quiet] every scroll and
    every wait succeeds, and the count read is never above
    [currentJobCount]. *)
Variable currentJobCount : Z.
Variable quiet : W -> Prop.
Hypothesis quiet_scroll :
  forall w, quiet w -> exists w', scrollToBottom w = (Ok tt, w') /\ quiet w'.
Hypothesis quiet_wait :
  forall ms w, quiet w -> exists w', waitForTimeout ms w = (Ok tt, w') /\ quiet w'.
Hypothesis quiet_count :
  forall w, quiet w ->
    exists c w', countCards w = (Ok c, w') /\ c <= currentJobCount /\ quiet w'.

Lemma scroll_loop_stagnant (n : nat) :
  forall i newJobCount (st : St W),
    steps_left 5 i = n -> 0 <= i < 5 -> quiet (world st) ->
    exists st',
      scroll_loop currentJobCount i newJobCount st = (Ok false, st') /\
      count_events is_scroll (trace st')
      = (count_events is_scroll (trace st) + steps_left 5 i)%nat.
Proof.
  induction n as [n IH] using lt_wf_ind. intros i newJobCount st Hn Hi Hq.
  rewrite scroll_loop_unfold.
  assert (E : (i <? 5) = true) by lia. rewrite E.
  destruct (quiet_scroll _ Hq) as (w1 & Hs & Hq1).
  destruct (quiet_wait 3000 _ Hq1) as (w2 & Hw & Hq2).
  destruct (quiet_count _ Hq2) as (c & w3 & Hc & Hle & Hq3).
  unfold bind, call. simpl. rewrite Hs. simpl. rewrite Hw. simpl. rewrite Hc.
  assert (G : (c >? currentJobCount) = false) by lia. rewrite G.
  destruct (Z.eqb_spec i 4) as [Hlast | Hmore].
  - eexists. split; [reflexivity |]. simpl.
    rewrite !count_events_snoc. simpl. subst i. unfold steps_left. simpl. lia.
  - destruct (quiet_wait 2000 _ Hq3) as (w4 & Hw4 & Hq4).
    simpl. rewrite Hw4.
    assert (Hdec : (steps_left 5 (i + 1) < n)%nat)
      by (subst n; unfold steps_left; lia).
    match goal with
    | |- context [scroll_loop _ _ _ ?s] =>
        destruct (IH _ Hdec (i + 1) c s eq_refl ltac:(lia) Hq4)
          as (st' & Hrun & Hcount)
    end.
    exists st'. split; [exact Hrun |]. rewrite Hcount. simpl.
    rewrite !count_events_snoc. simpl. unfold steps_left. lia.
Qed.

(** C3, as the code has it. On a page whose count of cards never exceeds the
    count read first, [loadMoreJobs] returns [false], and it does so after
    five scroll attempts, the ceiling of its own loop. *)
Theorem loadMoreJobs_stagnant_page (st : St W) (w1 : W) :
  countCards (world st) = (Ok currentJobCount, w1) ->
  quiet w1 ->
  exists st',
    loadMoreJobs st = (Ok false, st') /\
    count_events is_scroll (trace st')
    = (count_events is_scroll (trace st) + 5)%nat.
Proof.
  intros Hc Hq. unfold loadMoreJobs.
  destruct (scroll_loop_stagnant _ 0 currentJobCount
              (mkSt w1 (trace st ++ [CountCards])) eq_refl) as (st' & Hrun & Hcount);
    [lia | exact Hq |].
  exists st'. split.
  - apply catch_ok. unfold bind, call. rewrite Hc. exact Hrun.
  - rewrite Hcount. simpl. rewrite count_events_snoc. simpl.
    change (steps_left 5 0) with 5%nat. lia.
Qed.

End Stagnant.

(** Growth seen after the first scroll ends the call at once. *)
Lemma loadMoreJobs_growth (st : St W) c0 c1 w1 w2 w3 w4 :
  countCards (world st) = (Ok c0, w1) ->
  scrollToBottom w1 = (Ok tt, w2) ->
  waitForTimeout 3000 w2 = (Ok tt, w3) ->
  countCards w3 = (Ok c1, w4) ->
  c0 < c1 ->
  loadMoreJobs st
  = (Ok true,
     mkSt w4 (trace st ++ [CountCards; ScrollToBottom; WaitForTimeout 3000; CountCards])).
Proof.
  intros H0 H1 H2 H3 Hlt. unfold loadMoreJobs.
  apply catch_ok. unfold bind at 1. unfold call at 1. rewrite H0.
  rewrite scroll_loop_unfold. simpl.
  unfold bind, call. simpl. rewrite H1. simpl. rewrite H2. simpl. rewrite H3.
  assert (G : (c1 >? c0) = true) by lia. rewrite G.
  rewrite <- !app_assoc. reflexivity.
Qed.

End LoaderProofs.

Section LoaderScenarios.
Import JS Utils CustomScraper.

Lemma loadMoreJobs_stagnant_page_witness :
  exists st',
    loadMoreJobs (start static_page) = (Ok false, st') /\
    count_events is_scroll (trace st')
    = (count_events is_scroll (trace (start static_page)) + 5)%nat.
Proof.
  apply (loadMoreJobs_stagnant_page 5 (fun w => w = static_page)) with (w1 := static_page).
  - intros w ->. exists static_page. split; reflexivity.
  - intros ms w ->. exists static_page. split; reflexivity.
  - intros w ->. exists 5, static_page. repeat split. lia.
  - reflexivity.
  - reflexivity.
Defined.

(** C3 as stated fails. On a page that shows five cards before and after
    the first scroll, [loadMoreJobs] scrolls five times before it returns
    [false]; and when two cards arrive with the second scroll it returns
    [true]. *)
Lemma loadMoreJobs_not_after_one_scroll :
  (fst (loadMoreJobs (start static_page)) = Ok false /\
   count_events is_scroll (trace (snd (loadMoreJobs (start static_page)))) = 5%nat) /\
  (fst (loadMoreJobs (start late_page)) = Ok true /\
   count_events is_scroll (trace (snd (loadMoreJobs (start late_page)))) = 2%nat).
Proof. repeat split. Qed.

End LoaderScenarios.

(** ** The main scrape loop *)

Section ExtractionProofs.
Import JS Utils CustomScraper.

Lemma existsb_eqb_false (i : string) (seen : list string) :
  existsb (String.eqb i) seen = false -> ~ In i seen.
Proof.
  intros E Hin.
  assert (T : existsb (String.eqb i) seen = true).
  { apply existsb_exists. exists i. split; [exact Hin | apply String.eqb_refl]. }
  congruence.
Qed.

Lemma extract_card_distinct acc el :
  distinct_seen acc -> distinct_seen (extract_card acc el).
Proof.
  destruct acc as [jobs seen]. intros [ND Hseen]. unfold extract_card.
  set (i := remove_first (or_else (data_entity_urn el) "") "urn:li:jobPosting:").
  destruct ((i =? "")%string || existsb (String.eqb i) seen) eqn:E;
    [split; assumption |].
  apply orb_false_iff in E as [_ E]. apply existsb_eqb_false in E.
  match goal with |- context [truthy ?t] => destruct (truthy t) end;
    split; simpl.
  - rewrite map_app. simpl.
    apply NoDup_app; [exact ND | constructor; [intros [] | constructor] |].
    intros x Hx [Hx' | []]. subst x.
    apply in_map_iff in Hx as (job & Hid & Hin).
    destruct (Hseen job Hin) as (i' & Hi' & Hin').
    simpl in Hi'. rewrite Hid in Hi'. injection Hi' as <-. contradiction.
  - intros job Hin. apply in_app_or in Hin as [Hin | [<- | []]].
    + destruct (Hseen job Hin) as (i' & Hi' & Hin'). exists i'. simpl. auto.
    + exists i. simpl. auto.
  - exact ND.
  - intros job Hin. destruct (Hseen job Hin) as (i' & Hi' & Hin').
    exists i'. simpl. auto.
Qed.

Lemma fold_extract_distinct els :
  forall acc, distinct_seen acc -> distinct_seen (fold_left extract_card els acc).
Proof.
  induction els as [| el els IH]; intros acc Hacc; simpl; [exact Hacc |].
  apply IH, extract_card_distinct, Hacc.
Qed.

(** No two records of one extraction pass share an id. *)
Lemma extract_jobs_distinct_ids els : NoDup (map Utils.id (extract_jobs els)).
Proof.
  apply (fold_extract_distinct els ([], [])).
  split; simpl; [constructor | intros job []].
Qed.

Lemma slice0_length {A} (xs : list A) (n : Z) :
  0 <= n -> Z.of_nat (length (slice0 xs n)) <= n.
Proof.
  intros Hn. unfold slice0.
  assert (E : (n <? 0) = false) by lia. rewrite E.
  rewrite length_firstn. lia.
Qed.

End ExtractionProofs.

Section ScrapeProofs.
Import JS Utils CustomScraper.
Context {W : Type} `{Playwright W}.
Variable config : ScraperConfig.

Lemma on_error_throws (err : JsError) (st : St W) :
  exists e st', on_error err st = (Throw e, st').
Proof.
  unfold on_error, bind, throw.
  match goal with
  | |- context [match ?m st with _ => _ end] =>
      destruct (m st) as [[[] | e] st1]; eauto
  end.
Qed.

Ltac step_in H :=
  apply bind_ok_inv in H;
  let a := fresh "a" in let st := fresh "st" in
  destruct H as (a & st & _ & H).

(** What the [try] block returns has at most [targetLimit] records. *)
Lemma scrape_page_at_most params (st : St W) jobs st' :
  0 <= num_or (limit params) 100 ->
  scrape_page config params st = (Ok jobs, st') ->
  Z.of_nat (length jobs) <= num_or (limit params) 100.
Proof.
  intros Hlim Hrun. unfold scrape_page in Hrun.
  do 5 step_in Hrun.
  destruct (login_wall a3).
  - step_in Hrun. injection Hrun as <- _. simpl. exact Hlim.
  - do 6 step_in Hrun. injection Hrun as <- _. now apply slice0_length.
Qed.

Lemma scrapeJobs_from_page params (st : St W) jobs st' :
  scrapeJobs config params st = (Ok jobs, st') ->
  exists st1 st2, scrape_page config params st1 = (Ok jobs, st2).
Proof.
  intros Hrun. unfold scrapeJobs in Hrun.
  apply bind_ok_inv in Hrun as ([] & st0 & _ & Hrun).
  destruct (call NewPage newPage st0) as [[[] | err] st1].
  - unfold ensuring, catch in Hrun.
    destruct (scrape_page config params st1) as [[jobs' | err] st2] eqn:Hpage.
    + injection Hrun as <- _. eauto.
    + destruct (on_error_throws err st2) as (e & st3 & He).
      rewrite He in Hrun. discriminate.
  - destruct (on_error_throws err st1) as (e & st3 & He).
    rewrite He in Hrun. discriminate.
Qed.

(** C2, as the code has it. With a limit [N >= 1], [scrapeJobs] returns at
    most [N] records; and no two records of one extraction pass share an
    id. *)
Theorem scrapeJobs_at_most_limit params (N : Z) (st : St W) jobs st' :
  limit params = Some N ->
  1 <= N ->
  scrapeJobs config params st = (Ok jobs, st') ->
  Z.of_nat (length jobs) <= N /\
  forall els, NoDup (map Utils.id (extract_jobs els)).
Proof.
  intros Hlimit HN Hrun. split; [| apply extract_jobs_distinct_ids].
  apply scrapeJobs_from_page in Hrun as (st1 & st2 & Hpage).
  pose proof (scrape_page_at_most params st1 jobs st2) as B.
  assert (E : num_or (limit params) 100 = N).
  { rewrite Hlimit. simpl. destruct (Z.eqb_spec N 0); [lia | reflexivity]. }
  rewrite E in B. apply B; [lia | exact Hpage].
Qed.

(** A limit of [0], like a missing one, stands for 100. *)
Lemma scrapeJobs_default_limit params (st : St W) jobs st' :
  limit params = Some 0 \/ limit params = None ->
  scrapeJobs config params st = (Ok jobs, st') ->
  Z.of_nat (length jobs) <= 100.
Proof.
  intros Hlimit Hrun.
  apply scrapeJobs_from_page in Hrun as (st1 & st2 & Hpage).
  pose proof (scrape_page_at_most params st1 jobs st2) as B.
  assert (E : num_or (limit params) 100 = 100)
    by (destruct Hlimit as [-> | ->]; reflexivity).
  rewrite E in B. apply B; [lia | exact Hpage].
Qed.

(** When [loadMoreJobs] reports the end of the results the loop is left. *)
Lemma scrape_turn_end_of_results targetLimit jobs (st : St W) newJobs st1 st2 :
  extractJobsFromPage st = (Ok newJobs, st1) ->
  Z.of_nat (length (jobs ++ newJobs)) < targetLimit ->
  loadMoreJobs st1 = (Ok false, st2) ->
  scrape_turn config targetLimit jobs st = (Ok (Break (jobs ++ newJobs)%list), st2).
Proof.
  intros Hex Hlen Hload. unfold scrape_turn. rewrite Hex.
  assert (E : (Z.of_nat (length (jobs ++ newJobs)) >=? targetLimit) = false) by lia.
  rewrite E. apply catch_ok. unfold bind. rewrite Hload. reflexivity.
Qed.

End ScrapeProofs.

Section ScrapeScenarios.
Import JS Utils CustomScraper.

Lemma scrapeJobs_at_most_limit_witness :
  match fst (scrapeJobs default_scraper (request "Austin, TX" (Some 3))
               (start growing_page)) with
  | Ok jobs =>
      Z.of_nat (length jobs) <= 3 /\
      forall els, NoDup (map Utils.id (extract_jobs els))
  | Throw _ => False
  end.
Proof.
  destruct (scrapeJobs default_scraper (request "Austin, TX" (Some 3))
              (start growing_page)) as [r st'] eqn:Hrun.
  assert (Hr : exists jobs, r = Ok jobs).
  { vm_compute in Hrun. injection Hrun as <- _. eauto. }
  destruct Hr as (jobs & ->). simpl.
  apply (scrapeJobs_at_most_limit default_scraper
           (request "Austin, TX" (Some 3)) 3 (start growing_page) jobs st').
  - reflexivity.
  - lia.
  - exact Hrun.
Defined.

(** On that page a limit of three gives the first three records. *)
Example scrapeJobs_three_of_growing_page :
  match fst (scrapeJobs default_scraper (request "Austin, TX" (Some 3))
               (start growing_page)) with
  | Ok jobs => map Utils.id jobs = [Some "1"; Some "2"; Some "3"]
  | Throw _ => False
  end.
Proof. reflexivity. Qed.

(** C2 as stated fails. With a limit of [0] the one card of the page is
    returned. With a limit of [10], on a page that shows five cards at the
    first extraction pass and seven at the second, the second pass extracts
    the first five again: the ten records returned are the first five,
    twice. (The route handlers that call the scraper filter its result by
    job id.) *)
Lemma scrapeJobs_limit_zero_and_repeated_ids :
  (exists jobs,
      fst (scrapeJobs default_scraper (request "Austin, TX" (Some 0))
             (start single_page)) = Ok jobs /\
      Z.of_nat (length jobs) > 0) /\
  (exists jobs,
      fst (scrapeJobs default_scraper (request "Austin, TX" (Some 10))
             (start growing_page)) = Ok jobs /\
      map Utils.id jobs
      = [Some "1"; Some "2"; Some "3"; Some "4"; Some "5";
         Some "1"; Some "2"; Some "3"; Some "4"; Some "5"] /\
      ~ NoDup (map Utils.id jobs)).
Proof.
  split.
  - eexists. split; [vm_compute; reflexivity | simpl; lia].
  - eexists. split; [vm_compute; reflexivity |]. split; [reflexivity |].
    intros ND. simpl in ND. apply NoDup_cons_iff in ND as [Hnotin _].
    apply Hnotin. simpl. tauto.
Qed.

End ScrapeScenarios.

(** ** Numbers as text *)

Section NumberText.
Import JS.

Lemma parse_digits_uint (d : Decimal.uint) :
  forall acc, parse_digits acc (NilEmpty.string_of_uint d) = uint_value d acc.
Proof.
  induction d; intros acc; [reflexivity | ..];
    cbn [NilEmpty.string_of_uint parse_digits uint_value];
    match goal with
    | |- context [is_digit ?c] =>
        change (is_digit c) with true; cbv iota;
        let v := eval vm_compute in (N_of_ascii c - 48)%N in
        change (N_of_ascii c - 48)%N with v
    end;
    rewrite IHd; f_equal; lia.
Qed.

Lemma uint_value_pos (d : Decimal.uint) :
  forall p, uint_value d (N.pos p) = N.pos (Pos.of_uint_acc d p).
Proof.
  induction d; intros p; cbn -[N.mul N.add Pos.mul Pos.add]; try reflexivity;
    match goal with
    | |- uint_value _ ?a = N.pos (Pos.of_uint_acc _ ?b) =>
        replace a with (N.pos b) by lia; apply IHd
    end.
Qed.

Lemma uint_value_of_uint (d : Decimal.uint) : uint_value d 0 = N.of_uint d.
Proof.
  unfold N.of_uint.
  induction d; cbn -[N.mul N.add Pos.mul Pos.add]; try reflexivity; try exact IHd;
    match goal with
    | |- uint_value _ ?a = N.pos (Pos.of_uint_acc _ ?b) =>
        replace a with (N.pos b) by lia; apply uint_value_pos
    end.
Qed.

Lemma skip_white_space_digit (c : ascii) (r : string) :
  is_digit c = true -> skip_white_space (String c r) = String c r.
Proof.
  intros Hc.
  destruct c as [[] [] [] [] [] [] [] []]; try discriminate Hc;
    destruct r as [| c1 [| c2 r2]]; reflexivity.
Qed.

Lemma round_int_safe (z : Z) : Z.abs z <= 2 ^ 53 -> round_int z = z.
Proof.
  intros Hz. unfold round_int.
  destruct (Z.leb_spec (Z.abs z) (2 ^ 53)); [reflexivity | lia].
Qed.

Lemma safe_below_overflow : 2 ^ 53 < overflow_threshold.
Proof. reflexivity. Qed.

Lemma parseInt_digits (d : Decimal.uint) :
  d <> Decimal.Nil ->
  parseInt (NilEmpty.string_of_uint d)
  = if Z.of_N (N.of_uint d) <? overflow_threshold
    then Int (round_int (Z.of_N (N.of_uint d)))
    else Infinity false.
Proof.
  intros Hd. rewrite <- uint_value_of_uint, <- parse_digits_uint.
  destruct d; [contradiction | ..]; unfold parseInt;
    cbn [NilEmpty.string_of_uint];
    rewrite skip_white_space_digit by reflexivity; reflexivity.
Qed.

Lemma parseInt_decimal (n : N) :
  Z.of_N n <= 2 ^ 53 -> parseInt (decimal n) = Int (Z.of_N n).
Proof.
  intros Hn. pose proof safe_below_overflow as Hsafe.
  assert (G : parseInt (decimal n)
              = if Z.of_N n <? overflow_threshold
                then Int (round_int (Z.of_N n)) else Infinity false).
  { unfold decimal. pose proof (DecimalN.Unsigned.of_to n) as E.
    destruct (N.to_uint n); rewrite <- E;
      try (apply parseInt_digits; discriminate).
    reflexivity. }
  rewrite G.
  destruct (Z.ltb_spec (Z.of_N n) overflow_threshold); [| lia].
  rewrite round_int_safe by lia. reflexivity.
Qed.

(** [parseInt(String(z), 10)] is [z] for a safe integer [0 <= z <= 2^53]. *)
Lemma parseInt_toString (z : Z) :
  0 <= z <= 2 ^ 53 -> parseInt (toString z) = Int z.
Proof.
  intros Hz. unfold toString, nat_toString.
  assert (E1 : (z <? 0) = false) by lia. rewrite E1.
  assert (E2 : (Z.to_N z <=? 2 ^ 53)%N = true) by (apply N.leb_le; lia).
  rewrite E2. cbv zeta.
  assert (E3 : (Z.to_N z <? 10 ^ 21)%N = true) by (apply N.ltb_lt; lia).
  rewrite E3, parseInt_decimal by lia. f_equal. lia.
Qed.

End NumberText.

(** ** Splitting and joining *)

Section Splitting.
Import JS.

Lemma append_empty (s : string) : s ++ "" = s.
Proof. induction s; simpl; congruence. Qed.

Lemma append_assoc (a b c : string) : (a ++ b) ++ c = a ++ (b ++ c).
Proof. induction a; simpl; congruence. Qed.

Lemma has_char_app c (a b : string) :
  has_char c (a ++ b) = has_char c a || has_char c b.
Proof. induction a; simpl; [reflexivity | rewrite IHa; apply orb_assoc]. Qed.

Lemma all_chars_app p (a b : string) :
  all_chars p (a ++ b) = all_chars p a && all_chars p b.
Proof. induction a; simpl; [reflexivity | rewrite IHa; apply andb_assoc]. Qed.

Lemma all_chars_has_char p c (s : string) :
  all_chars p s = true -> p c = false -> has_char c s = false.
Proof.
  intros Hall Hc. induction s as [| c' r IH]; simpl in *; [reflexivity |].
  apply andb_true_iff in Hall as [Hc' Hr]. rewrite (IH Hr), orb_false_r.
  destruct (Ascii.eqb_spec c' c); [congruence | reflexivity].
Qed.

Lemma cut_fst_no_sep sep (s : string) : has_char sep (fst (cut sep s)) = false.
Proof.
  induction s as [| c r IH]; simpl; [reflexivity |].
  destruct (c =? sep)%char eqn:E; [reflexivity |].
  destruct (cut sep r) as [a b]. simpl in *. now rewrite E, IH.
Qed.

Lemma cut_fst_keeps c sep (s : string) :
  has_char c s = false -> has_char c (fst (cut sep s)) = false.
Proof.
  induction s as [| c' r IH]; simpl; [reflexivity |].
  intros Hs. apply orb_false_iff in Hs as [Hc Hr].
  destruct (c' =? sep)%char; [reflexivity |].
  destruct (cut sep r) as [a b]. simpl in *. now rewrite Hc, IH.
Qed.

Lemma cut_app sep (a b : string) :
  has_char sep a = false -> cut sep (a ++ String sep b) = (a, Some b).
Proof.
  induction a as [| c r IH]; simpl; intros Ha.
  - now rewrite Ascii.eqb_refl.
  - apply orb_false_iff in Ha as [Hc Hr]. now rewrite Hc, (IH Hr).
Qed.

Lemma cut_no_sep sep (a : string) :
  has_char sep a = false -> cut sep a = (a, None).
Proof.
  induction a as [| c r IH]; simpl; intros Ha; [reflexivity |].
  apply orb_false_iff in Ha as [Hc Hr]. now rewrite Hc, (IH Hr).
Qed.

Lemma split_on_no_sep sep (x : string) :
  has_char sep x = false -> split_on sep x = [x].
Proof.
  induction x as [| c r IH]; simpl; intros Hx; [reflexivity |].
  apply orb_false_iff in Hx as [Hc Hr]. now rewrite Hc, (IH Hr).
Qed.

Lemma split_on_app sep (x r : string) :
  has_char sep x = false ->
  split_on sep (x ++ String sep r) = x :: split_on sep r.
Proof.
  induction x as [| c x IH]; simpl; intros Hx.
  - now rewrite Ascii.eqb_refl.
  - apply orb_false_iff in Hx as [Hc Hr]. now rewrite Hc, (IH Hr).
Qed.

Lemma split_on_join sep (xs : list string) :
  xs <> [] ->
  Forall (fun x => has_char sep x = false) xs ->
  split_on sep (join (String sep "") xs) = xs.
Proof.
  induction xs as [| x [| y r] IH]; intros Hne Hall; [contradiction | |].
  - simpl. apply split_on_no_sep. now inversion Hall.
  - inversion Hall as [| ? ? Hx Hrest]; subst.
    change (join (String sep "") (x :: y :: r))
      with (x ++ String sep "" ++ join (String sep "") (y :: r)).
    change (String sep "" ++ join (String sep "") (y :: r))
      with (String sep (join (String sep "") (y :: r))).
    rewrite (split_on_app sep x _ Hx), IH; [reflexivity | discriminate | exact Hrest].
Qed.

End Splitting.

(** ** The urlencoded format *)

Section UrlEncoded.
Import JS.

Lemma encode_byte_chars (c : ascii) : all_chars encoded_char (encode_byte c) = true.
Proof. destruct c as [[] [] [] [] [] [] [] []]; reflexivity. Qed.

Lemma encode_chars (s : string) : all_chars encoded_char (encode s) = true.
Proof.
  induction s as [| c r IH]; simpl; [reflexivity |].
  now rewrite all_chars_app, encode_byte_chars, IH.
Qed.

Lemma encode_no_char c (s : string) :
  encoded_char c = false -> has_char c (encode s) = false.
Proof. apply all_chars_has_char, encode_chars. Qed.

Lemma decode_encode_cons (c : ascii) (r : string) :
  decode (encode (String c r)) = String c (decode (encode r)).
Proof. destruct c as [[] [] [] [] [] [] [] []]; reflexivity. Qed.

(** Decoding undoes encoding. *)
Lemma decode_encode (s : string) : decode (encode s) = s.
Proof.
  induction s as [| c r IH]; [reflexivity |].
  now rewrite decode_encode_cons, IH.
Qed.

Lemma parse_serialize_pair (p : string * string) :
  parse_pair (serialize_pair p) = p.
Proof.
  destruct p as [k v]. unfold parse_pair, serialize_pair. simpl.
  rewrite cut_app by (now apply encode_no_char).
  now rewrite !decode_encode.
Qed.

Lemma serialize_pair_chars (p : string * string) :
  all_chars query_char (serialize_pair p) = true.
Proof.
  assert (Hweak : forall s, all_chars encoded_char s = true ->
                            all_chars query_char s = true).
  { induction s as [| c r IH]; simpl; [reflexivity |].
    intros Hs. apply andb_true_iff in Hs as [Hc Hr].
    rewrite (IH Hr), andb_true_r. unfold query_char.
    unfold encoded_char in Hc. now rewrite Hc. }
  unfold serialize_pair. rewrite all_chars_app. simpl.
  now rewrite !Hweak by apply encode_chars.
Qed.

Lemma serialize_pair_no_amp (p : string * string) :
  has_char "&" (serialize_pair p) = false.
Proof.
  unfold serialize_pair. rewrite has_char_app. simpl.
  now rewrite !encode_no_char.
Qed.

Lemma serialize_pair_nonempty (p : string * string) :
  negb (serialize_pair p =? "")%string = true.
Proof.
  unfold serialize_pair. destruct (encode (fst p)); reflexivity.
Qed.

Lemma serialize_chars (l : list (string * string)) :
  all_chars query_char (serialize_urlencoded l) = true.
Proof.
  unfold serialize_urlencoded.
  induction l as [| p [| q r] IH]; [reflexivity | simpl; apply serialize_pair_chars |].
  change (map serialize_pair (p :: q :: r))
    with (serialize_pair p :: map serialize_pair (q :: r)).
  change (join "&" (serialize_pair p :: map serialize_pair (q :: r)))
    with (serialize_pair p ++ "&" ++ join "&" (map serialize_pair (q :: r))).
  rewrite !all_chars_app, serialize_pair_chars, IH. reflexivity.
Qed.

(** Parsing undoes serializing. *)
Lemma parse_serialize (l : list (string * string)) :
  parse_urlencoded (serialize_urlencoded l) = l.
Proof.
  unfold parse_urlencoded, serialize_urlencoded.
  destruct l as [| p r]; [reflexivity |].
  rewrite split_on_join.
  - assert (Hkeep : forall xs : list (string * string),
              filter (fun piece => negb (piece =? "")%string) (map serialize_pair xs)
              = map serialize_pair xs).
    { induction xs as [| x xs IH]; simpl; [reflexivity |].
      now rewrite serialize_pair_nonempty, IH. }
    rewrite Hkeep, map_map.
    erewrite map_ext; [apply map_id | apply parse_serialize_pair].
  - discriminate.
  - apply Forall_map, Forall_forall. intros x _. apply serialize_pair_no_amp.
Qed.

Lemma sp_get_set name value (l : list (string * string)) :
  sp_get name (sp_set name value l) = Some value.
Proof.
  induction l as [| [k v] r IH]; simpl.
  - now rewrite String.eqb_refl.
  - destruct (k =? name)%string eqn:E; simpl; now rewrite E.
Qed.

Lemma sp_set_nonempty name value (l : list (string * string)) :
  sp_set name value l <> [].
Proof.
  destruct l as [| [k v] r]; simpl; [discriminate |].
  destruct (k =? name)%string; discriminate.
Qed.

Lemma serialize_nonempty (l : list (string * string)) :
  l <> [] -> (serialize_urlencoded l =? "")%string = false.
Proof.
  intros Hne. destruct l as [| p [| q r]]; [contradiction | |].
  - simpl. apply negb_true_iff, serialize_pair_nonempty.
  - unfold serialize_urlencoded.
    change (map serialize_pair (p :: q :: r))
      with (serialize_pair p :: map serialize_pair (q :: r)).
    change (join "&" (serialize_pair p :: map serialize_pair (q :: r)))
      with (serialize_pair p ++ "&" ++ join "&" (map serialize_pair (q :: r))).
    destruct (serialize_pair p); reflexivity.
Qed.

End UrlEncoded.

(** ** The [start] parameter *)

Section StartParamProofs.
Import JS AuthenticatedScraper.

Variable valid_base : string -> bool.
Variable resolve_base : string -> option string.

Lemma split_url_base (s : string) :
  has_char "?" (fst (fst (split_url s))) = false /\
  has_char "#" (fst (fst (split_url s))) = false.
Proof.
  unfold split_url.
  pose proof (cut_fst_no_sep "#" s) as Hs.
  destruct (cut "#" s) as [s1 frag]. simpl in Hs.
  pose proof (cut_fst_no_sep "?" s1) as H1.
  pose proof (cut_fst_keeps "#" "?" s1 Hs) as H2.
  destruct (cut "?" s1) as [b q]. simpl in *. now split.
Qed.

(** Splitting the serialization of a URL with a query gives its parts. *)
Lemma split_url_href (b q : string) (frag : option string) :
  has_char "?" b = false -> has_char "#" b = false -> has_char "#" q = false ->
  split_url (href (mkURL b (Some q) frag)) = (b, Some q, frag).
Proof.
  intros Hb1 Hb2 Hq. unfold split_url, href. simpl.
  assert (Hbq : has_char "#" (b ++ String "?" q) = false).
  { rewrite has_char_app. simpl. now rewrite Hb2, Hq. }
  destruct frag as [f |].
  - change (b ++ String "?" (q ++ String "#" f))
      with (b ++ (String "?" q) ++ String "#" f).
    rewrite <- append_assoc, (cut_app "#" _ f Hbq), (cut_app "?" b q Hb1).
    reflexivity.
  - rewrite append_empty, (cut_no_sep "#" _ Hbq), (cut_app "?" b q Hb1).
    reflexivity.
Qed.

Lemma getStartParam_href (u : URL) (value : string) :
  valid_base (u_base u) = true ->
  has_char "?" (u_base u) = false -> has_char "#" (u_base u) = false ->
  getStartParam valid_base
    (href (with_searchParams u (sp_set "start" value (searchParams u))))
  = match parseInt value with
    | Int n => Some n
    | NaN | Infinity _ => None
    end.
Proof.
  intros Hvalid Hb1 Hb2. unfold getStartParam, parse_url, with_searchParams.
  rewrite serialize_nonempty by apply sp_set_nonempty.
  rewrite split_url_href; try assumption.
  - simpl. rewrite Hvalid. unfold searchParams. simpl.
    rewrite parse_serialize, sp_get_set. reflexivity.
  - apply (all_chars_has_char query_char); [apply serialize_chars | reflexivity].
Qed.

Lemma start_param_written (url : string) (startVal : Z) :
  parse_url valid_base url <> None ->
  startVal <= 2 ^ 53 ->
  exists url',
    withStartParam valid_base resolve_base url startVal = Ok url' /\
    getStartParam valid_base url' = Some (Z.max 0 startVal).
Proof.
  intros Habs Hsafe. unfold withStartParam.
  destruct (parse_url valid_base url) as [u |] eqn:Hparse; [| contradiction].
  eexists. split; [reflexivity |].
  unfold parse_url in Hparse.
  pose proof (split_url_base url) as [Hb1 Hb2].
  destruct (split_url url) as [[b q] frag]. simpl in Hb1, Hb2.
  destruct (valid_base b) eqn:Hvalid; [| discriminate].
  injection Hparse as <-.
  rewrite getStartParam_href by assumption.
  rewrite parseInt_toString by lia. reflexivity.
Qed.

(** C10, as the code has it. For an absolute URL [url] and a safe integer
    [startVal] (at most [2^53]), [withStartParam] returns a URL whose start
    parameter reads as [startVal], or as [0] when [startVal] is negative; so
    the start parameter of the URL of the next page is that of the current
    one plus [pageSize], as long as [pageSize] is a safe integer and this sum
    is one that is not negative. *)
Theorem start_param_round_trip (url : string) (startVal pageSize : Z) :
  parse_url valid_base url <> None ->
  startVal <= 2 ^ 53 ->
  Z.abs pageSize <= 2 ^ 53 ->
  0 <= current_start valid_base url + pageSize <= 2 ^ 53 ->
  (exists url',
      withStartParam valid_base resolve_base url startVal = Ok url' /\
      getStartParam valid_base url' = Some (Z.max 0 startVal)) /\
  (exists nextUrl,
      next_page_url valid_base resolve_base url pageSize = Ok nextUrl /\
      getStartParam valid_base nextUrl
      = Some (current_start valid_base url + pageSize)).
Proof.
  intros Habs Hsafe Hpage Hrange. split.
  - now apply start_param_written.
  - unfold next_page_url. fold (current_start valid_base url). cbv zeta.
    unfold num_add. rewrite round_int_safe by lia.
    destruct (start_param_written url (current_start valid_base url + pageSize) Habs)
      as (nextUrl & Hwith & Hget); [lia |].
    exists nextUrl. split; [exact Hwith |]. rewrite Hget. f_equal. lia.
Qed.

End StartParamProofs.

Section StartParamScenarios.
Import JS AuthenticatedScraper.

Lemma start_param_round_trip_witness :
  (exists url',
      withStartParam https_base no_relative search_url 50 = Ok url' /\
      getStartParam https_base url' = Some (Z.max 0 50)) /\
  (exists nextUrl,
      next_page_url https_base no_relative search_url 25 = Ok nextUrl /\
      getStartParam https_base nextUrl
      = Some (current_start https_base search_url + 25)).
Proof.
  assert (E : current_start https_base search_url = 25) by reflexivity.
  apply (start_param_round_trip https_base no_relative search_url 50 25).
  - vm_compute. discriminate.
  - vm_compute. discriminate.
  - vm_compute. discriminate.
  - rewrite E. split; vm_compute; discriminate.
Defined.

Example next_page_of_search_url :
  next_page_url https_base no_relative search_url 25
  = Ok "https://www.linkedin.com/jobs/search/?keywords=dev&start=50#results".
Proof. reflexivity. Qed.

Example withStartParam_search_url :
  withStartParam https_base no_relative search_url 50
  = Ok "https://www.linkedin.com/jobs/search/?keywords=dev&start=50#results".
Proof. reflexivity. Qed.

(** What [getStartParam] reads where the text is not a plain run of digits:
    white space before the number is skipped, whether one byte or the UTF-8
    encoding of a no-break space; a byte A0 alone is not white space; a
    number too large for a double is [Infinity], which is not returned; and
    an integer above [2^53] is read as the double nearest to it. *)
Example getStartParam_texts :
  getStartParam https_base "https://www.linkedin.com/jobs/search/?start=+75" = Some 75 /\
  getStartParam https_base "https://www.linkedin.com/jobs/search/?start=%C2%A075" = Some 75 /\
  getStartParam https_base "https://www.linkedin.com/jobs/search/?start=%A075" = None /\
  getStartParam https_base
    ("https://www.linkedin.com/jobs/search/?start=" ++ decimal (10 ^ 400)) = None /\
  getStartParam https_base
    "https://www.linkedin.com/jobs/search/?start=9007199254740993"
  = Some 9007199254740992.
Proof. vm_compute. repeat split. Qed.

(** C10 as stated fails, in both of its parts. From [10^21] on [String]
    writes a number in exponent notation, and [parseInt] reads the digits
    before the first character that is not one: with [startVal = 10^21] the
    start parameter is ["1e+21"] and reads as [1]. And above [2^53] a sum is
    rounded to a double: from a start of [2^53] a page of 25 leads to a
    start of [2^53 + 24]. *)
Lemma start_param_exponent_notation :
  (withStartParam https_base no_relative search_url (10 ^ 21)
   = Ok "https://www.linkedin.com/jobs/search/?keywords=dev&start=1e%2B21#results" /\
   getStartParam https_base
     "https://www.linkedin.com/jobs/search/?keywords=dev&start=1e%2B21#results"
   = Some 1 /\
   Some 1 <> Some (10 ^ 21)) /\
  (current_start https_base
     "https://www.linkedin.com/jobs/search/?start=9007199254740992"
   = 2 ^ 53 /\
   next_page_url https_base no_relative
     "https://www.linkedin.com/jobs/search/?start=9007199254740992" 25
   = Ok "https://www.linkedin.com/jobs/search/?start=9007199254741016" /\
   getStartParam https_base
     "https://www.linkedin.com/jobs/search/?start=9007199254741016"
   = Some (2 ^ 53 + 24) /\
   Some (2 ^ 53 + 24) <> Some (2 ^ 53 + 25)).
Proof.
  split.
  - split; [vm_compute; reflexivity |]. split; [vm_compute; reflexivity |].
    vm_compute. discriminate.
  - split; [vm_compute; reflexivity |]. split; [vm_compute; reflexivity |].
    split; [vm_compute; reflexivity |]. vm_compute. discriminate.
Qed.

End StartParamScenarios.

(** * Further properties *)

(** ** The orchestrator: what is retried, how often, and what is returned *)

Section RetryMore.
Import JS Utils.
Import EnhancedScraper(EnhancedScraperConfig, base, ScraperHandle, scraper_new,
  scraper_initialize, scraper_scrapeJobs, scraper_close, attempt_once,
  retry_loop, scrapeJobsWithRetry).

(** X1. An error that [scrapeJobs] of the custom scraper treats as a crash
    and rethrows is one that [shouldRetry] accepts while [attempt] is below
    [maxRetries]. *)
Theorem crash_error_is_retried (error : JsError) (attempt maxRetries : Z) :
  CustomScraper.isCrashError error = true ->
  attempt < maxRetries ->
  shouldRetry error attempt maxRetries = true.
Proof.
  intros Hcrash Hlt. rewrite shouldRetry_spec.
  assert (E : (attempt <? maxRetries) = true) by lia. rewrite E. simpl.
  unfold CustomScraper.isCrashError in Hcrash. unfold retryable_signature.
  rewrite !orb_true_iff in *. tauto.
Qed.

Lemma crash_error_is_retried_witness :
  shouldRetry closed_error 0 2 = true.
Proof.
  apply (crash_error_is_retried closed_error 0 2); [reflexivity | lia].
Defined.

Context {W : Type} `{ScraperHandle W}.
Variable config : EnhancedScraperConfig.

Lemma attempt_once_scrapes_once params attempt (st : St W) :
  (count_events is_scrape (trace (snd (attempt_once config params attempt st)))
   <= S (count_events is_scrape (trace st)))%nat.
Proof.
  unfold attempt_once, EnhancedScraper.close, EnhancedScraper.initialize.
  unfold bind, ret, call, emit, update.
  destruct (attempt >? 0); simpl.
  - match goal with
    | |- context [scraper_initialize ?w] =>
        destruct (scraper_initialize w) as [[[] | e] w1]; simpl
    end.
    + destruct (scraper_scrapeJobs params w1) as [[jobs | e] w2]; simpl;
        rewrite !count_events_snoc; simpl; lia.
    + rewrite !count_events_snoc; simpl; lia.
  - destruct (scraper_scrapeJobs params (world st)) as [[jobs | e] w2]; simpl;
      rewrite !count_events_snoc; simpl; lia.
Qed.

Lemma retry_loop_scrapes params maxRetries (n : nat) :
  forall attempt (st : St W),
    steps_left (maxRetries + 1) attempt = n ->
    (count_events is_scrape (trace (snd (retry_loop config params maxRetries attempt st)))
     <= count_events is_scrape (trace st) + n)%nat.
Proof.
  induction n as [n IH] using lt_wf_ind. intros attempt st Hn.
  rewrite retry_loop_unfold.
  destruct (Z.leb_spec attempt maxRetries) as [Hle | Hgt]; [| simpl; lia].
  pose proof (attempt_once_scrapes_once params attempt st) as Hone.
  destruct (attempt_once config params attempt st) as [[jobs | error] st1];
    simpl in Hone.
  - simpl. subst n. unfold steps_left. lia.
  - cbv zeta.
    set (st2 := if isRateLimited error then snd (randomDelay 5000 10000 st1) else st1).
    assert (H2 : count_events is_scrape (trace st2) = count_events is_scrape (trace st1)).
    { subst st2. destruct (isRateLimited error); [| reflexivity].
      unfold randomDelay, emit. simpl. rewrite count_events_snoc. simpl. lia. }
    destruct (negb (shouldRetry error attempt maxRetries)).
    + simpl. rewrite H2. subst n. unfold steps_left. lia.
    + set (st3 := if attempt + 1 <=? maxRetries
                  then snd (emit (Backoff (attempt + 1)) st2) else st2).
      assert (H3 : count_events is_scrape (trace st3) = count_events is_scrape (trace st2)).
      { subst st3. destruct (attempt + 1 <=? maxRetries); [| reflexivity].
        unfold emit. simpl. rewrite count_events_snoc. simpl. lia. }
      assert (Hdec : (steps_left (maxRetries + 1) (attempt + 1) < n)%nat)
        by (subst n; unfold steps_left; lia).
      pose proof (IH _ Hdec (attempt + 1) st3 eq_refl) as Hrec.
      rewrite H3, H2 in Hrec. subst n. unfold steps_left in *. lia.
Qed.

(** X2. [scrapeJobsWithRetry] calls [scrapeJobs] at most [maxRetries + 1]
    times, whatever the scraper does. *)
Theorem scrapeJobsWithRetry_attempts_bounded params (st : St W) :
  (count_events is_scrape (trace (snd (scrapeJobsWithRetry config params st)))
   <= count_events is_scrape (trace st)
      + Z.to_nat (num_or (CustomScraper.maxRetries (base config)) 3 + 1))%nat.
Proof.
  unfold scrapeJobsWithRetry, bind.
  pose proof (retry_loop_scrapes params
                (num_or (CustomScraper.maxRetries (base config)) 3) _ 0 st eq_refl)
    as Hloop.
  destruct (retry_loop config params _ 0 st) as [[[jobs |] | e] st1];
    simpl in *; unfold steps_left in Hloop;
    replace (num_or (CustomScraper.maxRetries (base config)) 3 + 1 - 0)
      with (num_or (CustomScraper.maxRetries (base config)) 3 + 1) in Hloop by lia;
    exact Hloop.
Qed.

Lemma attempt_once_validated params attempt (st : St W) jobs st1 :
  attempt_once config params attempt st = (Ok jobs, st1) ->
  Forall accepted jobs.
Proof.
  unfold attempt_once. intros Hrun.
  apply bind_ok_inv in Hrun as (? & st0 & _ & Hrun).
  apply bind_ok_inv in Hrun as (raw & st0' & _ & Hrun).
  injection Hrun as <- _.
  apply Forall_map, Forall_forall. intros job Hin.
  apply filter_In in Hin. now apply sanitized_accepted.
Qed.

Lemma retry_loop_validated params maxRetries (n : nat) :
  forall attempt (st : St W) jobs st',
    steps_left (maxRetries + 1) attempt = n ->
    retry_loop config params maxRetries attempt st = (Ok (Some jobs), st') ->
    Forall accepted jobs.
Proof.
  induction n as [n IH] using lt_wf_ind. intros attempt st jobs st' Hn.
  rewrite retry_loop_unfold.
  destruct (Z.leb_spec attempt maxRetries) as [Hle | Hgt]; [| discriminate].
  destruct (attempt_once config params attempt st) as [[jobs0 | error] st1] eqn:Hatt.
  - intros Hrun. injection Hrun as <- _. eapply attempt_once_validated, Hatt.
  - cbv zeta. destruct (negb (shouldRetry error attempt maxRetries)); [discriminate |].
    apply (IH (steps_left (maxRetries + 1) (attempt + 1))); [| reflexivity].
    subst n. unfold steps_left. lia.
Qed.

(** X3. Every record [scrapeJobsWithRetry] returns, at whichever attempt,
    passes [isValidJobData] and has its listed fields non-empty. *)
Theorem scrapeJobsWithRetry_returns_accepted params (st : St W) jobs st' :
  scrapeJobsWithRetry config params st = (Ok jobs, st') ->
  Forall accepted jobs.
Proof.
  unfold scrapeJobsWithRetry. intros Hrun.
  apply bind_ok_inv in Hrun as ([jobs0 |] & st1 & Hloop & Hrun); [| discriminate].
  injection Hrun as <- _.
  eapply retry_loop_validated; [reflexivity | exact Hloop].
Qed.

End RetryMore.

Section RetryThenSuccess.
Import JS Utils.
Import EnhancedScraper(EnhancedScraperConfig, base, ScraperHandle, scraper_new,
  scraper_initialize, scraper_scrapeJobs, scraper_close, attempt_once,
  retry_loop, scrapeJobsWithRetry).
Context {W : Type} `{ScraperHandle W}.
Variable config : EnhancedScraperConfig.

(** X4. When the first attempt throws a retryable error and a budget is
    left, the orchestrator waits (first the cooldown, if the error is a rate
    limit, then the backoff of attempt 1), closes the scraper, pauses two
    seconds, initialises a new scraper and scrapes again; when this second
    attempt succeeds its validated records are returned. *)
Theorem retry_after_failure_succeeds
    params (st : St W) (error : JsError) (w1 w2 w3 : W) (jobs : list JobData) :
  1 <= num_or (CustomScraper.maxRetries (base config)) 3 ->
  scraper_scrapeJobs params (world st) = (Throw error, w1) ->
  retryable_signature error = true ->
  scraper_initialize (scraper_new (base config) (scraper_close w1)) = (Ok tt, w2) ->
  scraper_scrapeJobs params w2 = (Ok jobs, w3) ->
  scrapeJobsWithRetry config params st
  = (Ok (map sanitizeJobData (filter isValidJobData jobs)),
     mkSt w3
       (trace st ++ [ScraperScrapeJobs]
        ++ (if isRateLimited error then [RandomDelay 5000 10000] else [])
        ++ [Backoff 1; ScraperClose; Sleep 2000; ScraperInitialize;
            ScraperScrapeJobs])%list).
Proof.
  intros Hmax Hfail Hsig Hinit Hok.
  unfold scrapeJobsWithRetry.
  set (maxRetries := num_or (CustomScraper.maxRetries (base config)) 3) in *.
  assert (Hloop :
    retry_loop config params maxRetries 0 st
    = (Ok (Some (map sanitizeJobData (filter isValidJobData jobs))),
       mkSt w3
         (trace st ++ [ScraperScrapeJobs]
          ++ (if isRateLimited error then [RandomDelay 5000 10000] else [])
          ++ [Backoff 1; ScraperClose; Sleep 2000; ScraperInitialize;
              ScraperScrapeJobs])%list)).
  { rewrite retry_loop_unfold, attempt_once_first, Hfail.
    assert (E0 : (0 <=? maxRetries) = true) by lia. rewrite E0.
    rewrite shouldRetry_spec, Hsig.
    assert (E1 : (0 <? maxRetries) = true) by lia. rewrite E1. cbv zeta. simpl negb.
    cbv iota.
    assert (E2 : (0 + 1 <=? maxRetries) = true) by lia. rewrite E2.
    rewrite retry_loop_unfold. rewrite E2.
    unfold attempt_once, EnhancedScraper.close, EnhancedScraper.initialize.
    unfold bind, ret, call, emit, update, randomDelay.
    destruct (isRateLimited error); simpl; rewrite Hinit; simpl; rewrite Hok;
      simpl; rewrite <- ?app_assoc; reflexivity. }
  unfold bind. rewrite Hloop. reflexivity.
Qed.

End RetryThenSuccess.

Section BatchMore.
Import JS Utils.
Import EnhancedScraper(EnhancedScraperConfig, base, ScraperHandle, scraper_new,
  scraper_initialize, scraper_scrapeJobs, scraper_close, scrapeJobsWithRetry,
  search_delay, batch_loop, batchScrapeJobs, createEnhancedScraper).
Import Index.
Context {W : Type} `{ScraperHandle W}.
Variable config : EnhancedScraperConfig.

Lemma request_outcomes_accepted (jobParams : list SearchRequest) :
  forall st : St W,
    Forall accepted (concat (map records_of (request_outcomes config jobParams st))).
Proof.
  induction jobParams as [| params rest IH]; intros st; simpl; [constructor |].
  destruct (scrapeJobsWithRetry config params st) as [[jobs | e] st1] eqn:Hrun; simpl.
  - apply Forall_app. split; [| apply IH].
    unfold scrapeJobsWithRetry in Hrun.
    apply bind_ok_inv in Hrun as ([jobs0 |] & st2 & Hloop & Hrun); [| discriminate].
    injection Hrun as <- _.
    eapply retry_loop_validated; [reflexivity | exact Hloop].
  - apply IH.
Qed.

(** X5. Every record a batch returns passes [isValidJobData] and has its
    listed fields non-empty. *)
Theorem batchScrapeJobs_returns_accepted (jobParams : list SearchRequest) (st : St W) :
  match fst (batchScrapeJobs config jobParams st) with
  | Ok allJobs => Forall accepted allJobs
  | Throw _ => False
  end.
Proof.
  unfold batchScrapeJobs. rewrite batch_loop_spec.
  apply request_outcomes_accepted.
Qed.

(** X6. Once its scraper is created, [runBatchJobScraper] does not throw:
    it returns the concatenation of the records of the requests that
    succeeded, and the last thing it does is close the scraper. *)
Theorem runBatchJobScraper_returns
    (searchParams : list SearchRequest) (st0 st1 : St W)
    (scraper : EnhancedScraperConfig) :
  createEnhancedScraper batch_config st0 = (Ok scraper, st1) ->
  fst (runBatchJobScraper searchParams st0)
  = Ok (concat (map records_of (request_outcomes scraper searchParams st1))) /\
  exists t, trace (snd (runBatchJobScraper searchParams st0)) = (t ++ [ScraperClose])%list.
Proof.
  intros Hcreate. unfold runBatchJobScraper.
  rewrite (bind_ok _ _ _ _ _ Hcreate). unfold ensuring, catch, bind.
  pose proof (batch_loop_spec scraper searchParams [] st1) as Hbatch.
  fold (batchScrapeJobs scraper searchParams) in Hbatch.
  destruct (batchScrapeJobs scraper searchParams st1) as [[allJobs | e] st2];
    simpl in Hbatch; [| discriminate].
  injection Hbatch as ->. unfold ret. simpl. split; [reflexivity | eauto].
Qed.

End BatchMore.

Section RunJobScraperMore.
Import JS Utils.
Import EnhancedScraper(EnhancedScraperConfig, base, ScraperHandle, scraper_new,
  scraper_initialize, scraper_scrapeJobs, scraper_close, scrapeJobsWithRetry,
  createEnhancedScraper).
Import Index.
Context {W : Type} `{ScraperHandle W} `{SimpleScraper W}.

(** X7. When the primary path succeeds, [runJobScraper] returns its records
    in the legacy shape, in the same order, closes the scraper and does
    nothing else: the simple scraper is not touched. *)
Theorem runJobScraper_primary_success
    position location offset companyJobsUrl
    (st0 st1 st2 : St W) (scraper : EnhancedScraperConfig) (jobs : list JobData) :
  createEnhancedScraper legacy_config st0 = (Ok scraper, st1) ->
  scrapeJobsWithRetry scraper
    (mkRequest position location offset companyJobsUrl (Some 100)) st1
  = (Ok jobs, st2) ->
  runJobScraper position location offset companyJobsUrl st0
  = (Ok (map legacy_of_job jobs),
     mkSt (scraper_close (world st2)) (trace st2 ++ [ScraperClose])).
Proof.
  intros Hcreate Hprimary. unfold runJobScraper.
  rewrite (bind_ok _ _ _ _ _ Hcreate). unfold ensuring.
  rewrite (catch_ok _ _ _ _ _ (bind_ok _ _ _ _ _ Hprimary)).
  reflexivity.
Qed.

(** X8. [runJobScraper] closes the enhanced scraper on every path: once the
    scraper is created, the last call is its [close], whether the primary
    path or the fallback returned or both threw; and when the creation
    throws, that error is thrown and nothing else is called. *)
Theorem runJobScraper_closes_scraper
    position location offset companyJobsUrl (st0 : St W) :
  match createEnhancedScraper legacy_config st0 with
  | (Ok _, _) =>
      exists t,
        trace (snd (runJobScraper position location offset companyJobsUrl st0))
        = (t ++ [ScraperClose])%list
  | (Throw e, st1) =>
      runJobScraper position location offset companyJobsUrl st0 = (Throw e, st1)
  end.
Proof.
  unfold runJobScraper.
  destruct (createEnhancedScraper legacy_config st0) as [[scraper | e] st1] eqn:Hc;
    [rewrite (bind_ok _ _ _ _ _ Hc) | now rewrite (bind_throw _ _ _ _ _ Hc)].
  unfold ensuring.
  match goal with
  | |- context [catch ?m ?h st1] => destruct (catch m h st1) as [r st2]
  end.
  simpl. eauto.
Qed.

End RunJobScraperMore.

Section OrchestratorMoreScenarios.
Import JS Utils.
Import EnhancedScraper(EnhancedScraperConfig, base, ScraperHandle, scraper_new,
  scraper_initialize, scraper_scrapeJobs, scraper_close, scrapeJobsWithRetry,
  batchScrapeJobs, createEnhancedScraper).
Import Index.

Lemma scrapeJobsWithRetry_returns_accepted_witness :
  Forall accepted (map sanitizeJobData austin_jobs).
Proof.
  apply (scrapeJobsWithRetry_returns_accepted two_retries
           (request "Austin, TX" (Some 10)) (start three_cities)
           (map sanitizeJobData austin_jobs)
           (snd (scrapeJobsWithRetry two_retries (request "Austin, TX" (Some 10))
                   (start three_cities)))).
  reflexivity.
Defined.

Lemma retry_after_failure_succeeds_witness :
  scrapeJobsWithRetry two_retries (request "Austin, TX" (Some 10))
    (start [Throw closed_error; Ok austin_jobs])
  = (Ok (map sanitizeJobData (filter isValidJobData austin_jobs)),
     mkSt []
       ([] ++ [ScraperScrapeJobs]
        ++ (if isRateLimited closed_error then [RandomDelay 5000 10000] else [])
        ++ [Backoff 1; ScraperClose; Sleep 2000; ScraperInitialize;
            ScraperScrapeJobs])%list).
Proof.
  apply (retry_after_failure_succeeds two_retries
           (request "Austin, TX" (Some 10))
           (start [Throw closed_error; Ok austin_jobs])
           closed_error [Ok austin_jobs] [Ok austin_jobs] [] austin_jobs).
  - vm_compute. discriminate.
  - reflexivity.
  - reflexivity.
  - reflexivity.
  - reflexivity.
Defined.

Lemma runBatchJobScraper_returns_witness :
  let searchParams := [request "Austin, TX" (Some 10); request "BAD" None;
                       request "Denver, CO" (Some 10)] in
  let st0 := start three_cities in
  let st1 := snd (createEnhancedScraper batch_config st0) in
  fst (runBatchJobScraper searchParams st0)
  = Ok (concat (map records_of
                  (request_outcomes (EnhancedScraper.new_config batch_config)
                     searchParams st1))) /\
  exists t, trace (snd (runBatchJobScraper searchParams st0)) = (t ++ [ScraperClose])%list.
Proof.
  intros searchParams st0 st1.
  apply (runBatchJobScraper_returns searchParams st0 st1
           (EnhancedScraper.new_config batch_config)).
  reflexivity.
Defined.

Lemma runJobScraper_primary_success_witness :
  let st0 := start three_cities in
  let st1 := snd (createEnhancedScraper legacy_config st0) in
  let st2 := snd (scrapeJobsWithRetry two_retries
                    (mkRequest None "Austin, TX" None None (Some 100)) st1) in
  runJobScraper None "Austin, TX" None None st0
  = (Ok (map legacy_of_job (map sanitizeJobData austin_jobs)),
     mkSt (scraper_close (world st2)) (trace st2 ++ [ScraperClose])).
Proof.
  intros st0 st1 st2.
  apply (runJobScraper_primary_success None "Austin, TX" None None
           st0 st1 st2 two_retries (map sanitizeJobData austin_jobs));
    reflexivity.
Defined.

End OrchestratorMoreScenarios.

(** ** The extraction pass *)

Section ExtractionMore.
Import JS Utils CustomScraper.

Lemma trimmed_or_empty_fixed (o : option string) :
  trim (or_else (opt_trim o) "") = or_else (opt_trim o) "".
Proof.
  destruct o as [s |]; simpl; [| reflexivity].
  destruct (trim s =? "")%string eqn:E; [reflexivity | apply trim_idempotent].
Qed.

Lemma absolute_link (rawLink : string) :
  startsWith
    (if startsWith rawLink "http" then rawLink
     else "https://www.linkedin.com" ++ rawLink) "http" = true.
Proof. destruct (startsWith rawLink "http") eqn:E; [exact E | reflexivity]. Qed.

Lemma extract_card_extracted acc el :
  Forall extracted (fst acc) -> Forall extracted (fst (extract_card acc el)).
Proof.
  destruct acc as [jobs seen]. cbn [fst]. intros Hjobs. unfold extract_card.
  fold (card_id el).
  destruct ((card_id el =? "")%string || existsb (String.eqb (card_id el)) seen) eqn:E;
    [exact Hjobs |].
  apply orb_false_iff in E as [Hid _].
  cbn [Utils.title truthy].
  destruct (or_else (opt_trim (title_text el)) "" =? "")%string eqn:Ht;
    cbn [negb fst]; [exact Hjobs |].
  apply Forall_app. split; [exact Hjobs |]. constructor; [| constructor].
  unfold extracted, trimmed. cbn [Utils.id Utils.title company Utils.link].
  repeat split.
  - cbn [truthy]. now rewrite Hid.
  - cbn [truthy]. now rewrite Ht.
  - apply trimmed_or_empty_fixed.
  - apply trimmed_or_empty_fixed.
  - apply absolute_link.
Qed.

Lemma fold_extract_extracted els :
  forall acc,
    Forall extracted (fst acc) ->
    Forall extracted (fst (fold_left extract_card els acc)).
Proof.
  induction els as [| el els IH]; intros acc Hacc; simpl; [exact Hacc |].
  apply IH, extract_card_extracted, Hacc.
Qed.

(** X9. Every record of an extraction pass has a non-empty id, a title
    that is not empty and is trimmed ([trim t = t]), a company that is
    trimmed (it may be empty) and a link that starts with ["http"]. *)
Theorem extract_jobs_extracted (els : list Card) :
  Forall extracted (extract_jobs els).
Proof.
  unfold extract_jobs. apply fold_extract_extracted. constructor.
Qed.

(** X10. An extracted record passes [isValidJobData] exactly when the card
    names a company: the orchestrator drops the records of the cards that
    do not, and no other. *)
Theorem extracted_valid_iff_company (els : list Card) :
  Forall (fun job => isValidJobData job = truthy (company job)) (extract_jobs els).
Proof.
  eapply Forall_impl;
    [| apply (fold_extract_extracted els ([], [])); constructor].
  intros job (Hid & Htitle & Htrim & Hcompany & _).
  unfold isValidJobData, trimmed in *. rewrite Hid, Htitle.
  destruct (Utils.title job) as [t |]; [| contradiction].
  destruct (company job) as [c |]; [| contradiction].
  cbn [trim_nonempty truthy] in *. rewrite Htrim, Hcompany, Htitle. simpl.
  now destruct (negb (c =? "")%string).
Qed.

Lemma fold_extract_app els1 els2 acc :
  fold_left extract_card (els1 ++ els2) acc
  = fold_left extract_card els2 (fold_left extract_card els1 acc).
Proof. apply fold_left_app. Qed.

Lemma extract_card_seen acc el i :
  In i (snd (extract_card acc el)) <->
  In i (snd acc) \/ (i <> EmptyString /\ i = card_id el).
Proof.
  destruct acc as [jobs seen]. unfold extract_card. fold (card_id el).
  destruct (String.eqb_spec (card_id el) "") as [Hempty | Hne]; cbn [orb snd].
  - split; [auto | intros [Hin | [Hi ->]]; [exact Hin | contradiction]].
  - destruct (existsb (String.eqb (card_id el)) seen) eqn:E; cbn [snd].
    + split; [auto |]. intros [Hin | [_ ->]]; [exact Hin |].
      apply existsb_exists in E as (x & Hx & Heq).
      apply String.eqb_eq in Heq. now subst x.
    + match goal with |- context [truthy ?t] => destruct (truthy t) end;
        cbn [snd In];
        (split; [intros [<- | Hin]; auto | intros [Hin | [_ ->]]; auto]).
Qed.

Lemma fold_extract_seen els :
  forall acc i,
    In i (snd (fold_left extract_card els acc)) <->
    In i (snd acc) \/ (i <> EmptyString /\ In i (map card_id els)).
Proof.
  induction els as [| el els IH]; intros acc i; simpl.
  - split; [auto | intros [Hin | [_ []]]; exact Hin].
  - rewrite IH, extract_card_seen. split.
    + intros [[Hin | [Hne ->]] | [Hne Hin]]; auto.
    + intros [Hin | [Hne [<- | Hin]]]; auto.
Qed.

(** X11. A card without id, or with the id of an earlier card, adds nothing
    to the pass: the first card of an id wins. *)
Theorem extract_jobs_skips_repeated (els : list Card) (el : Card) :
  card_id el = EmptyString \/ In (card_id el) (map card_id els) ->
  extract_jobs (els ++ [el]) = extract_jobs els.
Proof.
  intros Hrep. unfold extract_jobs. rewrite fold_extract_app. simpl.
  destruct (fold_left extract_card els ([], [])) as [jobs seen] eqn:Hfold.
  unfold extract_card. fold (card_id el).
  destruct (String.eqb_spec (card_id el) "") as [Hempty | Hne]; [reflexivity |].
  destruct Hrep as [Hempty | Hin]; [contradiction |].
  assert (Hseen : In (card_id el) seen).
  { pose proof (fold_extract_seen els ([], []) (card_id el)) as Hs.
    rewrite Hfold in Hs. simpl in Hs. apply Hs. right. now split. }
  assert (E : existsb (String.eqb (card_id el)) seen = true).
  { apply existsb_exists. exists (card_id el). split; [exact Hseen | apply String.eqb_refl]. }
  rewrite E. reflexivity.
Qed.

End ExtractionMore.

Section ExtractionMoreScenarios.
Import JS Utils CustomScraper.

Lemma extract_jobs_skips_repeated_witness :
  extract_jobs (firstn 2 seven_cards ++ [card "1" "Engineer again"])
  = extract_jobs (firstn 2 seven_cards).
Proof.
  apply (extract_jobs_skips_repeated (firstn 2 seven_cards) (card "1" "Engineer again")).
  right. left. reflexivity.
Defined.

End ExtractionMoreScenarios.

(** ** Counting the calls of the custom scraper *)

Section Counting.
Context {W : Type}.
Variable p : Event -> bool.

Lemma adds_ret {A} (a : A) : adds (W := W) p 0 (ret a).
Proof. intros st. simpl. lia. Qed.

Lemma adds_throw {A} (e : JsError) : adds (W := W) (A := A) p 0 (throw e).
Proof. intros st. simpl. lia. Qed.

Lemma adds_update (f : W -> W) : adds p 0 (update f).
Proof. intros st. simpl. lia. Qed.

Lemma adds_call {A} (ev : Event) (op : W -> Result A * W) :
  adds p (if p ev then 1 else 0) (call ev op).
Proof.
  intros st. unfold call. destruct (op (world st)) as [r w]. simpl.
  rewrite count_events_snoc. destruct (p ev); lia.
Qed.

Lemma adds_emit (ev : Event) : adds (W := W) p (if p ev then 1 else 0) (emit ev).
Proof.
  intros st. unfold emit. simpl. rewrite count_events_snoc. destruct (p ev); lia.
Qed.

Lemma adds_bind {A B} (m : M W A) (f : A -> M W B) (k1 k2 : nat) :
  adds p k1 m -> (forall a, adds p k2 (f a)) -> adds p (k1 + k2) (bind m f).
Proof.
  intros Hm Hf st. unfold bind. specialize (Hm st).
  destruct (m st) as [[a | e] st1]; simpl in *.
  - specialize (Hf a st1). lia.
  - lia.
Qed.

Lemma adds_catch {A} (m : M W A) (h : JsError -> M W A) (k1 k2 : nat) :
  adds p k1 m -> (forall e, adds p k2 (h e)) -> adds p (k1 + k2) (catch m h).
Proof.
  intros Hm Hh st. unfold catch. specialize (Hm st).
  destruct (m st) as [[a | e] st1]; simpl in *.
  - lia.
  - specialize (Hh e st1). lia.
Qed.

Lemma adds_if {A} (b : bool) (m1 m2 : M W A) (k1 k2 : nat) :
  adds p k1 m1 -> adds p k2 m2 -> adds p (Nat.max k1 k2) (if b then m1 else m2).
Proof.
  intros H1 H2 st. destruct b; [specialize (H1 st) | specialize (H2 st)]; lia.
Qed.

Lemma adds_weaken {A} (m : M W A) (k k' : nat) :
  (k <= k')%nat -> adds p k m -> adds p k' m.
Proof. intros Hle Hm st. specialize (Hm st). lia. Qed.

End Counting.

Ltac count_calls :=
  repeat first
    [ apply adds_ret | apply adds_throw | apply adds_update
    | apply adds_call | apply adds_emit
    | eapply adds_bind; [| intros ?]
    | eapply adds_catch; [| intros ?]
    | eapply adds_if ].

Section LoaderMore.
Import JS Utils.
Import CustomScraper(Playwright, scrollToBottom, waitForTimeout, countCards,
  scroll_loop, loadMoreJobs).
Context {W : Type} `{Playwright W}.

Lemma scroll_loop_scrolls currentJobCount (n : nat) :
  forall i newJobCount,
    steps_left 5 i = n ->
    adds is_scroll n (scroll_loop currentJobCount i newJobCount).
Proof.
  induction n as [n IH] using lt_wf_ind. intros i newJobCount Hn st.
  rewrite scroll_loop_unfold.
  destruct (Z.ltb_spec i 5) as [Hlt | Hge]; [| simpl; lia].
  assert (Hone : adds is_scroll 1
            (call ScrollToBottom scrollToBottom ;;
             call (WaitForTimeout 3000) (waitForTimeout 3000) ;;
             call CountCards countCards)%js).
  { eapply adds_weaken; [| count_calls]. simpl. lia. }
  specialize (Hone st).
  match type of Hone with
  | context [snd (?m st)] => destruct (m st) as [[c | e] st1]
  end; simpl in Hone.
  - destruct (c >? currentJobCount); [simpl; subst n; unfold steps_left; lia |].
    destruct (i =? 5 - 1); [simpl; subst n; unfold steps_left; lia |].
    pose proof (adds_call is_scroll (WaitForTimeout 2000) (waitForTimeout 2000) st1)
      as Hwait.
    destruct (call (WaitForTimeout 2000) (waitForTimeout 2000) st1) as [[[] | e] st2];
      simpl in Hwait.
    + assert (Hdec : (steps_left 5 (i + 1) < n)%nat)
        by (subst n; unfold steps_left; lia).
      pose proof (IH _ Hdec (i + 1) c eq_refl st2) as Hrec.
      subst n. unfold steps_left in *. lia.
    + simpl. subst n. unfold steps_left. lia.
  - simpl. subst n. unfold steps_left. lia.
Qed.

(** X12. [loadMoreJobs] never throws, and it scrolls at most five times,
    whatever the page does. *)
Theorem loadMoreJobs_scrolls_bounded (st : St W) :
  exists b st',
    loadMoreJobs st = (Ok b, st') /\
    (count_events is_scroll (trace st') <= count_events is_scroll (trace st) + 5)%nat.
Proof.
  assert (Hadds : adds is_scroll 5 loadMoreJobs).
  { unfold loadMoreJobs.
    eapply adds_weaken; [| eapply adds_catch; [eapply adds_bind |]].
    2: apply adds_call.
    2: intros c; apply (scroll_loop_scrolls c _ 0 c eq_refl).
    2: intros e; apply adds_ret.
    simpl. change (steps_left 5 0) with 5%nat. lia. }
  specialize (Hadds st).
  destruct (loadMoreJobs_returns st) as (b & st' & Hrun).
  rewrite Hrun in Hadds. simpl in Hadds. eauto.
Qed.

End LoaderMore.

Section ScrapeMore.
Import JS Utils.
Import CustomScraper(ScraperConfig, delayBetweenRequests, Playwright, hasContext,
  launchPersistentContext, contextClose, dropContext, newPage, addInitScript,
  goto, pageTitle, queryDismissButton, clickDismissButton, waitForTimeout,
  screenshot, waitForSelector, scrollToBottom, countCards, queryCards, pageClose,
  isCrashError, login_wall, buildSearchUrl, extract_jobs, close, initialize,
  ensureBrowserReady, setupStealth, extractJobsFromPage, scroll_loop,
  loadMoreJobs, Turn, Break, Continue, on_inner_error, scrape_turn, scrape_loop,
  dismiss_modal, scrape_page, on_error, close_page, scrapeJobs).
Context {W : Type} `{Playwright W}.
Variable config : ScraperConfig.

Lemma scrape_loop_cases targetLimit jobs scrollAttempts (st : St W) :
  scrape_loop config targetLimit jobs scrollAttempts st =
  if (Z.of_nat (length jobs) <? targetLimit) && (scrollAttempts <? 20) then
    match scrape_turn config targetLimit jobs st with
    | (Throw e, st1) => (Throw e, st1)
    | (Ok (Break jobs), st1) => (Ok jobs, st1)
    | (Ok (Continue jobs), st1) =>
        scrape_loop config targetLimit jobs (scrollAttempts + 1) st1
    end
  else (Ok jobs, st).
Proof.
  simp scrape_loop.
  destruct (Z_lt_dec scrollAttempts 20) as [Hlt | Hge]; simpl.
  - assert (E : (scrollAttempts <? 20) = true) by lia. rewrite E, andb_true_r.
    reflexivity.
  - assert (E : (scrollAttempts <? 20) = false) by lia. rewrite E, andb_false_r.
    reflexivity.
Qed.

Ltac no_extract known :=
  eapply adds_weaken;
  [| unfold quietly;
     repeat first
       [ known | apply adds_ret | apply adds_throw | apply adds_update
       | apply adds_call | apply adds_emit
       | eapply adds_bind; [| intros ?]
       | eapply adds_catch; [| intros ?]
       | eapply adds_if ] ];
  simpl; lia.

Lemma close_no_extract : adds is_extract 0 (close (W := W)).
Proof.
  intros st. unfold close. destruct (hasContext (world st)); [| simpl; lia].
  revert st. no_extract fail.
Qed.

Lemma initialize_no_extract : adds is_extract 0 (initialize (W := W)).
Proof. unfold initialize. no_extract ltac:(apply close_no_extract). Qed.

Lemma ensureBrowserReady_no_extract : adds is_extract 0 (ensureBrowserReady (W := W)).
Proof.
  intros st. unfold ensureBrowserReady.
  destruct (negb (hasContext (world st))); [apply initialize_no_extract | simpl; lia].
Qed.

Lemma loadMoreJobs_no_extract : adds is_extract 0 (loadMoreJobs (W := W)).
Proof.
  assert (Hloop : forall c (n : nat) i nj,
            steps_left 5 i = n -> adds is_extract 0 (scroll_loop c i nj)).
  { intros c. induction n as [n IH] using lt_wf_ind. intros i nj Hn st.
    rewrite scroll_loop_unfold.
    destruct (Z.ltb_spec i 5) as [Hlt | Hge]; [| simpl; lia].
    assert (Hone : adds is_extract 0
              (call ScrollToBottom scrollToBottom ;;
               call (WaitForTimeout 3000) (waitForTimeout 3000) ;;
               call CountCards countCards)%js) by no_extract fail.
    specialize (Hone st).
    match type of Hone with
    | context [snd (?m st)] => destruct (m st) as [[c1 | e] st1]
    end; simpl in Hone; [| exact Hone].
    destruct (c1 >? c); [exact Hone |].
    destruct (i =? 5 - 1); [exact Hone |].
    pose proof (adds_call is_extract (WaitForTimeout 2000) (waitForTimeout 2000) st1)
      as Hwait.
    destruct (call (WaitForTimeout 2000) (waitForTimeout 2000) st1) as [[[] | e] st2];
      simpl in Hwait; [| simpl; lia].
    assert (Hdec : (steps_left 5 (i + 1) < n)%nat)
      by (subst n; unfold steps_left; lia).
    pose proof (IH _ Hdec (i + 1) c1 eq_refl st2) as Hrec. lia. }
  unfold loadMoreJobs.
  no_extract ltac:(apply (Hloop _ _ 0 _ eq_refl)).
Qed.

Lemma on_inner_error_no_extract jobs innerErr :
  adds is_extract 0 (on_inner_error (W := W) jobs innerErr).
Proof. unfold on_inner_error. no_extract fail. Qed.

Lemma scrape_turn_extracts_once targetLimit jobs :
  adds is_extract 1 (scrape_turn config targetLimit jobs).
Proof.
  intros st. unfold scrape_turn, extractJobsFromPage.
  assert (Hone : adds is_extract 1
            (els <- call QueryCards queryCards ;; ret (extract_jobs els))%js)
    by no_extract fail.
  specialize (Hone st).
  match type of Hone with
  | context [snd (?m st)] => destruct (m st) as [[newJobs | e] st1]
  end; simpl in Hone.
  - match goal with
    | |- context [catch ?m ?h st1] =>
        assert (Hrest : adds is_extract 0 (catch m h))
    end.
    { unfold randomDelay.
      no_extract ltac:(first [apply loadMoreJobs_no_extract
                             | apply on_inner_error_no_extract]). }
    specialize (Hrest st1). simpl in Hrest. lia.
  - pose proof (on_inner_error_no_extract jobs e st1). lia.
Qed.

Lemma scrape_loop_extracts targetLimit (n : nat) :
  forall jobs scrollAttempts,
    steps_left 20 scrollAttempts = n ->
    adds is_extract n (scrape_loop config targetLimit jobs scrollAttempts).
Proof.
  induction n as [n IH] using lt_wf_ind. intros jobs scrollAttempts Hn st.
  rewrite scrape_loop_cases.
  destruct (Z.of_nat (length jobs) <? targetLimit); [| simpl; lia].
  destruct (Z.ltb_spec scrollAttempts 20) as [Hlt | Hge]; [| simpl; lia].
  cbn [andb].
  pose proof (scrape_turn_extracts_once targetLimit jobs st) as Hturn.
  destruct (scrape_turn config targetLimit jobs st) as [[[jobs1 | jobs1] | e] st1];
    simpl in Hturn.
  - simpl. subst n. unfold steps_left. lia.
  - assert (Hdec : (steps_left 20 (scrollAttempts + 1) < n)%nat)
      by (subst n; unfold steps_left; lia).
    pose proof (IH _ Hdec jobs1 (scrollAttempts + 1) eq_refl st1) as Hrec.
    subst n. unfold steps_left in *. lia.
  - simpl. subst n. unfold steps_left. lia.
Qed.

Lemma scrape_page_extracts params :
  adds is_extract 20 (scrape_page config params).
Proof.
  unfold scrape_page, setupStealth, dismiss_modal.
  no_extract ltac:(apply (scrape_loop_extracts _ _ [] 0 eq_refl)).
Qed.

Lemma on_error_no_extract err : adds is_extract 0 (on_error (W := W) err).
Proof. unfold on_error. no_extract ltac:(apply initialize_no_extract). Qed.

(** X13. One call of [scrapeJobs] makes at most twenty extraction passes,
    whatever the page does and whatever limit is asked for. *)
Theorem scrapeJobs_passes_bounded params :
  adds is_extract 20 (scrapeJobs config params).
Proof.
  unfold scrapeJobs.
  change 20%nat with (0 + 20)%nat.
  apply adds_bind; [apply ensureBrowserReady_no_extract |]. intros _ st.
  pose proof (adds_call is_extract NewPage newPage st) as Hnew.
  destruct (call NewPage newPage st) as [[[] | err] st1]; simpl in Hnew.
  - unfold ensuring.
    assert (Hpage : adds is_extract 20 (catch (scrape_page config params) on_error)).
    { change 20%nat with (20 + 0)%nat.
      apply adds_catch; [apply scrape_page_extracts | apply on_error_no_extract]. }
    specialize (Hpage st1).
    destruct (catch (scrape_page config params) on_error st1) as [r st2].
    simpl in Hpage. unfold close_page.
    assert (Hclose : adds is_extract 0 (quietly (call PageClose pageClose)))
      by no_extract fail.
    specialize (Hclose st2). simpl in *. lia.
  - pose proof (on_error_no_extract err st1). lia.
Qed.

(** X14. Once [newPage] has returned, [scrapeJobs] closes the page on every
    path: the last call it makes is [page.close()], whether the block
    returned or threw, and whether the browser was relaunched or not. *)
Theorem scrapeJobs_closes_page params (st st0 : St W) (w1 : W) :
  ensureBrowserReady st = (Ok tt, st0) ->
  newPage (world st0) = (Ok tt, w1) ->
  exists t,
    trace (snd (scrapeJobs config params st)) = (t ++ [PageClose])%list.
Proof.
  intros Hready Hnew. unfold scrapeJobs.
  rewrite (bind_ok _ _ _ _ _ Hready). unfold call at 1. rewrite Hnew.
  unfold ensuring.
  destruct (catch (scrape_page config params) on_error _) as [r st2].
  unfold close_page, quietly, catch, call.
  destruct (pageClose (world st2)) as [[[] | e] w3]; simpl; eauto.
Qed.

End ScrapeMore.

Section ScrapeMoreScenarios.
Import JS Utils CustomScraper.

Lemma scrapeJobs_closes_page_witness :
  exists t,
    trace (snd (scrapeJobs default_scraper (request "Austin, TX" (Some 3))
                  (start growing_page)))
    = (t ++ [PageClose])%list.
Proof.
  apply (scrapeJobs_closes_page default_scraper (request "Austin, TX" (Some 3))
           (start growing_page) (start growing_page) growing_page);
    reflexivity.
Defined.

End ScrapeMoreScenarios.

Section ExtractionPrefix.
Import JS Utils CustomScraper.

Lemma extract_card_extends acc el :
  exists more, fst (extract_card acc el) = (fst acc ++ more)%list.
Proof.
  destruct acc as [jobs seen]. unfold extract_card.
  destruct (_ || _); [exists []; simpl; now rewrite app_nil_r |].
  match goal with |- context [truthy ?t] => destruct (truthy t) end;
    cbn [fst]; [eauto | exists []; now rewrite app_nil_r].
Qed.

Lemma fold_extract_extends els :
  forall acc,
    exists more, fst (fold_left extract_card els acc) = (fst acc ++ more)%list.
Proof.
  induction els as [| el els IH]; intros acc; simpl.
  - exists []. now rewrite app_nil_r.
  - destruct (IH (extract_card acc el)) as (more2 & H2).
    destruct (extract_card_extends acc el) as (more1 & H1).
    exists (more1 ++ more2)%list. now rewrite H2, H1, app_assoc.
Qed.

(** X15. A pass over a document that has grown starts with the records of
    the pass over the document before: the cards are read in document order
    and a record that was pushed stays. (So the second pass of [scrapeJobs]
    pushes the records of the first again.) *)
Theorem extract_jobs_grows (els more : list Card) :
  exists added, extract_jobs (els ++ more) = (extract_jobs els ++ added)%list.
Proof.
  unfold extract_jobs. rewrite fold_left_app.
  apply fold_extract_extends.
Qed.

End ExtractionPrefix.

(** ** The search URLs *)

Section SearchUrl.
Import JS Utils.

Lemma or_else_falsy (o : option string) (d : string) :
  truthy o = false -> or_else o d = d.
Proof.
  destruct o as [s |]; simpl; [| reflexivity].
  destruct (s =? "")%string; [reflexivity | discriminate].
Qed.

Lemma split_url_query (b : string) (l : list (string * string)) :
  has_char "?" b = false -> has_char "#" b = false ->
  split_url (b ++ "?" ++ serialize_urlencoded l)
  = (b, Some (serialize_urlencoded l), None).
Proof.
  intros Hb1 Hb2.
  pose proof (split_url_href b (serialize_urlencoded l) None Hb1 Hb2) as Hsplit.
  unfold href in Hsplit. cbn [u_base u_query u_fragment] in Hsplit.
  rewrite append_empty in Hsplit. apply Hsplit.
  apply (all_chars_has_char query_char); [apply serialize_chars | reflexivity].
Qed.

Lemma query_of_serialized (b : string) (l : list (string * string)) :
  has_char "?" b = false -> has_char "#" b = false ->
  query_of (b ++ "?" ++ serialize_urlencoded l) = l.
Proof.
  intros Hb1 Hb2. unfold query_of. rewrite split_url_query by assumption.
  apply parse_serialize.
Qed.

(** X16. What [buildSearchUrl] of the custom scraper writes can be read
    back: without a company URL, and with an offset whose start
    [(offset - 1) * 25] is a safe integer (at most [2^53]), the query of the
    URL it builds holds the position (if one is given), the location, the
    start of the page (from page 2 on) and the three fixed filters, in this
    order and with the values unchanged, whatever characters they are made
    of. *)
Theorem buildSearchUrl_read_back (params : SearchRequest) :
  truthy (companyJobsUrl params) = false ->
  match offset params with
  | Some o => (o - 1) * 25 <= 2 ^ 53
  | None => True
  end ->
  query_of (CustomScraper.buildSearchUrl params)
  = (pair_if_given "keywords" (position params)
     ++ [("location", req_location params)]
     ++ start_pair (offset params) ++ fixed_filters)%list.
Proof.
  intros Hcompany Hsafe. unfold CustomScraper.buildSearchUrl. cbv zeta.
  rewrite (or_else_falsy _ _ Hcompany).
  rewrite query_of_serialized by reflexivity.
  unfold pair_if_given, start_pair, fixed_filters, sp_append.
  destruct (truthy (position params));
    destruct (offset params) as [o |]; simpl; try reflexivity;
    destruct (Z.eqb_spec o 0) as [-> | Hne]; simpl; try reflexivity;
    destruct (Z.gtb_spec o 1); try reflexivity;
    cbv iota beta in Hsafe;
    unfold num_mul, num_sub;
    repeat match goal with
           | |- context [round_int (?a - ?b)] =>
               rewrite (round_int_safe (a - b)) by lia
           | |- context [round_int (?a * ?b)] =>
               rewrite (round_int_safe (a * b)) by lia
           end;
    reflexivity.
Qed.

End SearchUrl.

Section SearchUrlScenarios.
Import JS Utils.

Lemma buildSearchUrl_read_back_witness :
  query_of (CustomScraper.buildSearchUrl
              (mkRequest (Some "R&D engineer") "Austin, TX" (Some 3) None (Some 10)))
  = (pair_if_given "keywords" (Some "R&D engineer")
     ++ [("location", "Austin, TX")]
     ++ start_pair (Some 3) ++ fixed_filters)%list.
Proof.
  apply (buildSearchUrl_read_back
           (mkRequest (Some "R&D engineer") "Austin, TX" (Some 3) None (Some 10))).
  - reflexivity.
  - vm_compute. discriminate.
Defined.

(** Above [2^53] the start is the product as the doubles give it: page
    [2^53 + 2] starts at 225179981368524800, not at
    [(2^53 + 1) * 25 = 225179981368524825]. *)
Example buildSearchUrl_large_offset :
  query_of (CustomScraper.buildSearchUrl
              (mkRequest None "Austin, TX" (Some (2 ^ 53 + 2)) None None))
  = ([("location", "Austin, TX"); ("start", "225179981368524800")]
     ++ fixed_filters)%list.
Proof. vm_compute. reflexivity. Qed.

End SearchUrlScenarios.

Section FirstPageProofs.
Import JS AuthenticatedScraper.
Variable valid_base : string -> bool.
Variable resolve_base : string -> option string.

Lemma buildSearchUrl_absolute position location offset :
  valid_base "https://www.linkedin.com/jobs/search-results/" = true ->
  parse_url valid_base (buildSearchUrl position location offset None) <> None.
Proof.
  intros Hvalid. unfold buildSearchUrl. cbv zeta. cbn [truthy].
  match goal with
  | |- context [serialize_urlencoded ?l] =>
      change (parse_url valid_base
                ("https://www.linkedin.com/jobs/search-results/"
                 ++ "?" ++ serialize_urlencoded l) <> None)
  end.
  unfold parse_url. rewrite split_url_query by reflexivity.
  rewrite Hvalid. discriminate.
Qed.

(** X17. The URL the authenticated scraper navigates to first has its
    [start] parameter at [(startPage - 1) * pageSize], or at [0] when this is
    negative: what [buildSearchUrl] wrote there from [offset] is overwritten,
    so that without [startPage] the first page is read whatever [offset]
    is. *)
Theorem first_page_start (configPageSize : Z) (params : ScrapeParams) :
  truthy (url params) = false ->
  truthy (companyJobsUrl params) = false ->
  valid_base "https://www.linkedin.com/jobs/search-results/" = true ->
  Z.abs ((nullish (startPage params) 1 - 1)
         * nullish (pageSizeOverride params) configPageSize) <= 2 ^ 53 ->
  exists currentUrl,
    first_page_url valid_base resolve_base configPageSize params = Ok currentUrl /\
    getStartParam valid_base currentUrl
    = Some (Z.max 0 ((nullish (startPage params) 1 - 1)
                     * nullish (pageSizeOverride params) configPageSize)).
Proof.
  intros Hurl Hcompany Hvalid Hsafe. unfold first_page_url, base_url. cbv zeta.
  rewrite Hurl, Hcompany.
  set (startPage := nullish (AuthenticatedScraper.startPage params) 1) in *.
  set (pageSize := nullish (pageSizeOverride params) configPageSize) in *.
  clearbody startPage pageSize.
  assert (Hexact : num_mul (num_sub startPage 1) pageSize = (startPage - 1) * pageSize).
  { unfold num_mul, num_sub. destruct (Z.eq_dec pageSize 0) as [Hzero | Hne].
    - subst pageSize. rewrite !Z.mul_0_r. reflexivity.
    - rewrite (round_int_safe (startPage - 1)) by nia.
      apply round_int_safe. exact Hsafe. }
  rewrite Hexact.
  apply start_param_written; [now apply buildSearchUrl_absolute | lia].
Qed.

End FirstPageProofs.

Section PaginationProofs.
Import JS Utils AuthenticatedScraper.

(** X18. The pagination loop of the authenticated scraper stays within
    [targetLimit]: when the records held are at most [targetLimit], they are
    so after a page is added, and what the page adds is a prefix of its
    records. *)
Theorem add_page_within_limit (targetLimit : Z) (jobs newJobs : list JobData) :
  Z.of_nat (length jobs) <= targetLimit ->
  Z.of_nat (length (add_page targetLimit jobs newJobs)) <= targetLimit /\
  exists k, add_page targetLimit jobs newJobs = (jobs ++ firstn k newJobs)%list.
Proof.
  intros Hlen. unfold add_page. cbv zeta.
  destruct (Z.gtb_spec (targetLimit - Z.of_nat (length jobs)) 0) as [Hpos | Hfull].
  - unfold slice0.
    assert (E : (targetLimit - Z.of_nat (length jobs) <? 0) = false) by lia.
    rewrite E. split; [| eauto].
    rewrite length_app, length_firstn. lia.
  - split; [exact Hlen |]. exists 0%nat. simpl. now rewrite app_nil_r.
Qed.

End PaginationProofs.

Section FirstPageScenarios.
Import JS Utils AuthenticatedScraper.

Lemma first_page_start_witness :
  let params := mkScrapeParams (Some "dev") (Some "Austin, TX") (Some 3)
                  None None None (Some 100) None None in
  exists currentUrl,
    first_page_url https_base no_relative 25 params = Ok currentUrl /\
    getStartParam https_base currentUrl
    = Some (Z.max 0 ((nullish (startPage params) 1 - 1)
                     * nullish (pageSizeOverride params) 25)).
Proof.
  intros params.
  apply (first_page_start https_base no_relative 25 params);
    try reflexivity.
  vm_compute. discriminate.
Defined.

Example first_page_ignores_offset :
  first_page_url https_base no_relative 25
    (mkScrapeParams (Some "dev") (Some "Austin, TX") (Some 3)
       None None None (Some 100) None None)
  = Ok "https://www.linkedin.com/jobs/search-results/?keywords=dev&location=Austin%2C+TX&start=0&f_TPR=r604800&f_JT=F&f_WT=2%2C1%2C3".
Proof. reflexivity. Qed.

Lemma add_page_within_limit_witness :
  Z.of_nat (length (add_page 3 austin_jobs denver_jobs)) <= 3 /\
  exists k, add_page 3 austin_jobs denver_jobs = (austin_jobs ++ firstn k denver_jobs)%list.
Proof.
  apply (add_page_within_limit 3 austin_jobs denver_jobs).
  vm_compute. discriminate.
Defined.

End FirstPageScenarios.

(** ** Job ids in URLs *)

Section JobIds.
Import JS Utils.

Lemma leading_digits_all (s : string) :
  all_chars is_digit s = true -> leading_digits s = s.
Proof.
  induction s as [| c r IH]; simpl; [reflexivity |].
  intros Hall. apply andb_true_iff in Hall as [Hc Hr].
  now rewrite Hc, (IH Hr).
Qed.

Lemma leading_digits_digits (s : string) :
  all_chars is_digit (leading_digits s) = true.
Proof.
  induction s as [| c r IH]; simpl; [reflexivity |].
  destruct (is_digit c) eqn:Hc; simpl; [now rewrite Hc, IH | reflexivity].
Qed.

Lemma job_view_match_digits (s : string) (digits : string) :
  job_view_match s = Some digits ->
  all_chars is_digit digits = true /\ digits <> EmptyString.
Proof.
  induction s as [| c r IH]; simpl.
  - unfold job_view_here. simpl. discriminate.
  - destruct (job_view_here (String c r)) as [d |] eqn:Hhere; [| exact IH].
    intros Hd. injection Hd as <-. unfold job_view_here in Hhere.
    destruct (strip_prefix "/jobs/view/" (String c r)) as [rest |]; [| discriminate].
    cbv zeta in Hhere.
    destruct (String.eqb_spec (leading_digits rest) "") as [| Hne]; [discriminate |].
    injection Hhere as <-. split; [apply leading_digits_digits | exact Hne].
Qed.

(** X19. [extractJobIdFromUrl] returns decimal digits only: the id of the
    leftmost [/jobs/view/<digits>] of the URL, or the empty string. *)
Theorem extractJobIdFromUrl_digits (url : string) :
  all_chars is_digit (extractJobIdFromUrl url) = true.
Proof.
  unfold extractJobIdFromUrl.
  destruct (job_view_match url) as [digits |] eqn:Hmatch; [| reflexivity].
  now apply job_view_match_digits in Hmatch.
Qed.

(** X20. [extractJobIdFromUrl] undoes [buildLinkedInJobUrl] on an id made of
    decimal digits. *)
Theorem job_url_round_trip (jobId : string) :
  all_chars is_digit jobId = true ->
  extractJobIdFromUrl (buildLinkedInJobUrl jobId) = jobId.
Proof.
  intros Hall. unfold extractJobIdFromUrl, buildLinkedInJobUrl.
  destruct jobId as [| c r]; [reflexivity |].
  pose proof (leading_digits_all _ Hall) as Hlead.
  cbn [append job_view_match].
  assert (Hhere : job_view_here ("/jobs/view/" ++ String c r) = Some (String c r)).
  { unfold job_view_here. cbn [append strip_prefix Ascii.eqb Bool.eqb].
    cbv zeta. rewrite Hlead. reflexivity. }
  cbn [append] in Hhere.
  repeat match goal with
         | |- context [job_view_here ?s] =>
             first [ rewrite Hhere
                   | change (job_view_here s) with (@None string); cbv iota ]
         end.
  reflexivity.
Qed.

End JobIds.

Section JobIdScenarios.
Import JS Utils.

Lemma job_url_round_trip_witness :
  extractJobIdFromUrl (buildLinkedInJobUrl "3871234567") = "3871234567".
Proof. apply (job_url_round_trip "3871234567"). reflexivity. Defined.

Example extractJobIdFromUrl_search_result :
  extractJobIdFromUrl
    "https://www.linkedin.com/jobs/view/3871234567?refId=abc&trackingId=1"
  = "3871234567".
Proof. reflexivity. Qed.

End JobIdScenarios.

(** ** The records handed to the database *)

Section UniqueJobsProofs.
Import Handlers.
Variable Job : Type.
Variable job_id : Job -> option string.

Lemma strict_eq_eq (a b : option string) : strict_eq a b = true <-> a = b.
Proof.
  destruct a as [x |], b as [y |]; simpl; split; try discriminate; try reflexivity.
  - intros E. apply String.eqb_eq in E. now subst.
  - intros E. injection E as ->. apply String.eqb_refl.
Qed.

Lemma seen_spec (a : option string) (seen : list (option string)) :
  existsb (strict_eq a) seen = true <-> In a seen.
Proof.
  rewrite existsb_exists. split.
  - intros (b & Hin & E). apply strict_eq_eq in E. now subst.
  - intros Hin. exists a. split; [exact Hin | now apply strict_eq_eq].
Qed.

Lemma findIndex_from_first (p : Job -> bool) (pre : list Job) :
  forall index x rest,
    existsb p pre = false -> p x = true ->
    findIndex_from p index (pre ++ x :: rest) = index + Z.of_nat (length pre).
Proof.
  induction pre as [| y pre IH]; intros index x rest Hpre Hx; simpl.
  - rewrite Hx. lia.
  - simpl in Hpre. apply orb_false_iff in Hpre as [Hy Hpre].
    rewrite Hy, (IH _ _ _ Hpre Hx). lia.
Qed.

Lemma findIndex_from_before (p : Job -> bool) (pre : list Job) :
  forall index rest,
    existsb p pre = true ->
    findIndex_from p index (pre ++ rest) < index + Z.of_nat (length pre).
Proof.
  induction pre as [| y pre IH]; intros index rest Hpre; simpl in *; [discriminate |].
  destruct (p y); [lia |].
  simpl in Hpre. specialize (IH (index + 1) rest Hpre). lia.
Qed.

Lemma existsb_same_id (x : Job) (pre : list Job) :
  existsb (fun j => strict_eq (job_id j) (job_id x)) pre
  = existsb (strict_eq (job_id x)) (map job_id pre).
Proof.
  induction pre as [| y pre IH]; simpl; [reflexivity |].
  rewrite IH. f_equal.
  destruct (strict_eq (job_id y) (job_id x)) eqn:E1,
           (strict_eq (job_id x) (job_id y)) eqn:E2; try reflexivity.
  - apply strict_eq_eq in E1. symmetry in E1. apply strict_eq_eq in E1. congruence.
  - apply strict_eq_eq in E2. symmetry in E2. apply strict_eq_eq in E2. congruence.
Qed.

(** The filter keeps the records whose id was not seen before. *)
Lemma filter_from_first_of_each_id (jobs : list Job) :
  forall pre : list Job,
    filter_from
      (fun job index =>
         index =? findIndex (fun j => strict_eq (job_id j) (job_id job))
                            (pre ++ jobs))
      (Z.of_nat (length pre)) jobs
    = first_of_each_id job_id (map job_id pre) jobs.
Proof.
  induction jobs as [| x rest IH]; intros pre; [reflexivity |].
  cbn [filter_from first_of_each_id].
  replace (pre ++ x :: rest)%list with ((pre ++ [x]) ++ rest)%list
    by (now rewrite <- app_assoc).
  specialize (IH (pre ++ [x])%list).
  rewrite length_app, map_app in IH. cbn [length map] in IH.
  replace (Z.of_nat (length pre + 1)) with (Z.of_nat (length pre) + 1) in IH by lia.
  rewrite IH, <- existsb_same_id.
  assert (Hx : strict_eq (job_id x) (job_id x) = true) by now apply strict_eq_eq.
  unfold findIndex. rewrite <- app_assoc. cbn [app].
  destruct (existsb (fun j => strict_eq (job_id j) (job_id x)) pre) eqn:Hpre.
  - pose proof (findIndex_from_before _ pre 0 (x :: rest) Hpre) as Hlt.
    destruct (Z.eqb_spec (Z.of_nat (length pre))
                (findIndex_from (fun j => strict_eq (job_id j) (job_id x)) 0
                   (pre ++ x :: rest))) as [E | _]; [lia | reflexivity].
  - rewrite (findIndex_from_first _ pre 0 x rest Hpre Hx).
    rewrite Z.add_0_l, Z.eqb_refl. reflexivity.
Qed.

Lemma uniqueJobs_first_of_each_id (jobs : list Job) :
  uniqueJobs job_id jobs = first_of_each_id job_id [] jobs.
Proof. apply (filter_from_first_of_each_id jobs []). Qed.

Lemma first_of_each_id_distinct (jobs : list Job) :
  forall seen,
    NoDup (map job_id (first_of_each_id job_id seen jobs)) /\
    forall i, In i (map job_id (first_of_each_id job_id seen jobs)) -> ~ In i seen.
Proof.
  induction jobs as [| x rest IH]; intros seen; simpl.
  - split; [constructor | intros i []].
  - destruct (IH (seen ++ [job_id x])%list) as [ND Hnew].
    destruct (existsb (strict_eq (job_id x)) seen) eqn:Hseen.
    + split; [exact ND |]. intros i Hi Hin.
      apply (Hnew i Hi). apply in_or_app. now left.
    + assert (Hx : ~ In (job_id x) seen).
      { intros Hin. apply seen_spec in Hin. congruence. }
      simpl. split.
      * constructor; [| exact ND]. intros Hin.
        apply (Hnew _ Hin). apply in_or_app. right. now left.
      * intros i [<- | Hi]; [exact Hx |]. intros Hin.
        apply (Hnew i Hi). apply in_or_app. now left.
Qed.

Lemma first_of_each_id_complete (jobs : list Job) :
  forall seen job,
    In job jobs ->
    In (job_id job) seen \/
    In (job_id job) (map job_id (first_of_each_id job_id seen jobs)).
Proof.
  induction jobs as [| x rest IH]; intros seen job Hin; [destruct Hin |].
  simpl. destruct Hin as [-> | Hin].
  - destruct (existsb (strict_eq (job_id job)) seen) eqn:Hseen.
    + left. now apply seen_spec.
    + right. now left.
  - destruct (IH (seen ++ [job_id x])%list job Hin) as [Hs | Hr].
    + apply in_app_or in Hs as [Hs | [<- | []]]; [now left |].
      destruct (existsb (strict_eq (job_id x)) seen) eqn:Hseen.
      * left. now apply seen_spec.
      * right. now left.
    + right. destruct (existsb (strict_eq (job_id x)) seen); [exact Hr | now right].
Qed.

Lemma first_of_each_id_incl (jobs : list Job) :
  forall seen, incl (first_of_each_id job_id seen jobs) jobs.
Proof.
  induction jobs as [| x rest IH]; intros seen; simpl; [apply incl_refl |].
  destruct (existsb (strict_eq (job_id x)) seen).
  - apply incl_tl, IH.
  - apply incl_cons; [now left | apply incl_tl, IH].
Qed.

(** X21. No two records the handlers give to the database share a
    [job_id]. *)
Theorem uniqueJobs_distinct (jobs : list Job) :
  NoDup (map job_id (uniqueJobs job_id jobs)).
Proof.
  rewrite uniqueJobs_first_of_each_id. apply first_of_each_id_distinct.
Qed.

(** X22. The filter of the handlers loses no [job_id] and invents no
    record: every id of the scraped records is the id of a record that is
    kept, and every record kept is one of the scraped ones. *)
Theorem uniqueJobs_keeps_every_id (jobs : list Job) :
  incl (map job_id jobs) (map job_id (uniqueJobs job_id jobs)) /\
  incl (uniqueJobs job_id jobs) jobs.
Proof.
  rewrite uniqueJobs_first_of_each_id. split.
  - intros i Hi. apply in_map_iff in Hi as (job & <- & Hin).
    destruct (first_of_each_id_complete jobs [] job Hin) as [[] | Hkept].
    exact Hkept.
  - apply first_of_each_id_incl.
Qed.

End UniqueJobsProofs.

Section UniqueJobsScenarios.
Import Utils Handlers.

(** The ten records of the scrape with repeated ids: the first five stay. *)
Example uniqueJobs_of_repeated_ids :
  map Utils.id
    (uniqueJobs Utils.id
       (map (fun i => job i "Engineer") ["1"; "2"; "3"; "4"; "5"; "1"; "2"; "3"; "4"; "5"]))
  = [Some "1"; Some "2"; Some "3"; Some "4"; Some "5"].
Proof. reflexivity. Qed.

End UniqueJobsScenarios.

(** ** The fallback, and closing *)

Section FallbackMore.
Import JS Utils.
Import EnhancedScraper(EnhancedScraperConfig, base, ScraperHandle, scraper_new,
  scraper_initialize, scraper_scrapeJobs, scraper_close, scrapeJobsWithRetry,
  createEnhancedScraper).
Import Index.
Context {W : Type} `{ScraperHandle W} `{SimpleScraper W}.

(** X23. When the primary path has thrown [E] and the scrape of the simple
    scraper throws as well, [runJobScraper] throws [E] and the simple
    scraper it created is not closed: after the failed scrape the only call
    is the [close] of the enhanced scraper. *)
Theorem fallback_failure_skips_simple_close
    position location offset companyJobsUrl
    (st0 st1 st2 : St W) (scraper : EnhancedScraperConfig) (E fallbackError : JsError)
    (w3 w4 : W) :
  createEnhancedScraper legacy_config st0 = (Ok scraper, st1) ->
  scrapeJobsWithRetry scraper
    (mkRequest position location offset companyJobsUrl (Some 100)) st1
  = (Throw E, st2) ->
  simple_create (world st2) = (Ok tt, w3) ->
  simple_scrapeJobs position location 100 w3 = (Throw fallbackError, w4) ->
  runJobScraper position location offset companyJobsUrl st0
  = (Throw E,
     mkSt (scraper_close w4)
          (trace st2 ++ [CreateSimpleScraper; SimpleScrapeJobs; ScraperClose])).
Proof.
  intros Hcreate Hprimary Hsimple Hscrape.
  unfold runJobScraper. rewrite (bind_ok _ _ _ _ _ Hcreate).
  unfold ensuring.
  rewrite (catch_throw _ _ _ _ _ (bind_throw _ _ _ _ _ Hprimary)).
  unfold fallback, catch, bind, call, throw, EnhancedScraper.close.
  rewrite Hsimple. simpl. rewrite Hscrape. simpl.
  rewrite <- !app_assoc. reflexivity.
Qed.

End FallbackMore.

Section CloseProofs.
Import JS Utils.
Import CustomScraper(Playwright, hasContext, contextClose, dropContext, close).
Context {W : Type} `{Playwright W}.

(** X24. [close] of the custom scraper never throws: an error of
    [context.close()] is swallowed and the context is dropped all the same;
    without a context nothing is called. *)
Theorem close_never_throws (st : St W) :
  fst (close st) = Ok tt /\
  world (snd (close st))
  = (if hasContext (world st)
     then dropContext (snd (contextClose (world st)))
     else world st).
Proof.
  unfold close. destruct (hasContext (world st)); [| split; reflexivity].
  unfold quietly, catch, bind, call, update, ret.
  destruct (contextClose (world st)) as [[[] | e] w1]; split; reflexivity.
Qed.

End CloseProofs.

Section FallbackMoreScenarios.
Import JS Utils.
Import EnhancedScraper(EnhancedScraperConfig, scrapeJobsWithRetry, createEnhancedScraper).
Import Index.

Lemma fallback_failure_skips_simple_close_witness :
  let st0 := start always_closed in
  let st1 := snd (createEnhancedScraper legacy_config st0) in
  let st2 := snd (scrapeJobsWithRetry two_retries
                    (mkRequest None "Austin, TX" None None (Some 100)) st1) in
  runJobScraper None "Austin, TX" None None st0
  = (Throw closed_error,
     mkSt (EnhancedScraper.scraper_close always_closed)
          (trace st2 ++ [CreateSimpleScraper; SimpleScrapeJobs; ScraperClose])).
Proof.
  intros st0 st1 st2.
  apply (fallback_failure_skips_simple_close None "Austin, TX" None None
           st0 st1 st2 two_retries closed_error closed_error
           always_closed always_closed); reflexivity.
Defined.

End FallbackMoreScenarios.

(** ** Random choices *)

Section RandomProofs.
Import Utils.
Local Open Scope Q_scope.

(** Rounding to a double, of which two facts are used: it is monotone, and
    it goes to a nearest double, so that no number [m / 2^k] with a mantissa
    [m] of at most 53 bits is nearer to [x] than [fl x] is. *)
Variable fl : Q -> Q.
Hypothesis fl_monotone : forall x y : Q, x <= y -> fl x <= fl y.
Hypothesis fl_nearest :
  forall (x : Q) (m k : Z),
    (Z.abs m <= 2 ^ 53)%Z -> (0 <= k <= 1074)%Z ->
    Qabs (fl x - x) <= Qabs (inject_Z m / inject_Z (2 ^ k) - x).

#[local] Instance fl_compat : Proper (Qeq ==> Qeq) fl.
Proof.
  intros x y Hxy. apply Qle_antisym; apply fl_monotone; rewrite Hxy; apply Qle_refl.
Qed.

Lemma fl_double (m k : Z) :
  (Z.abs m <= 2 ^ 53)%Z -> (0 <= k <= 1074)%Z ->
  fl (inject_Z m / inject_Z (2 ^ k)) == inject_Z m / inject_Z (2 ^ k).
Proof.
  intros Hm Hk.
  pose proof (fl_nearest (inject_Z m / inject_Z (2 ^ k)) m k Hm Hk) as Hn.
  assert (E : inject_Z m / inject_Z (2 ^ k) - inject_Z m / inject_Z (2 ^ k) == 0) by ring.
  rewrite E in Hn. change (Qabs 0) with 0 in Hn.
  apply Qabs_Qle_condition in Hn. lra.
Qed.

Lemma fl_integer (z : Z) :
  (Z.abs z <= 2 ^ 53)%Z -> fl (inject_Z z) == inject_Z z.
Proof.
  intros Hz. pose proof (fl_double z 0 Hz ltac:(lia)) as Hd.
  assert (E : inject_Z z / inject_Z (2 ^ 0) == inject_Z z).
  { change (inject_Z (2 ^ 0)) with 1. field. }
  rewrite E in Hd. exact Hd.
Qed.

Lemma pow2_pos (k : Z) : (0 <= k)%Z -> 0 < inject_Z (2 ^ k).
Proof.
  intros Hk. change 0 with (inject_Z 0). rewrite <- Zlt_Qlt.
  apply Z.pow_pos_nonneg; lia.
Qed.

(** The largest double below an integer [n] of at most 53 bits is at least
    [n * (1 - 2^-53)], and what lies at or below this number is not rounded
    up to [n]. *)
Lemma fl_below (n : Z) (x : Q) :
  (0 < n <= 2 ^ 53)%Z ->
  x <= inject_Z n * (1 - 1 / inject_Z (2 ^ 53)) ->
  fl x < inject_Z n.
Proof.
  intros Hn Hx.
  set (N := inject_Z n) in *. set (T := inject_Z (2 ^ 53)) in *.
  set (y := N * (1 - 1 / T)) in *.
  apply Qle_lt_trans with (fl y); [now apply fl_monotone |].
  assert (HT : 0 < T) by (apply pow2_pos; lia).
  assert (HN : 0 < N) by (unfold N; change 0 with (inject_Z 0); rewrite <- Zlt_Qlt; lia).
  set (e := Z.log2 n).
  destruct (Z.log2_spec n ltac:(lia)) as [Hlo Hhi]. fold e in Hlo, Hhi.
  assert (He0 : (0 <= e)%Z) by apply Z.log2_nonneg.
  assert (He : (e <= 53)%Z).
  { destruct (Z.le_gt_cases e 53) as [| Hgt]; [assumption |].
    assert (2 ^ 54 <= 2 ^ e)%Z by (apply Z.pow_le_mono_r; lia).
    assert (2 ^ 53 < 2 ^ 54)%Z by reflexivity. lia. }
  assert (Hy : y == N - N / T) by (unfold y; field; lra).
  destruct (Z.eq_dec n (2 ^ e)) as [Hpow | Hnot].
  - (* [n] is a power of two: [y] is a double *)
    assert (Hsplit : (2 ^ 53 = 2 ^ e * 2 ^ (53 - e))%Z).
    { rewrite <- Z.pow_add_r by lia. f_equal. lia. }
    assert (Hd : inject_Z (2 ^ 53 - 1) / inject_Z (2 ^ (53 - e)) == y).
    { pose proof (pow2_pos (53 - e) ltac:(lia)) as Hp.
      unfold y, T, N. rewrite Hsplit at 2. rewrite Hpow at 1.
      rewrite inject_Z_mult.
      unfold Z.sub at 1. rewrite inject_Z_plus. 
      pose proof (pow2_pos e He0) as Hpe.
      rewrite Hsplit at 1. rewrite inject_Z_mult.
      change (inject_Z (-(1))) with (-(1)). field. lra. }
    rewrite <- Hd at 1. rewrite fl_double; [| lia | lia].
    rewrite Hd, Hy.
    assert (0 < N / T) by (apply Qlt_shift_div_l; lra). lra.
  - (* otherwise the double below [n] is nearer to [y] than [n] is *)
    assert (Hlt : (2 ^ e < n)%Z) by lia.
    assert (He52 : (e <= 52)%Z).
    { destruct (Z.eq_dec e 53) as [-> | ]; [lia | lia]. }
    set (a := (2 ^ (52 - e))%Z).
    assert (Ha : (0 < a)%Z) by (apply Z.pow_pos_nonneg; lia).
    assert (Hsplit : (2 ^ 53 = 2 * a * 2 ^ e)%Z).
    { unfold a. replace 53%Z with (1 + (52 - e) + e)%Z at 1 by lia.
      rewrite !Z.pow_add_r by lia. reflexivity. }
    assert (Hsucc : (2 ^ Z.succ e = 2 * 2 ^ e)%Z) by (rewrite Z.pow_succ_r; lia).
    destruct (Qlt_le_dec (fl y) N) as [| Hge]; [assumption | exfalso].
    assert (Hm : (Z.abs (n * a - 1) <= 2 ^ 53)%Z) by nia.
    pose proof (fl_nearest y (n * a - 1) (52 - e) Hm ltac:(lia)) as Hnear.
    fold a in Hnear.
    set (A := inject_Z a) in *.
    set (B := inject_Z (2 ^ e)).
    assert (HA : 0 < A) by (unfold A; change 0 with (inject_Z 0); rewrite <- Zlt_Qlt; lia).
    assert (HTAB : T == 2 * A * B).
    { unfold T, A, B. rewrite Hsplit, !inject_Z_mult. reflexivity. }
    assert (HBN : B < N) by (unfold B, N; rewrite <- Zlt_Qlt; lia).
    assert (HN2B : N < 2 * B).
    { unfold B, N. change 2 with (inject_Z 2). rewrite <- inject_Z_mult, <- Zlt_Qlt. lia. }
    assert (HB : 0 < B) by (apply pow2_pos; lia).
    assert (Hcand : inject_Z (n * a - 1) / A == N - 2 * B / T).
    { unfold Z.sub. rewrite inject_Z_plus, inject_Z_mult. fold N A.
      change (inject_Z (- (1))) with (-(1)). rewrite HTAB. field. lra. }
    rewrite Hcand in Hnear.
    set (u := N / T) in *. set (v := B / T).
    assert (Huv : v < u).
    { unfold u, v, Qdiv. apply Qmult_lt_compat_r; [apply Qinv_lt_0_compat; lra | exact HBN]. }
    assert (Hv2 : 2 * B / T == 2 * v) by (unfold v; field; lra).
    rewrite Hv2, Hy in Hnear. 
    assert (Hu2 : u < 2 * v).
    { unfold u, v. setoid_replace (2 * (B / T)) with ((2 * B) / T) by (field; lra).
      unfold Qdiv. apply Qmult_lt_compat_r; [apply Qinv_lt_0_compat; lra | exact HN2B]. }
    rewrite Hy in Hge.
    assert (E1 : Qabs (fl (N - u) - (N - u)) == fl (N - u) - (N - u)).
    { apply Qabs_pos. lra. }
    assert (E2 : Qabs (N - 2 * v - (N - u)) == - (N - 2 * v - (N - u))).
    { apply Qabs_neg. lra. }
    rewrite E1, E2 in Hnear. lra.
Qed.


Lemma random_floor_range (n : Z) (rnd : Q) :
  (0 < n <= 2 ^ 53)%Z ->
  0 <= rnd -> rnd <= 1 - 1 / inject_Z (2 ^ 53) ->
  (0 <= Qfloor (fl (rnd * inject_Z n)) <= n - 1)%Z.
Proof.
  intros Hn H0 H1.
  assert (HN : 0 < inject_Z n)
    by (change 0 with (inject_Z 0); rewrite <- Zlt_Qlt; lia).
  split.
  - rewrite <- (Qfloor_Z 0). apply Qfloor_resp_le.
    rewrite <- (fl_integer 0) by lia. apply fl_monotone.
    change (inject_Z 0) with 0. nra.
  - assert (Hlt : fl (rnd * inject_Z n) < inject_Z n).
    { apply fl_below; [exact Hn |]. rewrite (Qmult_comm rnd).
      apply Qmult_le_l; [exact HN | exact H1]. }
    pose proof (Qfloor_le (fl (rnd * inject_Z n))) as Hfloor.
    assert (Hz : inject_Z (Qfloor (fl (rnd * inject_Z n))) < inject_Z n) by lra.
    rewrite <- Zlt_Qlt in Hz. lia.
Qed.

(** X25. [randomDelay(min, max)] waits at least [min] and at most [max]
    milliseconds, for integers [min <= max] and every value of
    [Math.random()], a double below 1. *)
Theorem randomDelay_ms_range (min max : Z) (rnd : Q) :
  (min <= max)%Z -> (max - min + 1 <= 2 ^ 53)%Z ->
  0 <= rnd -> rnd <= 1 - 1 / inject_Z (2 ^ 53) ->
  (min <= randomDelay_ms fl min max rnd <= max)%Z.
Proof.
  intros Hle Hsafe H0 H1. unfold randomDelay_ms. cbv zeta.
  pose proof (random_floor_range (max - min + 1) rnd ltac:(lia) H0 H1). lia.
Qed.

(** X26. [generateRandomDelay] returns between 1000 and 2999. *)
Theorem generateRandomDelay_range (rnd : Q) :
  0 <= rnd -> rnd <= 1 - 1 / inject_Z (2 ^ 53) ->
  (1000 <= generateRandomDelay fl rnd <= 2999)%Z.
Proof.
  intros H0 H1. unfold generateRandomDelay.
  assert (Hsafe : (0 < 2000 <= 2 ^ 53)%Z) by (split; [lia | discriminate]).
  pose proof (random_floor_range 2000 rnd Hsafe H0 H1) as Hr.
  change (inject_Z 2000) with 2000 in Hr. lia.
Qed.

(** X27. [getRandomUserAgent] returns one of its six user agents, never
    [undefined]. *)
Theorem getRandomUserAgent_listed (rnd : Q) :
  0 <= rnd -> rnd <= 1 - 1 / inject_Z (2 ^ 53) ->
  exists userAgent,
    getRandomUserAgent fl rnd = Some userAgent /\ In userAgent userAgents.
Proof.
  intros H0 H1. unfold getRandomUserAgent. cbv zeta.
  assert (Hsafe : (0 < Z.of_nat (length userAgents) <= 2 ^ 53)%Z)
    by (split; [reflexivity | discriminate]).
  pose proof (random_floor_range _ rnd Hsafe H0 H1) as Hr.
  set (index := Qfloor (fl (rnd * inject_Z (Z.of_nat (length userAgents))))) in *.
  assert (E : (index <? 0)%Z = false) by lia. rewrite E.
  destruct (nth_error userAgents (Z.to_nat index)) as [userAgent |] eqn:Hnth.
  - exists userAgent. split; [reflexivity | eapply nth_error_In, Hnth].
  - apply nth_error_None in Hnth. lia.
Qed.

End RandomProofs.

Section RandomScenarios.
Import Utils.
Local Open Scope Q_scope.

Lemma exact_monotone (x y : Q) : x <= y -> (fun q : Q => q) x <= (fun q : Q => q) y.
Proof. intros Hxy. exact Hxy. Qed.

Lemma exact_nearest (x : Q) (m k : Z) :
  (Z.abs m <= 2 ^ 53)%Z -> (0 <= k <= 1074)%Z ->
  Qabs ((fun q : Q => q) x - x) <= Qabs (inject_Z m / inject_Z (2 ^ k) - x).
Proof.
  intros _ _. cbv beta.
  assert (E : x - x == 0) by ring. rewrite E. apply Qabs_nonneg.
Qed.

Lemma randomDelay_ms_range_witness :
  (5000 <= randomDelay_ms (fun q => q) 5000 10000 (1 # 2) <= 10000)%Z.
Proof.
  apply (randomDelay_ms_range (fun q => q) exact_monotone exact_nearest
           5000 10000 (1 # 2)).
  - lia.
  - vm_compute. discriminate.
  - vm_compute. discriminate.
  - vm_compute. discriminate.
Defined.

Lemma generateRandomDelay_range_witness :
  (1000 <= generateRandomDelay (fun q => q) (1 # 2) <= 2999)%Z.
Proof.
  apply (generateRandomDelay_range (fun q => q) exact_monotone exact_nearest (1 # 2)).
  - vm_compute. discriminate.
  - vm_compute. discriminate.
Defined.

Lemma getRandomUserAgent_listed_witness :
  exists userAgent,
    getRandomUserAgent (fun q => q) (1 # 2) = Some userAgent
    /\ In userAgent userAgents.
Proof.
  apply (getRandomUserAgent_listed (fun q => q) exact_monotone exact_nearest (1 # 2)).
  - vm_compute. discriminate.
  - vm_compute. discriminate.
Defined.

End RandomScenarios.

(** ** The simple scraper *)

Section SimpleProofs.
Import JS Index.
Import SimpleScraper(Browser, Card, extract_card, extract_jobs, scrape_page, scrapeJobs).
Context {W : Type} `{Browser W}.

Lemma simple_extract_card_named (jobs : list SimpleJobData) (element : Card) :
  Forall (fun job => s_title job <> EmptyString /\ s_company job <> EmptyString) jobs ->
  Forall (fun job => s_title job <> EmptyString /\ s_company job <> EmptyString)
         (extract_card jobs element).
Proof.
  intros Hjobs. unfold extract_card.
  destruct (SimpleScraper.titleEl element) as [titleEl |]; [| exact Hjobs].
  cbv zeta. cbn [s_title s_company].
  destruct (String.eqb_spec (or_else (opt_trim (SimpleScraper.link_text titleEl)) "") "")
    as [| Htitle]; [exact Hjobs |].
  destruct (String.eqb_spec (or_else (opt_trim (SimpleScraper.company_text element)) "") "")
    as [| Hcompany]; [exact Hjobs |].
  cbn [negb andb]. apply Forall_app. split; [exact Hjobs |].
  constructor; [| constructor]. cbn [s_title s_company]. now split.
Qed.

Lemma simple_extract_jobs_named (jobElements : list Card) :
  Forall (fun job => s_title job <> EmptyString /\ s_company job <> EmptyString)
         (extract_jobs jobElements).
Proof.
  unfold extract_jobs.
  assert (G : forall jobs,
            Forall (fun job => s_title job <> EmptyString /\ s_company job <> EmptyString) jobs ->
            Forall (fun job => s_title job <> EmptyString /\ s_company job <> EmptyString)
                   (fold_left extract_card jobElements jobs)).
  { induction jobElements as [| element rest IH]; intros jobs Hjobs; simpl;
      [exact Hjobs |].
    apply IH, simple_extract_card_named, Hjobs. }
  apply G. constructor.
Qed.

(** X28. What the simple scraper returns: at most [limit || 100] records,
    each with a title and a company that are not empty; so the ["N/A"] that
    the fallback of [runJobScraper] keeps for a missing company is never
    used. *)
Theorem simple_scrapeJobs_records
    position location limit (st : St W) (jobs : list SimpleJobData) (st' : St W) :
  0 <= num_or limit 100 ->
  scrapeJobs position location limit st = (Ok jobs, st') ->
  Z.of_nat (length jobs) <= num_or limit 100 /\
  Forall (fun job => s_title job <> EmptyString /\ s_company job <> EmptyString) jobs /\
  Forall (fun job => l_company (legacy_of_simple job) = s_company job) jobs.
Proof.
  intros Hlimit Hrun. unfold scrapeJobs in Hrun.
  destruct (negb (SimpleScraper.hasBrowser (world st))); [discriminate |].
  apply bind_ok_inv in Hrun as ([] & st1 & _ & Hrun).
  unfold ensuring, catch in Hrun.
  destruct (scrape_page position location limit st1) as [[jobs' | e] st2] eqn:Hpage;
    [| discriminate].
  injection Hrun as <- _. unfold scrape_page in Hpage.
  apply bind_ok_inv in Hpage as ([] & st3 & _ & Hpage).
  apply bind_ok_inv in Hpage as ([] & st4 & _ & Hpage).
  apply bind_ok_inv in Hpage as (jobElements & st5 & _ & Hpage).
  injection Hpage as <- _.
  assert (Hnamed :
    Forall (fun job => s_title job <> EmptyString /\ s_company job <> EmptyString)
           (slice0 (extract_jobs jobElements) (num_or limit 100))).
  { unfold slice0. assert (E : (num_or limit 100 <? 0) = false) by lia. rewrite E.
    pose proof (simple_extract_jobs_named jobElements) as Hall.
    rewrite <- (firstn_skipn (Z.to_nat (num_or limit 100)) (extract_jobs jobElements))
      in Hall.
    now apply Forall_app in Hall. }
  split; [now apply slice0_length |]. split; [exact Hnamed |].
  eapply Forall_impl; [| exact Hnamed].
  intros job [_ Hcompany]. unfold legacy_of_simple. cbn [l_company or_else].
  destruct (String.eqb_spec (s_company job) ""); [contradiction | reflexivity].
Qed.

End SimpleProofs.

Section SimpleScenarios.
Import JS Index SimpleScraper.

Lemma simple_scrapeJobs_records_witness :
  let jobs := [mkSimpleJob "11" "Engineer" "Acme" "Austin, TX" "" "/jobs/view/1";
               mkSimpleJob "k3x9q2m1z" "Analyst" "Initech" "Austin, TX" "" "/jobs/view/1"] in
  Z.of_nat (length jobs) <= num_or (Some 100) 100 /\
  Forall (fun job => s_title job <> EmptyString /\ s_company job <> EmptyString) jobs /\
  Forall (fun job => l_company (legacy_of_simple job) = s_company job) jobs.
Proof.
  intros jobs.
  apply (simple_scrapeJobs_records None "Austin, TX" (Some 100)
           (start simple_results) jobs
           (snd (scrapeJobs None "Austin, TX" (Some 100) (start simple_results)))).
  - vm_compute. discriminate.
  - reflexivity.
Defined.

End SimpleScenarios.
